(** * CanCLID feature-detector: the judgement engine of [cantonesedetect/Detector.py]

    A shallow embedding of the detector and the proofs of its specification.

    Definitions:
    - [Utf8]: Python [str] values are sequences of Unicode code points; the
      pattern sources are kept as the text of the Python file and decoded here.
    - [Re]: the fragment of Python's [re] the seven pattern tables use
      (classes, literals, alternation, groups, greedy [*] and [?] on a class),
      with the backtracking matcher and the left-to-right scanner behind
      [findall], [finditer], [sub] and [split].
    - [Tables]: the seven compiled patterns.
    - [Py]: the Python values the detector computes with: exceptions, IEEE-754
      binary64 floats, [math.floor], [math.ceil], [/], [collections.Counter],
      [str.strip], [str.join].
    - [Detector]: the methods of [CantoneseDetector].
    - [Lang], [Rounding], [Spec]: the language of a pattern, the steps of
      binary64 rounding, and the components as the specification words them.
    - [Count], [Aggregate]: counting characters and matches, the phrases of a
      finite pattern, and the parts of [_judge_segments].
    - [Cli]: the loop of [main] in [cantonesedetect/cli.py].
    - [TestJudge]: [load_test_sentences] of [tests/test_judge.py].

    Facts: [PyFacts], [ScanFacts], [ReFacts], [QuoteFacts], [SeparatorFacts],
    [FloatFacts], [ThresholdFacts], [SizeFacts], [JudgeFacts], [NeutralFacts],
    [CountFacts], [HanFacts], [ThresholdExact], [AggregateFacts],
    [ReconcileFacts], [CliFacts], [TestJudgeFacts], [PhraseFacts], [PureFacts],
    [DocumentFacts]; the claims C1 to C10 in [Claims] and the further
    properties X1 to X20 in [Extras]. *)

From Stdlib Require Import String Ascii ZArith List Bool Lia.
From Stdlib Require Import Floats.SpecFloat.
Import ListNotations.

Set Implicit Arguments.

(** A Python [str]: the list of its code points. *)
Definition str := list Z.

(* ================================================================== *)
(** * UTF-8 source text to code points *)

Module Utf8.

Definition bytes_of (s : string) : list Z :=
  map (fun a => Z.of_N (N_of_ascii a)) (list_ascii_of_string s).

Definition cont (b : Z) : Z := b - 128.

Fixpoint decode (bs : list Z) : option str :=
  match bs with
  | [] => Some []
  | b0 :: t0 =>
    if b0 <? 128 then option_map (cons b0) (decode t0)
    else if b0 <? 192 then None
    else if b0 <? 224 then
      match t0 with
      | b1 :: t1 => option_map (cons ((b0 - 192) * 64 + cont b1)) (decode t1)
      | _ => None
      end
    else if b0 <? 240 then
      match t0 with
      | b1 :: b2 :: t2 =>
        option_map (cons ((b0 - 224) * 4096 + cont b1 * 64 + cont b2)) (decode t2)
      | _ => None
      end
    else
      match t0 with
      | b1 :: b2 :: b3 :: t3 =>
        option_map
          (cons ((b0 - 240) * 262144 + cont b1 * 4096 + cont b2 * 64 + cont b3))
          (decode t3)
      | _ => None
      end
  end%Z.

(** The code points of a literal of the Python source. *)
Definition text (s : string) : str :=
  match decode (bytes_of s) with Some l => l | None => [] end.

End Utf8.

(* ================================================================== *)
(** * The fragment of Python's [re] used by the pattern tables *)

Module Re.

(** A bracketed class [[...]] or [[^...]]: its ranges, a single character
    being the range from itself to itself.  A literal outside brackets is the
    class of that one character. *)
Record cclass := Class { negated : bool; ranges : list (Z * Z) }.

Definition in_ranges (rs : list (Z * Z)) (x : Z) : bool :=
  existsb (fun ab => (fst ab <=? x)%Z && (x <=? snd ab)%Z) rs.

Definition in_class (k : cclass) (x : Z) : bool :=
  xorb (negated k) (in_ranges (ranges k) x).

(** Patterns.  [Star] and [Opt] are the greedy [*] and [?]; every quantifier
    of the tables is applied to a class.  [Group i r] is the capturing group
    opened by the [i]-th parenthesis. *)
Inductive re :=
| Eps
| Cls (k : cclass)
| Seq (a b : re)
| Alt (a b : re)
| Star (k : cclass)
| Opt (k : cclass)
| Group (i : nat) (r : re).

(** ** Parsing the pattern text *)

Inductive tok := Tok (c : Z) (escaped : bool).

Definition hexval (c : Z) : option Z :=
  if ((48 <=? c) && (c <=? 57))%Z then Some (c - 48)%Z
  else if ((97 <=? c) && (c <=? 102))%Z then Some (c - 87)%Z
  else if ((65 <=? c) && (c <=? 70))%Z then Some (c - 55)%Z
  else None.

Fixpoint hexnum (ds : list Z) (acc : Z) : option Z :=
  match ds with
  | [] => Some acc
  | d :: ds' =>
    match hexval d with
    | Some v => hexnum ds' (acc * 16 + v)%Z
    | None => None
    end
  end.

Definition tok_cons (c : option Z) (r : option (list tok)) : option (list tok) :=
  match c, r with
  | Some c, Some r => Some (Tok c true :: r)
  | _, _ => None
  end.

(** Escapes of the tables: [\n], [\uXXXX] and [\UXXXXXXXX]. *)
Fixpoint lex (s : str) : option (list tok) :=
  match s with
  | [] => Some []
  | c :: r =>
    if (c =? 92)%Z then
      match r with
      | e :: r1 =>
        if (e =? 110)%Z then tok_cons (Some 10%Z) (lex r1)
        else if (e =? 117)%Z then
          match r1 with
          | h1 :: h2 :: h3 :: h4 :: r2 =>
            tok_cons (hexnum [h1; h2; h3; h4] 0) (lex r2)
          | _ => None
          end
        else if (e =? 85)%Z then
          match r1 with
          | h1 :: h2 :: h3 :: h4 :: h5 :: h6 :: h7 :: h8 :: r2 =>
            tok_cons (hexnum [h1; h2; h3; h4; h5; h6; h7; h8] 0) (lex r2)
          | _ => None
          end
        else None
      | [] => None
      end
    else option_map (cons (Tok c false)) (lex r)
  end.

Fixpoint seq_of (l : list re) : re :=
  match l with
  | [] => Eps
  | [a] => a
  | a :: l' => Seq a (seq_of l')
  end.

Fixpoint alt_of (l : list re) : re :=
  match l with
  | [] => Eps
  | [a] => a
  | a :: l' => Alt a (alt_of l')
  end.

(** One nesting level being parsed: the alternatives already closed and the
    sequence being read, both latest first. *)
Record frame := Frame { f_alts : list re; f_seq : list re; f_group : nat }.

Definition close_frame (f : frame) : re :=
  alt_of (rev (seq_of (rev (f_seq f)) :: f_alts f)).

Inductive pmode :=
| Outside
| InClass (neg fresh : bool) (rs : list (Z * Z)) (pend : option Z) (dash : bool).

Record pstate := PState
  { p_stack : list frame; p_top : frame; p_groups : nat; p_mode : pmode }.

Definition flush (rs : list (Z * Z)) (pend : option Z) (dash : bool) : list (Z * Z) :=
  let rs1 := match pend with Some a => (a, a) :: rs | None => rs end in
  if dash then (45, 45)%Z :: rs1 else rs1.

Definition push_atom (st : pstate) (a : re) : pstate :=
  let f := p_top st in
  PState (p_stack st) (Frame (f_alts f) (a :: f_seq f) (f_group f))
         (p_groups st) Outside.

Definition step (st : pstate) (t : tok) : option pstate :=
  let 'Tok c esc := t in
  let f := p_top st in
  match p_mode st with
  | InClass neg fresh rs pend dash =>
    if negb esc && (c =? 93)%Z then
      Some (push_atom st (Cls (Class neg (rev (flush rs pend dash)))))
    else if negb esc && (c =? 94)%Z && fresh && negb neg then
      Some (PState (p_stack st) f (p_groups st) (InClass true true rs pend dash))
    else if negb esc && (c =? 45)%Z && negb dash
            && match pend with Some _ => true | None => false end then
      Some (PState (p_stack st) f (p_groups st) (InClass neg false rs pend true))
    else
      match pend, dash with
      | Some a, true =>
        Some (PState (p_stack st) f (p_groups st)
                     (InClass neg false ((a, c) :: rs) None false))
      | _, _ =>
        Some (PState (p_stack st) f (p_groups st)
                     (InClass neg false (flush rs pend false) (Some c) false))
      end
  | Outside =>
    if esc then Some (push_atom st (Cls (Class false [(c, c)])))
    else if (c =? 91)%Z then
      Some (PState (p_stack st) f (p_groups st) (InClass false true [] None false))
    else if (c =? 124)%Z then
      Some (PState (p_stack st)
                   (Frame (seq_of (rev (f_seq f)) :: f_alts f) [] (f_group f))
                   (p_groups st) Outside)
    else if (c =? 40)%Z then
      let g := S (p_groups st) in
      Some (PState (f :: p_stack st) (Frame [] [] g) g Outside)
    else if (c =? 41)%Z then
      match p_stack st with
      | up :: stack' =>
        Some (PState stack'
                     (Frame (f_alts up) (Group (f_group f) (close_frame f) :: f_seq up)
                            (f_group up))
                     (p_groups st) Outside)
      | [] => None
      end
    else if (c =? 42)%Z then
      match f_seq f with
      | Cls k :: l =>
        Some (PState (p_stack st) (Frame (f_alts f) (Star k :: l) (f_group f))
                     (p_groups st) Outside)
      | _ => None
      end
    else if (c =? 63)%Z then
      match f_seq f with
      | Cls k :: l =>
        Some (PState (p_stack st) (Frame (f_alts f) (Opt k :: l) (f_group f))
                     (p_groups st) Outside)
      | _ => None
      end
    else Some (push_atom st (Cls (Class false [(c, c)])))
  end.

Fixpoint steps (st : pstate) (ts : list tok) : option pstate :=
  match ts with
  | [] => Some st
  | t :: ts' =>
    match step st t with
    | Some st' => steps st' ts'
    | None => None
    end
  end.

Definition parse (s : str) : option re :=
  match lex s with
  | Some ts =>
    match steps (PState [] (Frame [] [] 0) 0 Outside) ts with
    | Some (PState [] f _ Outside) => Some (close_frame f)
    | _ => None
    end
  | None => None
  end.

(** [re.compile] of a pattern of the source file; a text outside the fragment
    compiles to the pattern that matches nothing. *)
Definition compile (s : string) : re :=
  match parse (Utf8.text s) with
  | Some r => r
  | None => Cls (Class false [])
  end.

(** ** Matching

    Python's matcher is a backtracking one: alternatives are tried left to
    right, a greedy quantifier takes as much as it can and gives back one
    character at a time, and the first way through the whole pattern is the
    match.  [k] is what remains to be matched after [r]. *)

Definition caps := list (nat * str).

(** The text between a position and a later one. *)
Definition consumed (s s' : str) : str := firstn (length s - length s') s.

Section Matcher.
Context {A : Type}.

Fixpoint star (c : cclass) (k : str -> option A) (s : str) : option A :=
  match s with
  | x :: s' =>
    if in_class c x then
      match star c k s' with
      | Some v => Some v
      | None => k s
      end
    else k s
  | [] => k s
  end.

Fixpoint run (r : re) (s : str) (cs : caps) (k : str -> caps -> option A) : option A :=
  match r with
  | Eps => k s cs
  | Cls c =>
    match s with
    | x :: s' => if in_class c x then k s' cs else None
    | [] => None
    end
  | Seq a b => run a s cs (fun s' cs' => run b s' cs' k)
  | Alt a b =>
    match run a s cs k with
    | Some v => Some v
    | None => run b s cs k
    end
  | Star c => star c (fun s' => k s' cs) s
  | Opt c =>
    match s with
    | x :: s' =>
      if in_class c x then
        match k s' cs with
        | Some v => Some v
        | None => k s cs
        end
      else k s cs
    | [] => k s cs
    end
  | Group i r' => run r' s cs (fun s' cs' => k s' ((i, consumed s s') :: cs'))
  end.

End Matcher.

(** The match starting at the head of [s], if any: its text and its groups. *)
Definition match_at (r : re) (s : str) : option (str * caps) :=
  run r s [] (fun s' cs => Some (consumed s s', cs)).

(** ** Scanning

    [findall], [finditer], [sub] and [split] walk the subject from left to
    right: at a position not inside the previous match the pattern is tried;
    a match is recorded and the walk resumes after it, otherwise the character
    is left alone.  [skip] counts the characters of the current match still to
    be passed.  No table matches the empty string (lemma [tables_not_nullable]
    below), so the special treatment Python gives empty matches is never
    reached and an empty match is read as no match. *)

Inductive piece :=
| Unmatched (c : Z)
| Matched (text : str) (groups : caps).

Fixpoint scan (r : re) (skip : nat) (s : str) : list piece :=
  match s with
  | [] => []
  | c :: s' =>
    match skip with
    | S n => scan r n s'
    | O =>
      match match_at r s with
      | Some (text, cs) =>
        match length text with
        | S n => Matched text cs :: scan r n s'
        | O => Unmatched c :: scan r 0 s'
        end
      | None => Unmatched c :: scan r 0 s'
      end
    end
  end.

Fixpoint group_count (r : re) : nat :=
  match r with
  | Seq a b | Alt a b => group_count a + group_count b
  | Group _ r' => S (group_count r')
  | _ => 0
  end.

Fixpoint group_value (cs : caps) (i : nat) : str :=
  match cs with
  | [] => []
  | (j, t) :: cs' => if Nat.eqb i j then t else group_value cs' i
  end.

(** [pattern.findall(s)]: per match, the whole text when the pattern has no
    group, else the value of each group, a group that took no part being the
    empty string. *)
Definition match_value (r : re) (text : str) (cs : caps) : list str :=
  match group_count r with
  | O => [text]
  | n => map (group_value cs) (seq 1 n)
  end.

Fixpoint matches_of (r : re) (ps : list piece) : list (list str) :=
  match ps with
  | [] => []
  | Unmatched _ :: ps' => matches_of r ps'
  | Matched text cs :: ps' => match_value r text cs :: matches_of r ps'
  end.

Definition findall (r : re) (s : str) : list (list str) :=
  matches_of r (scan r 0 s).

(** [pattern.finditer(s)], as the texts of the matches. *)
Fixpoint texts_of (ps : list piece) : list str :=
  match ps with
  | [] => []
  | Unmatched _ :: ps' => texts_of ps'
  | Matched text _ :: ps' => text :: texts_of ps'
  end.

Definition finditer (r : re) (s : str) : list str := texts_of (scan r 0 s).

(** [pattern.sub(repl, s)] for a replacement text without escapes. *)
Fixpoint replace (repl : str) (ps : list piece) : str :=
  match ps with
  | [] => []
  | Unmatched c :: ps' => c :: replace repl ps'
  | Matched _ _ :: ps' => repl ++ replace repl ps'
  end.

Definition sub (r : re) (repl : str) (s : str) : str := replace repl (scan r 0 s).

(** [pattern.split(s)] for a pattern without groups: the texts between the
    matches, the empty ones included. *)
Fixpoint cut (ps : list piece) (cur : str) : list str :=
  match ps with
  | [] => [rev cur]
  | Unmatched c :: ps' => cut ps' (c :: cur)
  | Matched _ _ :: ps' => rev cur :: cut ps' []
  end.

Definition split (r : re) (s : str) : list str := cut (scan r 0 s) [].

End Re.

(* ================================================================== *)
(** * The pattern tables of [Detector.py] *)

Module Tables.
Import Re.
Local Open Scope string_scope.

(** Adjacent Python string literals are one literal: the tables are the
    concatenation of the lines of the source, as Python reads them. *)

Definition CANTO_FEATURE_SRC : string :=
  "[嘅嗰啲咗佢喺咁噉冇啩哋畀嚟諗惗乜嘢閪撚𨳍𨳊瞓睇㗎餸𨋢摷喎嚿噃嚡嘥嗮啱揾搵喐逳噏𢳂岋糴揈捹撳㩒𥄫攰癐冚孻冧𡃁嚫跣𨃩瀡氹嬲掟孭黐唞㪗埞忟𢛴嗱係唔喇俾]|"
  ++ "唔[係得會好識使洗駛通知到去走掂該錯差]|點[樣會做得解]|[琴尋噚聽第]日|[而依]家|家[下陣]|[真就實梗又話都]係|邊[度個位科]|"
  ++ "[嚇凍攝整揩逢淥浸激][親嚫]|[橫搞傾諗得唔]掂|仲[有係話要得好衰唔]|返[學工去歸]|執[好生實返輸]|[留坐剩]低|"
  ++ "屋企|收皮|慳錢|傾[偈計]|幫襯|求其|是[但旦]|[濕溼]碎|零舍|肉[赤緊酸]|核突|同埋|勁[秋抽]|邊[度隻條張樣個]|去邊".

Definition CANTO_EXCLUDE_SRC : string :=
  "(關係|吱唔|咿唔|喇嘛|喇叭|俾路支|俾斯麥)".

Definition SWC_FEATURE_SRC : string :=
  "[這哪唄咱啥甭那是的他她它吧沒麼么些了卻説說吃弄把也在]|而已".

Definition SWC_EXCLUDE_SRC : string :=
  "亞利桑那|剎那|巴塞羅那|薩那|沙那|哈瓦那|印第安那|那不勒斯|支那|"
  ++ "是[否日次非但旦]|[利於]是|唯命是從|頭頭是道|似是而非|自以為是|俯拾皆是|撩是鬥非|莫衷一是|唯才是用|"
  ++ "[目綠藍紅中]的|的[士確式]|波羅的海|眾矢之的|的而且確|大眼的度|的起心肝"
  ++ "些[微少許小]|"
  ++ "[淹沉浸覆湮埋沒出]沒|沒[落頂收]|神出鬼沒|"
  ++ "了[結無斷當然哥結得解事之]|[未明]了|不得了|大不了|"
  ++ "他[信人國日殺鄉]|[其利無排維結]他|馬耳他|他加祿|他山之石|"
  ++ "其[它]|"
  ++ "[酒網水貼]吧|吧[台臺枱檯]|"
  ++ "[退忘阻]卻|卻步|"
  ++ "[遊游小傳解學假淺眾衆訴論][説說]|[說説][話服明]|自圓其[説說]|長話短[說説]|不由分[說説]|"
  ++ "吃[虧苦力]|"
  ++ "弄[堂]"
  ++ "把[握柄持火風關鬼口嘴戲脈炮砲屁手聲]|大把|拉把|冧把|掃把|拖把|得把|加把|下把位|一把年紀|把死人聲|自把自為|兩把|三把|四把|五把|幾把|拎把|第一把|泵把|"
  ++ "也[許門]|[非威]也|也文也武|之乎者也|維也納|空空如也|頭也不回|時也[命運]也|"
  ++ "在[場乎下校學行任野意於望內案旁生世心線逃位即職座囚此家]|[站志旨爭所勝衰實內外念現好健存潛差弊活]在|我思故我在".

Definition ALL_QUOTEMARKS_SRC : string :=
  "「([^「]*)」|“([^“]*)”|《([^《]*)》|【([^【]*)】|『([^『]*)』".

Definition ALL_DELIMITERS_SRC : string :=
  "[，。；？！⋯\n]".

Definition ALL_HAN_SRC : string :=
  "[\u4e00-\u9fff\u3400-\u4dbf\U00020000-\U0002a6df\U0002a700-\U0002ebef"
  ++ "\U00030000-\U000323af\ufa0e\ufa0f\ufa11\ufa13\ufa14\ufa1f\ufa21\ufa23\ufa24\ufa27\ufa28\ufa29\u3006\u3007]"
  ++ "[\ufe00-\ufe0f\U000e0100-\U000e01ef]?".

Definition CANTO_FEATURE_RE : re := Eval vm_compute in compile CANTO_FEATURE_SRC.
Definition CANTO_EXCLUDE_RE : re := Eval vm_compute in compile CANTO_EXCLUDE_SRC.
Definition SWC_FEATURE_RE : re := Eval vm_compute in compile SWC_FEATURE_SRC.
Definition SWC_EXCLUDE_RE : re := Eval vm_compute in compile SWC_EXCLUDE_SRC.
Definition ALL_QUOTEMARKS_RE : re := Eval vm_compute in compile ALL_QUOTEMARKS_SRC.
Definition ALL_DELIMITERS_RE : re := Eval vm_compute in compile ALL_DELIMITERS_SRC.
Definition ALL_HAN_RE : re := Eval vm_compute in compile ALL_HAN_SRC.

End Tables.

(* ================================================================== *)
(** * Python values and operations *)

Module Py.

(** The exceptions the arithmetic of the detector can raise. *)
Inductive exn := ZeroDivisionError | OverflowError | ValueError.

Inductive result (A : Type) :=
| Ok (a : A)
| Raise (e : exn).
Arguments Ok {A} a.
Arguments Raise {A} e.

Definition bind {A B : Type} (x : result A) (f : A -> result B) : result B :=
  match x with
  | Ok a => f a
  | Raise e => Raise e
  end.

Fixpoint mapM {A B : Type} (f : A -> result B) (l : list A) : result (list B) :=
  match l with
  | [] => Ok []
  | a :: l' =>
    bind (f a) (fun b => bind (mapM f l') (fun bs => Ok (b :: bs)))
  end.

(** ** [float]: IEEE-754 binary64 *)

Definition float := spec_float.
Definition prec : Z := 53.
Definition emax : Z := 1024.

Definition fmul : float -> float -> float := SFmul prec emax.
Definition fsub : float -> float -> float := SFsub prec emax.
(** [x > y]; false when either side is NaN. *)
Definition fgt (x y : float) : bool := SFltb y x.

(** Neither an infinity nor NaN. *)
Definition is_finite (x : float) : bool :=
  match x with
  | S754_zero _ | S754_finite _ _ _ => true
  | _ => false
  end.

(** The literals of the source: the binary64 nearest to the decimal. *)
Definition f0_9 : float := S754_finite false 8106479329266893 (-53).
Definition f0_95 : float := S754_finite false 8556839292003942 (-53).
Definition f0_01 : float := S754_finite false 5764607523034235 (-59).
Definition f0_03 : float := S754_finite false 8646911284551352 (-58).

(** An [int] as the operand of a float operation ([PyLong_AsDouble]): the
    nearest binary64, ties to even; an [int] beyond the range raises. *)
Definition float_of_int (n : Z) : result float :=
  match binary_normalize prec emax n 0 false with
  | S754_infinity _ => Raise OverflowError
  | f => Ok f
  end.

(** [x * n] and [n * x] for a float [x] and an int [n]. *)
Definition mul_float_int (x : float) (n : Z) : result float :=
  bind (float_of_int n) (fun y => Ok (fmul x y)).
Definition mul_int_float (n : Z) (x : float) : result float :=
  bind (float_of_int n) (fun y => Ok (fmul y x)).

(** An int as an exact, unrounded operand of the division below. *)
Definition exact (n : Z) : float :=
  match n with
  | Z0 => S754_zero false
  | Zpos p => S754_finite false p 0
  | Zneg p => S754_finite true p 0
  end.

(** [a / b] on ints: the correctly rounded quotient. *)
Definition int_truediv (a b : Z) : result float :=
  if (b =? 0)%Z then Raise ZeroDivisionError
  else
    match SFdiv prec emax (exact a) (exact b) with
    | S754_infinity _ => Raise OverflowError
    | f => Ok f
    end.

(** [math.floor] and [math.ceil] of a float. *)
Definition floor (x : float) : result Z :=
  match x with
  | S754_nan => Raise ValueError
  | S754_infinity _ => Raise OverflowError
  | S754_zero _ => Ok 0%Z
  | S754_finite s m e =>
    let n := cond_Zopp s (Zpos m) in
    Ok (if (0 <=? e)%Z then n * 2 ^ e else n / 2 ^ (- e))%Z
  end.

Definition ceil (x : float) : result Z :=
  match x with
  | S754_nan => Raise ValueError
  | S754_infinity _ => Raise OverflowError
  | S754_zero _ => Ok 0%Z
  | S754_finite s m e =>
    let n := cond_Zopp s (Zpos m) in
    Ok (if (0 <=? e)%Z then n * 2 ^ e else - ((- n) / 2 ^ (- e)))%Z
  end.

(** ** [str] *)

(** [str.isspace] on one character. *)
Definition isspace (c : Z) : bool :=
  Re.in_ranges
    [(9, 13); (28, 32); (133, 133); (160, 160); (5760, 5760); (8192, 8202);
     (8232, 8233); (8239, 8239); (8287, 8287); (12288, 12288)]%Z c.

Fixpoint lstrip (s : str) : str :=
  match s with
  | c :: s' => if isspace c then lstrip s' else s
  | [] => []
  end.

Definition strip (s : str) : str := rev (lstrip (rev (lstrip s))).

(** The truth value of a [str]. *)
Definition truthy (s : str) : bool :=
  match s with [] => false | _ => true end.

(** [sep.join(l)]. *)
Fixpoint join (sep : str) (l : list str) : str :=
  match l with
  | [] => []
  | [x] => x
  | x :: l' => x ++ sep ++ join sep l'
  end.

(** ** [collections.Counter] *)

Section Counter.
Variable K : Type.
Variable eqb : K -> K -> bool.

(** Keys in order of first insertion, each with its count. *)
Definition Counter := list (K * nat).

Fixpoint incr (c : Counter) (k : K) : Counter :=
  match c with
  | [] => [(k, 1)]
  | (k', n) :: c' => if eqb k' k then (k', S n) :: c' else (k', n) :: incr c' k
  end.

(** [Counter(l)]. *)
Definition count_all (l : list K) : Counter := fold_left incr l [].

(** [c[k]]: a missing key counts zero. *)
Fixpoint get (c : Counter) (k : K) : nat :=
  match c with
  | [] => 0
  | (k', n) :: c' => if eqb k' k then n else get c' k
  end.

(** [sum(c.values())]. *)
Definition total (c : Counter) : nat := fold_right (fun kv a => snd kv + a) 0 c.

End Counter.

End Py.

Declare Scope py_scope.
Delimit Scope py_scope with py.
Notation "x <- e ;; k" := (Py.bind e (fun x => k))
  (at level 61, e at next level, right associativity) : py_scope.

(* ================================================================== *)
(** * [class CantoneseDetector] *)

Module Detector.
Import Re Tables Py.
Local Open Scope py_scope.
Local Open Scope Z_scope.

(** The judgements, the strings ["Neutral"], ["Cantonese"], ["SWC"],
    ["Mixed"], ["CantoneseQuotesInSWC"] and ["MixedQuotesInSWC"]. *)
Inductive Label :=
| Neutral | Cantonese | SWC | Mixed | CantoneseQuotesInSWC | MixedQuotesInSWC.

Definition label_eqb (a b : Label) : bool :=
  match a, b with
  | Neutral, Neutral | Cantonese, Cantonese | SWC, SWC | Mixed, Mixed
  | CantoneseQuotesInSWC, CantoneseQuotesInSWC
  | MixedQuotesInSWC, MixedQuotesInSWC => true
  | _, _ => false
  end.

(** The attributes set by [__init__]. *)
Record CantoneseDetector := Build_detector
  { split_seg : bool;
    get_quote : bool;
    print_stat : bool;
    canto_tolerance : float;
    swc_tolerance : float;
    canto_presence : float;
    swc_presence : float }.

(** [CantoneseDetector()] with chosen flags and the default thresholds. *)
Definition default_detector (split quote : bool) : CantoneseDetector :=
  Build_detector split quote false f0_01 f0_01 f0_03 f0_03.

(** Modelled from the spec: the record [SegmentFeatures], whose module
    [cantonesedetect/SegmentFeatures.py] is not among the sources.  It holds
    what [_get_segment_features] passes to its constructor, in that order:
    the segment, the four raw match lists, the two net counts and the Han
    length; [_judge_single_segment] reads the last three by name. *)
Record SegmentFeatures := Build_features
  { segment : str;
    canto_feature : list (list str);
    canto_exclude : list (list str);
    swc_feature : list (list str);
    swc_exclude : list (list str);
    canto_feature_count : Z;
    swc_feature_count : Z;
    length : Z }.

(** The replacement text ["…"] of [_separate_quotes]. *)
Definition ELLIPSIS : str := Eval vm_compute in Utf8.text "…".

Definition len {A : Type} (l : list A) : Z := Z.of_nat (List.length l).

Definition _hant_length (seg : str) : Z := len (finditer ALL_HAN_RE seg).

Definition _separate_quotes (document : str) : str * str :=
  let matrix := sub ALL_QUOTEMARKS_RE ELLIPSIS document in
  let quote_segments := findall ALL_QUOTEMARKS_RE document in
  let quotes := join ELLIPSIS (map (join []) quote_segments) in
  (matrix, quotes).

Definition _get_segment_features (seg : str) : SegmentFeatures :=
  let canto_feature := findall CANTO_FEATURE_RE seg in
  let canto_exclude := findall CANTO_EXCLUDE_RE seg in
  let swc_feature := findall SWC_FEATURE_RE seg in
  let swc_exclude := findall SWC_EXCLUDE_RE seg in
  let canto_feature_count := len canto_feature - len canto_exclude in
  let swc_feature_count := len swc_feature - len swc_exclude in
  let length := _hant_length seg in
  Build_features seg canto_feature canto_exclude swc_feature swc_exclude
                 canto_feature_count swc_feature_count length.

Section Methods.
Variable self : CantoneseDetector.

(** The body of [_judge_single_segment] below its first line. *)
Definition judge_features (features : SegmentFeatures) : result Label :=
  let num_all_features := canto_feature_count features + swc_feature_count features in
  x <- mul_float_int (swc_tolerance self) (length features) ;;
  fl_swc <- floor x ;;
  let lack_swc := swc_feature_count features <=? fl_swc in
  x <- mul_float_int (canto_tolerance self) (length features) ;;
  fl_canto <- floor x ;;
  let lack_canto := canto_feature_count features <=? fl_canto in
  if (num_all_features =? 0) || (lack_canto && lack_swc) then Ok Neutral
  else
    x <- mul_float_int (canto_presence self) (length features) ;;
    ce_canto <- ceil x ;;
    let has_canto := canto_feature_count features >=? ce_canto in
    x <- mul_float_int (swc_presence self) (length features) ;;
    ce_swc <- ceil x ;;
    let has_swc := swc_feature_count features >=? ce_swc in
    a <- int_truediv (canto_feature_count features) num_all_features ;;
    b <- int_truediv (swc_feature_count features) num_all_features ;;
    let canto_pref := fgt (fsub a b) f0_9 in
    a <- int_truediv (swc_feature_count features) num_all_features ;;
    b <- int_truediv (canto_feature_count features) num_all_features ;;
    let swc_pref := fgt (fsub a b) f0_9 in
    if canto_pref && negb has_swc then Ok Cantonese
    else if swc_pref && negb has_canto then Ok SWC
    else Ok Mixed.

Definition _judge_single_segment (seg : str) : result Label :=
  let features := _get_segment_features seg in
  judge_features features.

Definition _judge_segments (document : str) : result Label :=
  let segments :=
    filter (fun x => truthy (strip x)) (split ALL_DELIMITERS_RE document) in
  judgements <- mapM _judge_single_segment segments ;;
  let judgements_counter := count_all label_eqb judgements in
  let canto_seg_count := Z.of_nat (get label_eqb judgements_counter Cantonese) in
  let swc_seg_count := Z.of_nat (get label_eqb judgements_counter SWC) in
  let neutral_seg_count := Z.of_nat (get label_eqb judgements_counter Neutral) in
  x <- mul_int_float (Z.of_nat (total judgements_counter)) f0_95 ;;
  threshold <- ceil x ;;
  let canto_only := canto_seg_count + neutral_seg_count >=? threshold in
  let swc_only := swc_seg_count + neutral_seg_count >=? threshold in
  let neutral_only := neutral_seg_count >=? threshold in
  if neutral_only then Ok Neutral
  else if canto_only then Ok Cantonese
  else if swc_only then Ok SWC
  else Ok Mixed.

Definition _judge_document (document : str) : result Label :=
  if split_seg self then _judge_segments document
  else _judge_single_segment document.

Definition str_eqb (a b : str) : bool :=
  if list_eq_dec Z.eq_dec a b then true else false.

Definition _judge_matrix_quotes (document : str) : result Label :=
  let '(matrix, quotes) := _separate_quotes document in
  if str_eqb matrix ELLIPSIS then
    _judge_document (sub ALL_QUOTEMARKS_RE [] quotes)
  else if str_eqb quotes [] then
    _judge_document matrix
  else
    matrix_judgement <- _judge_document matrix ;;
    quotes_judgement <- _judge_document quotes ;;
    if label_eqb matrix_judgement quotes_judgement then Ok matrix_judgement
    else if label_eqb matrix_judgement Neutral then Ok quotes_judgement
    else if label_eqb quotes_judgement Neutral then Ok matrix_judgement
    else if label_eqb matrix_judgement SWC && label_eqb quotes_judgement Cantonese
    then Ok CantoneseQuotesInSWC
    else if label_eqb matrix_judgement SWC && label_eqb quotes_judgement Mixed
    then Ok MixedQuotesInSWC
    else Ok Mixed.

Definition judge (document : str) : result Label :=
  if get_quote self then _judge_matrix_quotes document
  else _judge_document document.

End Methods.

End Detector.


(* ================================================================== *)
(** * The language of a pattern, and what can be read off its syntax *)

Module Lang.
Import Re.

(** The texts a pattern matches, whatever the order the matcher tries them
    in. *)
Fixpoint lang (r : re) (w : str) : Prop :=
  match r with
  | Eps => w = []
  | Cls k => exists x, w = [x] /\ in_class k x = true
  | Seq a b => exists u v, w = u ++ v /\ lang a u /\ lang b v
  | Alt a b => lang a w \/ lang b w
  | Star k => Forall (fun x => in_class k x = true) w
  | Opt k => w = [] \/ exists x, w = [x] /\ in_class k x = true
  | Group _ r' => lang r' w
  end.

(** [nullable r = false]: the pattern never matches the empty text. *)
Fixpoint nullable (r : re) : bool :=
  match r with
  | Eps | Star _ | Opt _ => true
  | Cls _ => false
  | Seq a b => nullable a && nullable b
  | Alt a b => nullable a || nullable b
  | Group _ r' => nullable r'
  end.

(** No part of [s] is matched by [r]. *)
Definition free (r : re) (s : str) : Prop :=
  forall u w v, s = u ++ w ++ v -> ~ lang r w.

(** [w] is a part of [s]. *)
Definition infix (w s : str) : Prop := exists u v, s = u ++ w ++ v.

(** The characters a list of scanned pieces stands for. *)
Fixpoint weight (ps : list piece) : nat :=
  match ps with
  | [] => 0
  | Unmatched _ :: ps' => S (weight ps')
  | Matched text _ :: ps' => List.length text + weight ps'
  end.

(** Every character of the class [k] is one of [f], by their ranges. *)
Definition class_within (f k : cclass) : bool :=
  negb (negated k)
  && forallb (fun ab => (fst ab =? snd ab)%Z && in_class f (fst ab)) (ranges k).

(** [within f r = true]: every text matched by [r] has a character of the
    class [f]. *)
Fixpoint within (f : cclass) (r : re) : bool :=
  match r with
  | Cls k => class_within f k
  | Seq a b => within f a || within f b
  | Alt a b => within f a && within f b
  | Group _ r' => within f r'
  | Eps | Star _ | Opt _ => false
  end.

(** [avoids x r = true]: no text matched by [r] contains the character [x]. *)
Fixpoint avoids (x : Z) (r : re) : bool :=
  match r with
  | Eps => true
  | Cls k | Star k | Opt k => negb (in_class k x)
  | Seq a b | Alt a b => avoids x a && avoids x b
  | Group _ r' => avoids x r'
  end.

(** What follows the span opened just before [s] by a mark [o] and closed by
    [c]: the text after the last [c] that comes before any further [o]. *)
Fixpoint close_at (o c : Z) (s : str) : option str :=
  match s with
  | [] => None
  | x :: s' =>
    if (x =? o)%Z then None
    else
      match close_at o c s' with
      | Some r => Some r
      | None => if (x =? c)%Z then Some s' else None
      end
  end.

(** The pattern of one style of quotes: the mark [o], the group [i] of a
    greedy run of characters other than [o], the mark [c]. *)
Definition quote_re (i : nat) (o c : Z) : re :=
  Seq (Cls (Class false [(o, o)]))
      (Seq (Group i (Star (Class true [(o, o)]))) (Cls (Class false [(c, c)]))).

(** The closing mark and the group number of the style opened by [x], among
    the styles [l] numbered from [i]. *)
Fixpoint style_of (l : list (Z * Z)) (i : nat) (x : Z) : option (nat * Z) :=
  match l with
  | [] => None
  | (o, c) :: l' => if (x =? o)%Z then Some (i, c) else style_of l' (S i) x
  end.

(** The alternation of the styles [l], groups numbered from [i]. *)
Fixpoint quotes_re (l : list (Z * Z)) (i : nat) : re :=
  match l with
  | [] => Cls (Class false [])
  | [(o, c)] => quote_re i o c
  | (o, c) :: l' => Alt (quote_re i o c) (quotes_re l' (S i))
  end.

(** The single-character alternative that opens both feature tables. *)
Definition first_class (r : re) : cclass :=
  match r with
  | Alt (Cls k) _ => k
  | _ => Class false []
  end.

End Lang.

(* ================================================================== *)
(** * Names for the steps of binary64 rounding *)

Module Rounding.
Import Py.
Local Open Scope Z_scope.

(** The shift [shr_fexp] applies to a mantissa and an exponent. *)
Definition sh (m e : Z) : Z := Z.max 0 (fexp prec emax (Zdigits2 m + e) - e).

(** What [binary_round_aux] builds from the rounded mantissa. *)
Definition build (s : bool) (m e : Z) : float :=
  match m with
  | Z0 => S754_zero s
  | Zpos p => if e <=? emax - prec then S754_finite s p e else S754_infinity s
  | Zneg _ => S754_nan
  end.

(** One more than [sys.maxsize], the longest a [str] can be. *)
Definition MAX_LEN : Z := 2 ^ 63.

(** A zero, or a finite float of magnitude below 2^900. *)
Definition small (t : float) : bool :=
  match t with
  | S754_zero _ => true
  | S754_finite _ m e => Zdigits2 (Zpos m) + e <=? 900
  | _ => false
  end.

Definition small_tolerances (cfg : Detector.CantoneseDetector) : bool :=
  small (Detector.canto_tolerance cfg) && small (Detector.swc_tolerance cfg).

Definition small_thresholds (cfg : Detector.CantoneseDetector) : bool :=
  small_tolerances cfg
  && small (Detector.canto_presence cfg) && small (Detector.swc_presence cfg).

End Rounding.
(* ================================================================== *)
(** * The specification's wording of the components *)

Module Spec.
Import Re Lang Tables Py Detector.
Local Open Scope Z_scope.

(** A computation of the detector seen from the specification, which has
    labels and no exceptions: the label when there is one. *)
Definition defined {A : Type} (x : result A) : option A :=
  match x with
  | Ok a => Some a
  | Raise _ => None
  end.

(** [floor(t × L)] and [ceil(t × L)] of sections 4.2 and 4.3. *)
Definition floor_of (t : float) (L : Z) : option Z :=
  defined (bind (mul_float_int t L) floor).
Definition ceil_of (t : float) (L : Z) : option Z :=
  defined (bind (mul_float_int t L) ceil).

(** [(a/total − b/total) > 0.9] of step 4. *)
Definition dominance (a b total : Z) : option bool :=
  match defined (int_truediv a total), defined (int_truediv b total) with
  | Some x, Some y => Some (fgt (fsub x y) f0_9)
  | _, _ => None
  end.

(** Section 4.2, steps 1 to 5, on the counts and the Han length. *)
Definition segment_judge (cfg : CantoneseDetector) (canto_count swc_count L : Z)
  : option Label :=
  match floor_of (canto_tolerance cfg) L, floor_of (swc_tolerance cfg) L with
  | Some tol_canto, Some tol_swc =>
    let lack_canto := canto_count <=? tol_canto in
    let lack_swc := swc_count <=? tol_swc in
    if (canto_count + swc_count =? 0) || (lack_canto && lack_swc) then Some Neutral
    else
      match ceil_of (canto_presence cfg) L, ceil_of (swc_presence cfg) L with
      | Some pres_canto, Some pres_swc =>
        let has_canto := canto_count >=? pres_canto in
        let has_swc := swc_count >=? pres_swc in
        let total := canto_count + swc_count in
        match dominance canto_count swc_count total,
              dominance swc_count canto_count total with
        | Some canto_pref, Some swc_pref =>
          Some (if canto_pref && negb has_swc then Cantonese
                else if swc_pref && negb has_canto then SWC
                else Mixed)
        | _, _ => None
        end
      | _, _ => None
      end
  | _, _ => None
  end.

(** A piece made of whitespace only, the empty piece included. *)
Definition whitespace_only (s : str) : bool := forallb isspace s.

Fixpoint all_defined {A : Type} (l : list (option A)) : option (list A) :=
  match l with
  | [] => Some []
  | Some a :: l' => option_map (cons a) (all_defined l')
  | None :: _ => None
  end.

Definition tally (l : list Label) (x : Label) : Z :=
  Z.of_nat (List.length (filter (label_eqb x) l)).

(** Section 4.3, steps 1 to 4. *)
Definition segment_aggregator (cfg : CantoneseDetector) (document : str)
  : option Label :=
  let pieces :=
    filter (fun p => negb (whitespace_only p)) (split ALL_DELIMITERS_RE document) in
  match all_defined (map (fun p => defined (_judge_single_segment cfg p)) pieces) with
  | Some labels =>
    match defined (bind (mul_float_int f0_95 (len labels)) ceil) with
    | Some threshold =>
      Some (if tally labels Neutral >=? threshold then Neutral
            else if tally labels Cantonese + tally labels Neutral >=? threshold
                 then Cantonese
            else if tally labels SWC + tally labels Neutral >=? threshold then SWC
            else Mixed)
    | None => None
    end
  | None => None
  end.

(** Section 4.5, step 2, as worded: the quoted content with the placeholder
    glyphs taken out. *)
Definition placeholder_stripped (quotes : str) : str :=
  filter (fun c => negb (existsb (Z.eqb c) ELLIPSIS)) quotes.

Definition whole_quote_judge (cfg : CantoneseDetector) (document : str)
  : result Label :=
  _judge_document cfg (placeholder_stripped (snd (_separate_quotes document))).

Definition whole_quote_as_worded (cfg : CantoneseDetector) (document : str) : Prop :=
  fst (_separate_quotes document) = ELLIPSIS ->
  _judge_matrix_quotes cfg document = whole_quote_judge cfg document.

(** Section 4.4: a pair of marks is a recognized style when the document made
    of the two marks alone is one quoted span with nothing inside. *)
Definition recognized (o c : Z) : Prop :=
  _separate_quotes [o; c] = (ELLIPSIS, []).

Definition four_styles : Prop :=
  exists l : list (Z * Z),
    List.length l = 4%nat /\ forall o c, recognized o c <-> In (o, c) l.

(** Non-greedy matching: a span opened by [o] is closed by the first [c]
    after it. *)
Definition non_greedy : Prop :=
  forall o c inner rest,
    recognized o c -> ~ In o inner -> ~ In c inner ->
    exists cs, match_at ALL_QUOTEMARKS_RE (o :: inner ++ c :: rest)
               = Some (o :: inner ++ [c], cs).

(** The five pairs of marks of [ALL_QUOTEMARKS_RE], opening mark first. *)
Definition quote_styles : list (Z * Z) :=
  [(12300, 12301); (8220, 8221); (12298, 12299); (12304, 12305); (12302, 12303)].

(** The text before the first occurrence of [o]. *)
Fixpoint before (o : Z) (s : str) : str :=
  match s with
  | [] => []
  | x :: s' => if x =? o then [] else x :: before o s'
  end.

(** No match of either feature table anywhere in the text. *)
Definition feature_free (s : str) : Prop :=
  findall CANTO_FEATURE_RE s = [] /\ findall SWC_FEATURE_RE s = [].

(** No part of the text is in the language of either feature table. *)
Definition clean (s : str) : Prop :=
  free CANTO_FEATURE_RE s /\ free SWC_FEATURE_RE s.

(** The implicit claim on feature-free input, as worded. *)
Definition neutral_as_worded (cfg : CantoneseDetector) (document : str) : Prop :=
  feature_free document -> judge cfg document = Ok Neutral.

(** The labels of the Segment Judge and of the Aggregator. *)
Definition first_four (l : Label) : Prop :=
  l = Neutral \/ l = Cantonese \/ l = SWC \/ l = Mixed.

(** The six labels. *)
Definition six_labels : list Label :=
  [Neutral; Cantonese; SWC; Mixed; CantoneseQuotesInSWC; MixedQuotesInSWC].

(** Totality of [judge], as worded. *)
Definition total_as_worded (cfg : CantoneseDetector) (document : str) : Prop :=
  exists l, judge cfg document = Ok l /\ In l six_labels.

(** The float [1e308]. *)
Definition f1e308 : float := S754_finite false 5010420900022432 971.

End Spec.

(* ================================================================== *)
(** * Counting characters and enumerating finite patterns *)

Module Count.
Import Re Tables.

(** The characters of [s] that are in the class [k]. *)
Definition count_in (k : cclass) (s : str) : nat :=
  List.length (filter (in_class k) s).

(** The number of matches among scanned pieces. *)
Fixpoint matched (ps : list piece) : nat :=
  match ps with
  | [] => 0
  | Unmatched _ :: ps' => matched ps'
  | Matched _ _ :: ps' => S (matched ps')
  end.

(** The longest text a pattern can match, when there is one. *)
Fixpoint maxlen (r : re) : option nat :=
  match r with
  | Eps => Some 0
  | Cls _ | Opt _ => Some 1
  | Star _ => None
  | Seq a b =>
    match maxlen a, maxlen b with
    | Some n, Some m => Some (n + m)
    | _, _ => None
    end
  | Alt a b =>
    match maxlen a, maxlen b with
    | Some n, Some m => Some (Nat.max n m)
    | _, _ => None
    end
  | Group _ r' => maxlen r'
  end.

(** What comes after the single-character alternative of a feature table. *)
Definition rest_of (r : re) : re :=
  match r with
  | Alt (Cls _) rest => rest
  | _ => Cls (Class false [])
  end.

(** The two classes of [ALL_HAN_RE]: a Han character, then an optional
    variation selector. *)
Definition HAN : cclass :=
  match ALL_HAN_RE with
  | Seq (Cls h) _ => h
  | _ => Class false []
  end.

Definition SELECTOR : cclass :=
  match ALL_HAN_RE with
  | Seq _ (Opt v) => v
  | _ => Class false []
  end.

(** Two classes given by ranges have no character in common. *)
Definition ranges_apart (h v : cclass) : bool :=
  negb (negated h) && negb (negated v)
  && forallb (fun ab => forallb (fun cd => (snd ab <? fst cd)%Z || (snd cd <? fst ab)%Z)
                                (ranges v)) (ranges h).

(** Every character of every text the pattern matches is in the class [f]. *)
Fixpoint inside (f : cclass) (r : re) : bool :=
  match r with
  | Eps => true
  | Cls k | Star k | Opt k => Lang.class_within f k
  | Seq a b | Alt a b => inside f a && inside f b
  | Group _ r' => inside f r'
  end.

(** A text without Han characters. *)
Definition han_free (s : str) : Prop :=
  Forall (fun x => in_class HAN x = false) s.

(** The float [1.0]. *)
Definition f1_0 : Py.float := S754_finite false 4503599627370496 (-52).

(** The characters of a class made of single characters. *)
Definition chars_of (k : cclass) : option (list Z) :=
  if negated k then None
  else if forallb (fun ab => (fst ab =? snd ab)%Z) (ranges k)
       then Some (map fst (ranges k))
       else None.

(** The texts a pattern matches, for a pattern without [*] whose classes
    are made of single characters. *)
Fixpoint words (r : re) : option (list str) :=
  match r with
  | Eps => Some [[]]
  | Cls k => option_map (map (fun x => [x])) (chars_of k)
  | Opt k => option_map (fun l => [] :: map (fun x => [x]) l) (chars_of k)
  | Star _ => None
  | Seq a b =>
    match words a, words b with
    | Some la, Some lb =>
      Some (flat_map (fun u => map (fun v => u ++ v) lb) la)
    | _, _ => None
    end
  | Alt a b =>
    match words a, words b with
    | Some la, Some lb => Some (la ++ lb)
    | _, _ => None
    end
  | Group _ r' => words r'
  end.

Definition words_or_nil (r : re) : list str :=
  match words r with Some l => l | None => [] end.

End Count.

(* ================================================================== *)
(** * The parts of [_judge_segments] *)

Module Aggregate.
Import Re Tables Py Detector.
Local Open Scope Z_scope.

(** The class of [ALL_DELIMITERS_RE]. *)
Definition DELIMITER : cclass :=
  match ALL_DELIMITERS_RE with
  | Cls k => k
  | _ => Class false []
  end.

(** The local [segments] of [_judge_segments]: the pieces between delimiters
    that are not blank. *)
Definition segments (document : str) : list str :=
  filter (fun x => truthy (strip x)) (split ALL_DELIMITERS_RE document).

(** The decision [_judge_segments] takes from the judgements and the
    threshold. *)
Definition decide (js : list Label) (threshold : Z) : Label :=
  if Spec.tally js Neutral >=? threshold then Neutral
  else if Spec.tally js Cantonese + Spec.tally js Neutral >=? threshold
       then Cantonese
  else if Spec.tally js SWC + Spec.tally js Neutral >=? threshold then SWC
  else Mixed.

(** The same decision told by the judgements that dissent: with [n]
    judgements, [n / 20] of them, rounded down, may. *)
Definition tolerant (js : list Label) : Label :=
  let slack := len js / 20 in
  if len js - Spec.tally js Neutral <=? slack then Neutral
  else if Spec.tally js SWC + Spec.tally js Mixed <=? slack then Cantonese
  else if Spec.tally js Cantonese + Spec.tally js Mixed <=? slack then SWC
  else Mixed.

End Aggregate.

(* ================================================================== *)
(** * [cantonesedetect/cli.py] *)

Module Cli.
Import Py Detector.
Local Open Scope py_scope.
Local Open Scope string_scope.

(** The judgements as the strings they are. *)
Definition label_str (l : Label) : str :=
  match l with
  | Neutral => Utf8.text "Neutral"
  | Cantonese => Utf8.text "Cantonese"
  | SWC => Utf8.text "SWC"
  | Mixed => Utf8.text "Mixed"
  | CantoneseQuotesInSWC => Utf8.text "CantoneseQuotesInSWC"
  | MixedQuotesInSWC => Utf8.text "MixedQuotesInSWC"
  end.

(** The body of the loop of [main]: what is written for one line of the
    input. *)
Definition write_line (detector : CantoneseDetector) (mode : str) (line : str)
  : result str :=
  let l := strip line in
  judgement <- judge detector l ;;
  let _line := label_str judgement in
  let _line :=
    if str_eqb mode (Utf8.text "full") then (_line ++ 9%Z :: l)%list else _line in
  Ok (_line ++ [10%Z])%list.

(** The loop over the lines of the input: what has been written to the
    standard output when it ends, and the exception that ended it, if any. *)
Fixpoint main_loop (detector : CantoneseDetector) (mode : str)
         (lines : list str) (stdout : str) : str * option exn :=
  match lines with
  | [] => (stdout, None)
  | line :: rest =>
    match write_line detector mode line with
    | Ok w => main_loop detector mode rest (stdout ++ w)%list
    | Raise e => (stdout, Some e)
    end
  end.

(** [main] with the arguments [--split], [--quotes] and [--mode] parsed and
    the lines of the input file read. *)
Definition main (split quotes : bool) (mode : str) (lines : list str)
  : str * option exn :=
  main_loop (default_detector split quotes) mode lines [].

End Cli.

(* ================================================================== *)
(** * [tests/test_judge.py]: the loader of the test sentences *)

Module TestJudge.
Import Py.
Local Open Scope Z_scope.

Definition BAR : Z := 124.


(** [line.split('|')]. *)
Fixpoint split_bar (line : str) : list str :=
  match line with
  | [] => [[]]
  | c :: rest =>
    if c =? BAR then [] :: split_bar rest
    else
      match split_bar rest with
      | field :: fields => (c :: field) :: fields
      | [] => [[c]]
      end
  end.




(** A field of a test case: no bar inside. *)
Definition field (s : str) : Prop := ~ In BAR s.


End TestJudge.

(* ================================================================== *)
(** * Facts about the Python operations *)

Module PyFacts.
Import Py.

Lemma bind_assoc {A B C : Type} (x : result A) (f : A -> result B) (g : B -> result C) :
  bind (bind x f) g = bind x (fun a => bind (f a) g).
Proof. destruct x; reflexivity. Qed.

(** The literals are the correctly rounded quotients 9/10, 95/100, 1/100 and
    3/100. *)
Lemma literals_nearest :
  int_truediv 9 10 = Ok f0_9 /\ int_truediv 95 100 = Ok f0_95
  /\ int_truediv 1 100 = Ok f0_01 /\ int_truediv 3 100 = Ok f0_03.
Proof. repeat split; vm_compute; reflexivity. Qed.

Lemma f1e308_nearest : float_of_int (10 ^ 308) = Ok Spec.f1e308.
Proof. vm_compute. reflexivity. Qed.

Lemma fmul_comm (x y : float) : fmul x y = fmul y x.
Proof.
  unfold fmul.
  destruct x as [sx|sx| |sx mx ex], y as [sy|sy| |sy my ey]; simpl;
    try rewrite (xorb_comm sx sy); try reflexivity.
  rewrite (Pos.mul_comm mx my), (Z.add_comm ex ey). reflexivity.
Qed.

Lemma mul_int_float_comm (n : Z) (x : float) :
  mul_int_float n x = mul_float_int x n.
Proof.
  unfold mul_int_float, mul_float_int.
  destruct (float_of_int n); simpl; [rewrite fmul_comm|]; reflexivity.
Qed.

(** Only [/] raises [ZeroDivisionError], and only on a zero divisor. *)
Lemma floor_no_zdiv (x : float) : floor x <> Raise ZeroDivisionError.
Proof. destruct x; discriminate. Qed.

Lemma ceil_no_zdiv (x : float) : ceil x <> Raise ZeroDivisionError.
Proof. destruct x; discriminate. Qed.

Lemma mul_float_int_no_zdiv (x : float) (n : Z) :
  mul_float_int x n <> Raise ZeroDivisionError.
Proof.
  unfold mul_float_int, float_of_int.
  destruct (binary_normalize prec emax n 0 false); discriminate.
Qed.

Lemma int_truediv_no_zdiv (a b : Z) :
  b <> 0%Z -> int_truediv a b <> Raise ZeroDivisionError.
Proof.
  intros Hb. unfold int_truediv.
  destruct (Z.eqb_spec b 0); [contradiction|].
  destruct (SFdiv prec emax (exact a) (exact b)); discriminate.
Qed.

Lemma bind_no_zdiv {A B : Type} (x : result A) (f : A -> result B) :
  x <> Raise ZeroDivisionError ->
  (forall a, x = Ok a -> f a <> Raise ZeroDivisionError) ->
  bind x f <> Raise ZeroDivisionError.
Proof.
  destruct x as [a|e]; simpl; intros Hx Hf; [apply Hf; reflexivity|].
  intros E. apply Hx. injection E as ->. reflexivity.
Qed.

(** [x.strip()] is non-empty exactly when [x] has a non-blank character. *)
Lemma truthy_rev (s : str) : truthy (rev s) = truthy s.
Proof.
  destruct s as [|c s]; [reflexivity|]. simpl.
  destruct (rev s ++ [c]) eqn:E; [|reflexivity].
  destruct (rev s); discriminate E.
Qed.

Lemma truthy_lstrip (s : str) : truthy (lstrip s) = negb (forallb isspace s).
Proof.
  induction s as [|c s IH]; [reflexivity|]. simpl.
  destruct (isspace c); [exact IH|reflexivity].
Qed.

Lemma forallb_lstrip (s : str) : forallb isspace (lstrip s) = forallb isspace s.
Proof.
  induction s as [|c s IH]; [reflexivity|]. simpl.
  destruct (isspace c) eqn:E; [exact IH|]. simpl. rewrite E. reflexivity.
Qed.

Lemma forallb_rev {A : Type} (p : A -> bool) (l : list A) :
  forallb p (rev l) = forallb p l.
Proof.
  induction l as [|a l IH]; [reflexivity|]. simpl.
  rewrite forallb_app, IH. simpl. rewrite andb_true_r. apply andb_comm.
Qed.

Lemma truthy_strip (s : str) : truthy (strip s) = negb (forallb isspace s).
Proof.
  unfold strip. rewrite truthy_rev, truthy_lstrip, forallb_rev, forallb_lstrip.
  reflexivity.
Qed.

(** [Counter]: the count of a key is the number of its occurrences, and the
    counts add up to the number of items counted. *)
Section CounterFacts.
Variable K : Type.
Variable eqb : K -> K -> bool.
Hypothesis eqb_eq : forall a b, eqb a b = true <-> a = b.

Lemma get_incr (c : Counter K) (x k : K) :
  get eqb (incr eqb c x) k = if eqb x k then S (get eqb c k) else get eqb c k.
Proof.
  induction c as [|[k' n] c IH]; simpl.
  - reflexivity.
  - destruct (eqb k' x) eqn:E1; simpl.
    + apply eqb_eq in E1. subst k'. destruct (eqb x k); reflexivity.
    + destruct (eqb k' k) eqn:E2; [|exact IH].
      apply eqb_eq in E2. subst k'. rewrite (proj1 (not_true_iff_false _)); [reflexivity|].
      intros E3. apply eqb_eq in E3. subst x.
      rewrite (proj2 (eqb_eq k k) eq_refl) in E1. discriminate.
Qed.

Lemma total_incr (c : Counter K) (x : K) : total (incr eqb c x) = S (total c).
Proof.
  induction c as [|[k' n] c IH]; simpl; [reflexivity|].
  destruct (eqb k' x); simpl; [reflexivity|]. rewrite IH. lia.
Qed.

Lemma get_fold (l : list K) (c : Counter K) (k : K) :
  get eqb (fold_left (incr eqb) l c) k
  = (get eqb c k + List.length (filter (fun x => eqb x k) l))%nat.
Proof.
  revert c. induction l as [|x l IH]; intros c; simpl; [lia|].
  rewrite IH, get_incr. destruct (eqb x k); simpl; lia.
Qed.

Lemma total_fold (l : list K) (c : Counter K) :
  total (fold_left (incr eqb) l c) = (total c + List.length l)%nat.
Proof.
  revert c. induction l as [|x l IH]; intros c; simpl; [lia|].
  rewrite IH, total_incr. lia.
Qed.

Lemma get_count_all (l : list K) (k : K) :
  get eqb (count_all eqb l) k = List.length (filter (fun x => eqb x k) l).
Proof. unfold count_all. rewrite get_fold. reflexivity. Qed.

Lemma total_count_all (l : list K) : total (count_all eqb l) = List.length l.
Proof. unfold count_all. rewrite total_fold. reflexivity. Qed.

End CounterFacts.

End PyFacts.

(* ================================================================== *)
(** * Facts about the scanner *)

Module ScanFacts.
Import Re.

(** A scan that records no match leaves every character alone. *)
Lemma scan_no_match (r : re) (s : str) :
  matches_of r (scan r 0 s) = [] -> scan r 0 s = map Unmatched s.
Proof.
  induction s as [|c s IH]; simpl; [reflexivity|].
  destruct (match_at r (c :: s)) as [[text cs]|].
  - destruct (List.length text); simpl; [|discriminate].
    intros H. rewrite (IH H). reflexivity.
  - simpl. intros H. rewrite (IH H). reflexivity.
Qed.

Lemma replace_unmatched (repl s : str) : replace repl (map Unmatched s) = s.
Proof. induction s as [|c s IH]; simpl; [|rewrite IH]; reflexivity. Qed.

End ScanFacts.


(* ================================================================== *)
(** * The matcher against the language of the pattern *)

Module ReFacts.
Import Re Lang.

Lemma consumed_app (w s : str) : consumed (w ++ s) s = w.
Proof.
  unfold consumed. rewrite length_app.
  replace (List.length w + List.length s - List.length s)%nat
    with (List.length w) by lia.
  rewrite firstn_app, firstn_all, Nat.sub_diag. simpl. apply app_nil_r.
Qed.

Section Matcher.
Context {A : Type}.

Lemma star_sound (c : cclass) (k : str -> option A) (s : str) (v : A) :
  star c k s = Some v ->
  exists w s', s = w ++ s' /\ lang (Star c) w /\ k s' = Some v.
Proof.
  induction s as [|x s IH]; simpl.
  - intros H. exists [], []. repeat split; [constructor|exact H].
  - destruct (in_class c x) eqn:E.
    + destruct (star c k s) as [v'|] eqn:E'.
      * intros H. injection H as <-.
        destruct (IH eq_refl) as (w & s' & -> & Hw & Hk).
        exists (x :: w), s'. repeat split; [constructor; assumption|exact Hk].
      * intros H. exists [], (x :: s). repeat split; [constructor|exact H].
    + intros H. exists [], (x :: s). repeat split; [constructor|exact H].
Qed.

Lemma run_sound (r : re) :
  forall (s : str) (cs : caps) (k : str -> caps -> option A) (v : A),
    run r s cs k = Some v ->
    exists w s' cs', s = w ++ s' /\ lang r w /\ k s' cs' = Some v.
Proof.
  induction r as [|c|a IHa b IHb|a IHa b IHb|c|c|i r IH]; intros s cs k v; simpl.
  - intros H. exists [], s, cs. repeat split. exact H.
  - destruct s as [|x s]; [discriminate|].
    destruct (in_class c x) eqn:E; [|discriminate].
    intros H. exists [x], s, cs. repeat split; [|exact H].
    exists x. split; [reflexivity|exact E].
  - intros H. apply IHa in H. destruct H as (u & s1 & cs1 & -> & Hu & H).
    apply IHb in H. destruct H as (w & s2 & cs2 & -> & Hw & H).
    exists (u ++ w), s2, cs2. rewrite app_assoc. repeat split; [|exact H].
    exists u, w. repeat split; assumption.
  - destruct (run a s cs k) as [v'|] eqn:E.
    + intros H. injection H as <-. apply IHa in E.
      destruct E as (w & s' & cs' & -> & Hw & H).
      exists w, s', cs'. repeat split; [left; exact Hw|exact H].
    + intros H. apply IHb in H. destruct H as (w & s' & cs' & -> & Hw & H).
      exists w, s', cs'. repeat split; [right; exact Hw|exact H].
  - intros H. apply star_sound in H. destruct H as (w & s' & -> & Hw & H).
    exists w, s', cs. repeat split; assumption.
  - destruct s as [|x s].
    + intros H. exists [], [], cs. repeat split; [left; reflexivity|exact H].
    + destruct (in_class c x) eqn:E.
      * destruct (k s cs) as [v'|] eqn:E'.
        -- intros H. injection H as <-. exists [x], s, cs.
           repeat split; [|exact E']. right. exists x. split; [reflexivity|exact E].
        -- intros H. exists [], (x :: s), cs.
           repeat split; [left; reflexivity|exact H].
      * intros H. exists [], (x :: s), cs.
        repeat split; [left; reflexivity|exact H].
  - intros H. apply IH in H. destruct H as (w & s' & cs' & -> & Hw & H).
    exists w, s', ((i, consumed (w ++ s') s') :: cs'). repeat split; assumption.
Qed.

Lemma star_complete (c : cclass) (k : str -> option A) (w s' : str) :
  lang (Star c) w -> k s' <> None -> star c k (w ++ s') <> None.
Proof.
  intros Hw Hk. induction w as [|x w IH]; simpl.
  - destruct s' as [|y s']; simpl; [exact Hk|].
    destruct (in_class c y); [|exact Hk].
    destruct (star c k s'); [discriminate|exact Hk].
  - simpl in Hw. inversion Hw as [|? ? Hx Hw']; subst.
    rewrite Hx. specialize (IH Hw').
    destruct (star c k (w ++ s')); [discriminate|contradiction].
Qed.

Lemma run_complete (r : re) :
  forall (w s' : str) (cs : caps) (k : str -> caps -> option A),
    lang r w -> (forall cs', k s' cs' <> None) -> run r (w ++ s') cs k <> None.
Proof.
  induction r as [|c|a IHa b IHb|a IHa b IHb|c|c|i r IH]; intros w s' cs k; simpl.
  - intros -> Hk. apply Hk.
  - intros (x & -> & Hx) Hk. simpl. rewrite Hx. apply Hk.
  - intros (u & v & -> & Hu & Hv) Hk. rewrite <- app_assoc.
    apply IHa; [exact Hu|]. intros cs'. apply IHb; assumption.
  - intros [Hw|Hw] Hk.
    + specialize (IHa _ s' cs _ Hw Hk).
      destruct (run a (w ++ s') cs k); [discriminate|contradiction].
    + destruct (run a (w ++ s') cs k); [discriminate|]. apply IHb; assumption.
  - intros Hw Hk. apply star_complete; [exact Hw|apply Hk].
  - intros [->|(x & -> & Hx)] Hk; simpl.
    + destruct s' as [|y s']; [apply Hk|].
      destruct (in_class c y); [|apply Hk].
      destruct (k s' cs); [discriminate|apply Hk].
    + rewrite Hx. destruct (k s' cs) eqn:E; [discriminate|].
      exfalso. exact (Hk cs E).
  - intros Hw Hk. apply IH; [exact Hw|]. intros cs'. apply Hk.
Qed.

End Matcher.

(** A match is a text of the language at the head of the subject; a text of
    the language at the head of the subject makes the matcher succeed. *)
Lemma match_at_sound (r : re) (s text : str) (cs : caps) :
  match_at r s = Some (text, cs) -> exists s', s = text ++ s' /\ lang r text.
Proof.
  unfold match_at. intros H. apply run_sound in H.
  destruct H as (w & s' & cs' & -> & Hw & H).
  rewrite consumed_app in H. injection H as <- _. exists s'. split; [reflexivity|exact Hw].
Qed.

Lemma match_at_complete (r : re) (w s' : str) :
  lang r w -> match_at r (w ++ s') <> None.
Proof.
  intros Hw. unfold match_at. apply run_complete; [exact Hw|]. discriminate.
Qed.

Lemma nullable_lang (r : re) (w : str) :
  nullable r = false -> lang r w -> w <> [].
Proof.
  revert w. induction r as [|c|a IHa b IHb|a IHa b IHb|c|c|i r IH];
    simpl; intros w Hn Hw; try discriminate.
  - destruct Hw as (x & -> & _). discriminate.
  - destruct Hw as (u & v & -> & Hu & Hv).
    apply andb_false_iff in Hn. intros E. apply app_eq_nil in E. destruct E as [-> ->].
    destruct Hn as [Hn|Hn]; [exact (IHa _ Hn Hu eq_refl)|exact (IHb _ Hn Hv eq_refl)].
  - apply orb_false_iff in Hn. destruct Hn as [Ha Hb].
    destruct Hw as [Hw|Hw]; [exact (IHa _ Ha Hw)|exact (IHb _ Hb Hw)].
  - exact (IH _ Hn Hw).
Qed.

(** ** The scanner *)

Lemma free_tail (r : re) (c : Z) (s : str) : free r (c :: s) -> free r s.
Proof. intros H u w v E. apply (H (c :: u) w v). rewrite E. reflexivity. Qed.

(** For a pattern that does not match the empty text, [findall] is empty
    exactly on the subjects no part of which is in the language. *)
Lemma scan_free (r : re) (s : str) :
  free r s -> scan r 0 s = map Unmatched s.
Proof.
  induction s as [|c s IH]; intros Hf; simpl; [reflexivity|].
  destruct (match_at r (c :: s)) as [[text cs]|] eqn:E.
  - apply match_at_sound in E. destruct E as (s' & E & Hw).
    exfalso. apply (Hf [] text s'); [exact E|exact Hw].
  - rewrite (IH (free_tail Hf)). reflexivity.
Qed.

Lemma matches_of_unmatched (r : re) (s : str) : matches_of r (map Unmatched s) = [].
Proof. induction s as [|c s IH]; simpl; [reflexivity|exact IH]. Qed.

Lemma free_findall (r : re) (s : str) : free r s -> findall r s = [].
Proof.
  intros H. unfold findall. rewrite (scan_free H). apply matches_of_unmatched.
Qed.

Lemma findall_free (r : re) (s : str) :
  nullable r = false -> findall r s = [] -> free r s.
Proof.
  intros Hn. unfold findall. induction s as [|c s IH]; simpl.
  - intros _ u w v E Hw. symmetry in E. apply app_eq_nil in E. destruct E as [_ E].
    apply app_eq_nil in E. destruct E as [-> _].
    exact (nullable_lang _ Hn Hw eq_refl).
  - destruct (match_at r (c :: s)) as [[text cs]|] eqn:E.
    + pose proof (match_at_sound _ _ E) as (s' & E' & Hw).
      destruct text as [|x text]; [exfalso; exact (nullable_lang _ Hn Hw eq_refl)|].
      simpl. discriminate.
    + simpl. intros H u w v E' Hw.
      destruct u as [|y u].
      * simpl in E'. apply (match_at_complete r w v Hw). rewrite <- E'. exact E.
      * simpl in E'. injection E' as _ E'. exact (IH H u w v E' Hw).
Qed.

End ReFacts.

(* ================================================================== *)
(** * The quote pattern *)

Module QuoteFacts.
Import Re Lang ReFacts Tables Py Detector Spec.
Local Open Scope Z_scope.

Lemma in_class_one (a x : Z) : in_class (Class false [(a, a)]) x = (x =? a).
Proof.
  unfold in_class, in_ranges. simpl.
  destruct (Z.eqb_spec x a), (Z.leb_spec a x), (Z.leb_spec x a);
    simpl; try reflexivity; lia.
Qed.

Lemma in_class_not_one (a x : Z) : in_class (Class true [(a, a)]) x = negb (x =? a).
Proof.
  unfold in_class, in_ranges. simpl.
  destruct (Z.eqb_spec x a), (Z.leb_spec a x), (Z.leb_spec x a);
    simpl; try reflexivity; lia.
Qed.

(** ** Where a span closes *)

Lemma close_at_none (o c : Z) (s : str) :
  close_at o c s = None <-> ~ In c (before o s).
Proof.
  induction s as [|x s IH]; simpl.
  - split; [intros _ []|reflexivity].
  - destruct (Z.eqb_spec x o) as [->|Hxo]; [split; [intros _ []|reflexivity]|].
    destruct (close_at o c s) as [r|].
    + split; [discriminate|]. intros H. exfalso. apply H. right.
      destruct (in_dec Z.eq_dec c (before o s)) as [Hin|Hin]; [exact Hin|].
      apply IH in Hin. discriminate.
    + destruct (Z.eqb_spec x c) as [->|Hxc].
      * split; [discriminate|]. intros H. exfalso. apply H. left. reflexivity.
      * split; [|reflexivity]. intros _ [E|Hin]; [exact (Hxc E)|].
        apply (proj1 IH); [reflexivity|exact Hin].
Qed.

Lemma close_at_sound (o c : Z) (s r : str) :
  close_at o c s = Some r ->
  exists inner, s = inner ++ c :: r /\ ~ In o inner /\ ~ In c (before o r).
Proof.
  revert r. induction s as [|x s IH]; simpl; intros r; [discriminate|].
  destruct (Z.eqb_spec x o) as [->|Hxo]; [discriminate|].
  destruct (close_at o c s) as [r'|] eqn:E.
  - intros H. injection H as <-. destruct (IH _ eq_refl) as (inner & -> & Ho & Hc).
    exists (x :: inner). repeat split; [|exact Hc].
    intros [E'|Hin]; [exact (Hxo E')|exact (Ho Hin)].
  - destruct (Z.eqb_spec x c) as [->|Hxc]; [|discriminate].
    intros H. injection H as <-. exists []. repeat split; [intros []|].
    apply close_at_none. exact E.
Qed.

Lemma close_at_complete (o c : Z) (inner r : str) :
  o <> c -> ~ In o inner -> ~ In c (before o r) ->
  close_at o c (inner ++ c :: r) = Some r.
Proof.
  intros Hoc Ho Hc. induction inner as [|x inner IH]; simpl.
  - destruct (Z.eqb_spec c o) as [E|_]; [symmetry in E; contradiction|].
    rewrite (proj2 (close_at_none o c r) Hc), Z.eqb_refl. reflexivity.
  - destruct (Z.eqb_spec x o) as [->|_]; [exfalso; apply Ho; left; reflexivity|].
    rewrite IH; [reflexivity|]. intros Hin. apply Ho. right. exact Hin.
Qed.

(** ** The matcher on one style and on the five *)

Section OneStyle.
Context {A : Type}.
Variables (o c : Z).
Hypothesis Hoc : o <> c.

Lemma star_close (K : str -> str -> option A) (t : str) :
  (forall s1 s2, K s1 s2 <> None) ->
  star (Class true [(o, o)])
       (fun s1 => match s1 with
                  | y :: s2 =>
                    if in_class (Class false [(c, c)]) y then K s1 s2 else None
                  | [] => None
                  end) t
  = match close_at o c t with
    | Some r => K (c :: r) r
    | None => None
    end.
Proof.
  intros HK. induction t as [|x t IH]; simpl; [reflexivity|].
  rewrite in_class_not_one, in_class_one.
  destruct (Z.eqb_spec x o) as [->|Hxo]; simpl.
  - destruct (Z.eqb_spec o c); [contradiction|reflexivity].
  - rewrite IH. destruct (close_at o c t) as [r|].
    + destruct (K (c :: r) r) eqn:E; [reflexivity|]. exfalso. exact (HK _ _ E).
    + destruct (Z.eqb_spec x c) as [->|_]; reflexivity.
Qed.

Lemma run_quote_re (i : nat) (s : str) (cs : caps) (k : str -> caps -> option A) :
  (forall s' cs', k s' cs' <> None) ->
  run (quote_re i o c) s cs k
  = match s with
    | [] => None
    | x :: s' =>
      if x =? o then
        match close_at o c s' with
        | Some r => k r ((i, consumed s' (c :: r)) :: cs)
        | None => None
        end
      else None
    end.
Proof.
  intros Hk. destruct s as [|x s']; [reflexivity|].
  unfold quote_re. cbn [run]. rewrite in_class_one.
  destruct (x =? o); [|reflexivity].
  apply (star_close (fun s1 s2 => k s2 ((i, consumed s' s1) :: cs))).
  intros s1 s2. apply Hk.
Qed.

End OneStyle.

Lemma ALL_QUOTEMARKS_RE_styles : ALL_QUOTEMARKS_RE = quotes_re quote_styles 1.
Proof. reflexivity. Qed.

Lemma style_of_none (l : list (Z * Z)) (i : nat) (x : Z) :
  ~ In x (map fst l) -> style_of l i x = None.
Proof.
  revert i. induction l as [|[o c] l IH]; intros i H; simpl; [reflexivity|].
  destruct (Z.eqb_spec x o) as [->|_]; [exfalso; apply H; left; reflexivity|].
  apply IH. intros Hin. apply H. right. exact Hin.
Qed.

Lemma style_of_in (l : list (Z * Z)) (i : nat) (x : Z) (j : nat) (c : Z) :
  style_of l i x = Some (j, c) -> In (x, c) l.
Proof.
  revert i. induction l as [|[o c'] l IH]; intros i; simpl; [discriminate|].
  destruct (Z.eqb_spec x o) as [->|_].
  - intros H. injection H as _ ->. left. reflexivity.
  - intros H. right. exact (IH _ H).
Qed.

Lemma in_style_of (l : list (Z * Z)) (i : nat) (o c : Z) :
  NoDup (map fst l) -> In (o, c) l -> exists j, style_of l i o = Some (j, c).
Proof.
  revert i. induction l as [|[o' c'] l IH]; intros i Hnd Hin; [destruct Hin|].
  simpl. inversion Hnd as [|? ? Hnot Hnd']; subst.
  destruct Hin as [E|Hin].
  - injection E as -> ->. rewrite Z.eqb_refl. exists i. reflexivity.
  - destruct (Z.eqb_spec o o') as [->|_]; [|exact (IH _ Hnd' Hin)].
    exfalso. apply Hnot. apply (in_map fst) in Hin. exact Hin.
Qed.

Lemma run_quotes_re {A : Type} (l : list (Z * Z)) :
  forall (i : nat) (s : str) (cs : caps) (k : str -> caps -> option A),
    Forall (fun oc => fst oc <> snd oc) l ->
    NoDup (map fst l) ->
    (forall s' cs', k s' cs' <> None) ->
    run (quotes_re l i) s cs k
    = match s with
      | [] => None
      | x :: s' =>
        match style_of l i x with
        | Some (j, c) =>
          match close_at x c s' with
          | Some r => k r ((j, consumed s' (c :: r)) :: cs)
          | None => None
          end
        | None => None
        end
      end.
Proof.
  induction l as [|[o c] l IH]; intros i s cs k Hl Hnd Hk.
  - simpl. destruct s as [|x s']; reflexivity.
  - inversion Hl as [|? ? Hoc Hl']; subst. simpl in Hoc.
    inversion Hnd as [|? ? Hnot Hnd']; subst.
    pose proof (run_quote_re Hoc i s cs k Hk) as H1.
    destruct l as [|oc' l'].
    + simpl quotes_re. rewrite H1. destruct s as [|x s']; [reflexivity|].
      simpl. destruct (Z.eqb_spec x o) as [->|_]; reflexivity.
    + change (quotes_re ((o, c) :: oc' :: l') i)
        with (Alt (quote_re i o c) (quotes_re (oc' :: l') (S i))).
      cbn [run]. rewrite H1, (IH (S i) s cs k Hl' Hnd' Hk).
      destruct s as [|x s']; [reflexivity|].
      change (style_of ((o, c) :: oc' :: l') i x)
        with (if x =? o then Some (i, c) else style_of (oc' :: l') (S i) x).
      destruct (Z.eqb_spec x o) as [->|Hxo]; [|reflexivity].
      rewrite (@style_of_none (oc' :: l') (S i) o Hnot).
      destruct (close_at o c s') as [r|] eqn:E; [|reflexivity].
      destruct (k r ((i, consumed s' (c :: r)) :: cs)) eqn:E'; [reflexivity|].
      exfalso. exact (Hk _ _ E').
Qed.

Lemma quote_styles_wf :
  Forall (fun oc => fst oc <> snd oc) quote_styles /\ NoDup (map fst quote_styles).
Proof.
  split.
  - repeat constructor; simpl; discriminate.
  - repeat constructor; simpl; intros H;
      repeat (destruct H as [H|H]; [discriminate H|]); exact H.
Qed.

(** The match of the quote pattern at the head of a text: the head must open
    a style, and the span runs to the last closing mark of that style found
    before any further opening mark of it. *)
Lemma match_at_quotes (s : str) :
  match_at ALL_QUOTEMARKS_RE s
  = match s with
    | [] => None
    | x :: s' =>
      match style_of quote_styles 1 x with
      | Some (j, c) =>
        match close_at x c s' with
        | Some r => Some (consumed s r, [(j, consumed s' (c :: r))])
        | None => None
        end
      | None => None
      end
    end.
Proof.
  unfold match_at. rewrite ALL_QUOTEMARKS_RE_styles.
  rewrite run_quotes_re;
    [|apply quote_styles_wf|apply quote_styles_wf|discriminate].
  destruct s as [|x s']; reflexivity.
Qed.

Lemma style_of_index (x : Z) (j : nat) (c : Z) :
  style_of quote_styles 1 x = Some (j, c) ->
  (j = 1 \/ j = 2 \/ j = 3 \/ j = 4 \/ j = 5)%nat.
Proof.
  simpl.
  repeat (destruct (x =? _); [intros H; injection H as <- _; tauto|]).
  discriminate.
Qed.

(** The shape of every match and the value [findall] reports for it. *)
Lemma match_at_quotes_shape (s text : str) (cs : caps) :
  match_at ALL_QUOTEMARKS_RE s = Some (text, cs) ->
  exists o c inner r,
    In (o, c) quote_styles /\ s = o :: inner ++ c :: r
    /\ text = o :: inner ++ [c] /\ ~ In o inner /\ ~ In c (before o r)
    /\ join [] (match_value ALL_QUOTEMARKS_RE text cs) = inner.
Proof.
  rewrite match_at_quotes. destruct s as [|x s']; [discriminate|].
  destruct (style_of quote_styles 1 x) as [[j c]|] eqn:Es; [|discriminate].
  destruct (close_at x c s') as [r|] eqn:Ec; [|discriminate].
  intros H. injection H as <- <-.
  destruct (close_at_sound _ _ _ Ec) as (inner & -> & Ho & Hc).
  exists x, c, inner, r.
  split; [eapply style_of_in; exact Es|]. split; [reflexivity|].
  split.
  { change (x :: inner ++ c :: r) with ((x :: inner) ++ c :: r).
    replace ((x :: inner) ++ c :: r) with (((x :: inner) ++ [c]) ++ r)
      by (rewrite <- app_assoc; reflexivity).
    rewrite consumed_app. reflexivity. }
  split; [exact Ho|]. split; [exact Hc|].
  rewrite consumed_app.
  pose proof Es as Hj. apply style_of_index in Hj.
  destruct Hj as [-> | [-> | [-> | [-> | ->]]]];
    cbn; rewrite ?app_nil_r; reflexivity.
Qed.

End QuoteFacts.

(* ================================================================== *)
(** * The Quote Separator and the whole-quote path of the Reconciler *)

Module SeparatorFacts.
Import Re Lang ReFacts Tables Py Detector Spec QuoteFacts.
Local Open Scope Z_scope.

Lemma scan_skip_all (r : re) (s : str) : scan r (List.length s) s = [].
Proof. induction s as [|c s IH]; simpl; [reflexivity|exact IH]. Qed.

Lemma match_at_span (o c : Z) (inner rest : str) :
  In (o, c) quote_styles -> ~ In o inner -> ~ In c (before o rest) ->
  exists j, match_at ALL_QUOTEMARKS_RE (o :: inner ++ c :: rest)
            = Some (o :: inner ++ [c], [(j, inner)]).
Proof.
  intros Hin Ho Hc. rewrite match_at_quotes.
  destruct (@in_style_of quote_styles 1%nat o c (proj2 quote_styles_wf) Hin) as (j & ->).
  assert (Hoc : o <> c).
  { pose proof (proj1 quote_styles_wf) as HF. rewrite Forall_forall in HF.
    exact (HF _ Hin). }
  rewrite (@close_at_complete o c inner rest Hoc Ho Hc). exists j.
  rewrite consumed_app.
  change (o :: inner ++ c :: rest) with ((o :: inner) ++ c :: rest).
  replace ((o :: inner) ++ c :: rest) with (((o :: inner) ++ [c]) ++ rest)
    by (rewrite <- app_assoc; reflexivity).
  rewrite consumed_app. reflexivity.
Qed.

(** A document that is one quoted span: the matrix is the placeholder and the
    quotes are what is inside the span. *)
Lemma separate_whole_span (o c : Z) (inner : str) :
  In (o, c) quote_styles -> ~ In o inner ->
  _separate_quotes (o :: inner ++ [c]) = (ELLIPSIS, inner).
Proof.
  intros Hin Ho.
  destruct (@match_at_span o c inner [] Hin Ho) as (j & E); [intros []|].
  pose proof (@match_at_quotes_shape _ _ _ E) as (o' & c' & inner' & r' & _ & _ & E' & _ & _ & Hv).
  injection E' as _ E'.
  apply app_inj_tail in E'. destruct E' as [<- _].
  unfold _separate_quotes, sub, findall.
  cbn [scan]. rewrite E. cbn [List.length].
  rewrite length_app. cbn [List.length].
  replace (List.length inner + 1)%nat with (S (List.length inner)) by lia.
  replace (S (List.length inner)) with (List.length (inner ++ [c]))
    by (rewrite length_app; simpl; lia).
  rewrite scan_skip_all. cbn [replace matches_of map join].
  rewrite Hv. reflexivity.
Qed.

Lemma recognized_iff (o c : Z) : recognized o c <-> In (o, c) quote_styles.
Proof.
  split.
  - unfold recognized, _separate_quotes, sub. intros H.
    apply (f_equal fst) in H. cbn [fst] in H. revert H.
    cbn [scan]. rewrite !match_at_quotes.
    destruct (style_of quote_styles 1 o) as [[j c']|] eqn:Es.
    + cbn [close_at]. destruct (c =? o).
      * destruct (style_of quote_styles 1 c) as [[j2 c2]|]; cbn; discriminate.
      * destruct (Z.eqb_spec c c') as [->|_].
        -- intros _. eapply style_of_in. exact Es.
        -- destruct (style_of quote_styles 1 c) as [[j2 c2]|]; cbn; discriminate.
    + destruct (style_of quote_styles 1 c) as [[j2 c2]|]; cbn; discriminate.
  - intros Hin. apply (@separate_whole_span o c [] Hin). intros [].
Qed.

End SeparatorFacts.


(* ================================================================== *)
(** * Binary64 rounding *)

Module FloatFacts.
Import Py Rounding.
Local Open Scope Z_scope.

(** ** The number of binary digits *)

Lemma digits2_size (p : positive) : digits2_pos p = Pos.size p.
Proof. induction p as [p IH|p IH|]; simpl; [rewrite IH|rewrite IH|]; reflexivity. Qed.

Lemma digits_pos_bounds (p : positive) :
  2 ^ (Zdigits2 (Zpos p) - 1) <= Zpos p < 2 ^ Zdigits2 (Zpos p).
Proof.
  change (Zdigits2 (Zpos p)) with (Zpos (digits2_pos p)). rewrite digits2_size.
  pose proof (Pos.size_gt p) as Hgt. pose proof (Pos.size_le p) as Hle.
  apply Pos2Z.pos_lt_pos in Hgt. apply Pos2Z.pos_le_pos in Hle.
  rewrite Pos2Z.inj_pow in Hgt, Hle.
  change (Z.pos p~0) with (2 * Z.pos p) in Hle.
  split; [|exact Hgt].
  set (d := Zpos (Pos.size p)) in *.
  assert (E : 2 ^ d = 2 * 2 ^ (d - 1)).
  { replace d with (Z.succ (d - 1)) at 1 by lia. apply Z.pow_succ_r. lia. }
  lia.
Qed.

Lemma digits_nonneg (m : Z) : 0 <= Zdigits2 m.
Proof. destruct m; simpl; lia. Qed.

Lemma digits_bounds (m : Z) :
  0 < m -> 2 ^ (Zdigits2 m - 1) <= m < 2 ^ Zdigits2 m.
Proof. destruct m as [|p|p]; try lia. intros _. apply digits_pos_bounds. Qed.

Lemma digits_le (m k : Z) : 0 <= m -> 0 <= k -> m < 2 ^ k -> Zdigits2 m <= k.
Proof.
  intros Hm Hk Hlt. destruct (Z.eq_dec m 0) as [->|Hne]; [exact Hk|].
  assert (H0 : 0 < m) by lia. pose proof (digits_bounds H0) as [Hlo _].
  destruct (Z_le_gt_dec (Zdigits2 m) k) as [H|H]; [exact H|].
  exfalso. assert (2 ^ k <= 2 ^ (Zdigits2 m - 1))
    by (apply Z.pow_le_mono_r; lia). lia.
Qed.

Lemma digits_ge (m k : Z) : 0 <= k -> 2 ^ k <= m -> k + 1 <= Zdigits2 m.
Proof.
  intros Hk Hle. assert (H0 : 0 < m) by (pose proof (Z.pow_pos_nonneg 2 k); lia).
  pose proof (digits_bounds H0) as [_ Hhi]. pose proof (digits_nonneg m).
  destruct (Z_le_gt_dec (k + 1) (Zdigits2 m)) as [H'|H']; [exact H'|].
  exfalso. assert (2 ^ Zdigits2 m <= 2 ^ k) by (apply Z.pow_le_mono_r; lia). lia.
Qed.

(** ** Shifting and rounding *)

Lemma shr_1_m (mrs : shr_record) : 0 <= shr_m mrs -> shr_m (shr_1 mrs) = shr_m mrs / 2.
Proof.
  destruct mrs as [m r s]. simpl. intros Hm.
  destruct m as [|[q|q|]|q]; try lia; simpl shr_m.
  - reflexivity.
  - apply (Z.div_unique (Zpos q~1) 2 (Zpos q) 1); lia.
  - apply (Z.div_unique (Zpos q~0) 2 (Zpos q) 0); lia.
  - reflexivity.
Qed.

Lemma iter_shr_1_m (p : positive) :
  forall mrs : shr_record,
    0 <= shr_m mrs -> shr_m (iter_pos shr_1 p mrs) = shr_m mrs / 2 ^ Zpos p.
Proof.
  assert (Hdiv : forall a b, 0 <= a -> 0 < b -> 0 <= a / b)
    by (intros; apply Z.div_pos; lia).
  assert (Hp : forall q : positive, 0 < 2 ^ Zpos q)
    by (intros; apply Z.pow_pos_nonneg; lia).
  induction p as [p IH|p IH|]; intros mrs Hm; simpl iter_pos.
  - assert (H1 : 0 <= shr_m (shr_1 mrs))
      by (rewrite shr_1_m by exact Hm; apply Hdiv; lia).
    assert (H2 : 0 <= shr_m (iter_pos shr_1 p (shr_1 mrs)))
      by (rewrite IH by exact H1; apply Hdiv; [exact H1|apply Hp]).
    rewrite (IH _ H2), (IH _ H1), (shr_1_m _ Hm).
    rewrite !Z.div_div by (pose proof (Hp p); lia).
    f_equal. rewrite Pos2Z.inj_xI.
    replace (2 * Z.pos p + 1) with (Z.succ (Z.pos p + Z.pos p)) by lia.
    rewrite Z.pow_succ_r, Z.pow_add_r by lia. ring.
  - assert (H2 : 0 <= shr_m (iter_pos shr_1 p mrs))
      by (rewrite IH by exact Hm; apply Hdiv; [exact Hm|apply Hp]).
    rewrite (IH _ H2), (IH _ Hm).
    rewrite !Z.div_div by (pose proof (Hp p); lia).
    f_equal. rewrite <- !Z.pow_add_r by lia. f_equal. lia.
  - rewrite shr_1_m by exact Hm. reflexivity.
Qed.

Lemma shr_m_of_loc (m : Z) (l : location) : shr_m (shr_record_of_loc m l) = m.
Proof. destruct l as [|[]]; reflexivity. Qed.

Lemma loc_of_loc (m : Z) (l : location) :
  loc_of_shr_record (shr_record_of_loc m l) = l.
Proof. destruct l as [|[]]; reflexivity. Qed.

Lemma rne_bounds (m : Z) (l : location) :
  m <= round_nearest_even m l <= m + 1.
Proof.
  unfold round_nearest_even. destruct l as [|[]]; try lia.
  destruct (Z.even m); lia.
Qed.

Lemma shr_fexp_spec (m e : Z) (l : location) :
  0 <= m ->
  shr_m (fst (shr_fexp prec emax m e l)) = m / 2 ^ sh m e
  /\ snd (shr_fexp prec emax m e l) = e + sh m e
  /\ (sh m e = 0 -> fst (shr_fexp prec emax m e l) = shr_record_of_loc m l).
Proof.
  intros Hm. unfold shr_fexp, shr, sh.
  destruct (fexp prec emax (Zdigits2 m + e) - e) as [|p|p] eqn:E; simpl fst; simpl snd.
  - rewrite shr_m_of_loc, Z.max_l, Z.pow_0_r, Z.div_1_r by lia.
    repeat split; lia.
  - rewrite iter_shr_1_m by (rewrite shr_m_of_loc; exact Hm).
    rewrite shr_m_of_loc, Z.max_r by lia. repeat split; lia.
  - rewrite shr_m_of_loc, Z.max_l, Z.pow_0_r, Z.div_1_r by lia.
    repeat split; lia.
Qed.

Lemma bra_shape (s : bool) (m e : Z) (l : location) :
  0 <= m ->
  exists m1,
    m / 2 ^ sh m e <= m1 <= m / 2 ^ sh m e + 1
    /\ (sh m e = 0 -> l = loc_Exact -> m1 = m)
    /\ binary_round_aux prec emax s m e l
       = build s (m1 / 2 ^ sh m1 (e + sh m e)) (e + sh m e + sh m1 (e + sh m e)).
Proof.
  intros Hm. unfold binary_round_aux.
  pose proof (shr_fexp_spec e l Hm) as (H1 & H2 & H3).
  destruct (shr_fexp prec emax m e l) as [mrs' e'] eqn:E1. simpl in H1, H2, H3.
  set (m1 := round_nearest_even (shr_m mrs') (loc_of_shr_record mrs')).
  assert (Hm1 : m / 2 ^ sh m e <= m1 <= m / 2 ^ sh m e + 1).
  { unfold m1. rewrite <- H1. apply rne_bounds. }
  assert (H0 : 0 <= m1).
  { assert (0 <= m / 2 ^ sh m e); [|lia].
    apply Z.div_pos; [exact Hm|]. apply Z.pow_pos_nonneg; [lia|].
    unfold sh. lia. }
  exists m1. split; [exact Hm1|]. split.
  { intros Hs Hl. unfold m1. rewrite (H3 Hs), Hl. reflexivity. }
  pose proof (shr_fexp_spec e' loc_Exact H0) as (H4 & H5 & _).
  destruct (shr_fexp prec emax m1 e' loc_Exact) as [mrs'' e''] eqn:E2.
  simpl in H4, H5. rewrite H4, H5, H2. reflexivity.
Qed.

Lemma fexp_eq (x : Z) : fexp prec emax x = Z.max (x - 53) (-1074).
Proof. reflexivity. Qed.

Lemma pow2_pos (k : Z) : 0 <= k -> 0 < 2 ^ k.
Proof. intros. apply Z.pow_pos_nonneg; lia. Qed.

Lemma div_pow_bounds_aux (m d k : Z) :
  0 <= k <= d - 1 -> 2 ^ (d - 1) <= m < 2 ^ d ->
  2 ^ (d - 1 - k) <= m / 2 ^ k < 2 ^ (d - k).
Proof.
  intros Hk [Hlo Hhi]. pose proof (pow2_pos (k := k)) as Hp.
  split.
  - apply Z.div_le_lower_bound; [lia|].
    rewrite <- Z.pow_add_r by lia. replace (k + (d - 1 - k)) with (d - 1) by lia.
    exact Hlo.
  - apply Z.div_lt_upper_bound; [lia|].
    rewrite <- Z.pow_add_r by lia. replace (k + (d - k)) with d by lia.
    exact Hhi.
Qed.

(** No overflow: a non-negative mantissa of magnitude below 2^1023 rounds to
    a zero or to a finite float. *)
Lemma bra_finite (s : bool) (m e : Z) (l : location) :
  0 <= m -> e <= 970 -> Zdigits2 m + e <= 1023 ->
  is_finite (binary_round_aux prec emax s m e l) = true.
Proof.
  intros Hm He Hd.
  destruct (bra_shape s e l Hm) as (m1 & [Hlo Hhi] & _ & ->).
  pose proof (digits_nonneg m) as Hd0.
  assert (Hn1 : 0 <= sh m e) by (unfold sh; lia).
  assert (Hn1' : Zdigits2 m - 53 <= sh m e) by (unfold sh; rewrite fexp_eq; lia).
  assert (Hq : m / 2 ^ sh m e < 2 ^ 53).
  { apply Z.div_lt_upper_bound; [apply pow2_pos; exact Hn1|].
    rewrite <- Z.pow_add_r by lia.
    destruct (Z.eq_dec m 0) as [->|Hne]; [apply pow2_pos; lia|].
    assert (H0 : 0 < m) by lia. pose proof (digits_bounds H0) as [_ Hlt].
    assert (2 ^ Zdigits2 m <= 2 ^ (sh m e + 53)) by (apply Z.pow_le_mono_r; lia).
    lia. }
  assert (H0 : 0 <= m / 2 ^ sh m e)
    by (apply Z.div_pos; [exact Hm|apply pow2_pos; exact Hn1]).
  assert (Hd1 : Zdigits2 m1 <= 54).
  { apply digits_le; [lia|lia|].
    change (2 ^ 54) with (2 * 2 ^ 53). lia. }
  set (e1 := e + sh m e) in *.
  assert (He1 : -1074 <= e1) by (unfold e1, sh; rewrite fexp_eq; lia).
  assert (He1' : e1 <= 970) by (unfold e1, sh; rewrite fexp_eq; lia).
  assert (Hn2 : 0 <= sh m1 e1 <= 1) by (unfold sh; rewrite fexp_eq; lia).
  unfold build.
  destruct (m1 / 2 ^ sh m1 e1) as [|q|q] eqn:E; [reflexivity| |].
  - destruct (Z.leb_spec (e1 + sh m1 e1) (emax - prec)) as [_|H]; [reflexivity|].
    unfold emax, prec in H. lia.
  - exfalso. assert (0 <= m1 / 2 ^ sh m1 e1)
      by (apply Z.div_pos; [lia|apply pow2_pos; lia]). lia.
Qed.

Lemma digits_mul (a b : Z) : 0 < a -> 0 < b -> Zdigits2 (a * b) <= Zdigits2 a + Zdigits2 b.
Proof.
  intros Ha Hb. pose proof (digits_bounds Ha) as [_ Ha'].
  pose proof (digits_bounds Hb) as [_ Hb'].
  pose proof (digits_nonneg a). pose proof (digits_nonneg b).
  apply digits_le; [nia|lia|]. rewrite Z.pow_add_r by lia. nia.
Qed.

Lemma iter_xO (p k : positive) : Zpos (Pos.iter xO p k) = Zpos p * 2 ^ Zpos k.
Proof.
  induction k as [|k IH] using Pos.peano_ind.
  - simpl. lia.
  - rewrite Pos.iter_succ, Pos2Z.inj_xO, IH, Pos2Z.inj_succ, Z.pow_succ_r by lia.
    ring.
Qed.

(** An int below 2^53 is a float, exactly. *)
Lemma float_of_int_exact (n : Z) :
  0 < n < 2 ^ 53 ->
  exists mx ex,
    float_of_int n = Ok (S754_finite false mx ex)
    /\ Zpos mx = n * 2 ^ (- ex) /\ -52 <= ex <= 0
    /\ 2 ^ 52 <= Zpos mx < 2 ^ 53.
Proof.
  intros [Hn0 Hn]. destruct n as [|p|p]; try lia.
  pose proof (digits_pos_bounds p) as [Hlo Hhi].
  assert (Hd : 1 <= Zdigits2 (Zpos p) <= 53).
  { split; [apply (digits_ge (k := 0)); lia|apply digits_le; lia]. }
  set (d := Zdigits2 (Zpos p)) in *.
  unfold float_of_int, binary_normalize, binary_round.
  change (Zpos (digits2_pos p) + 0) with (d + 0).
  rewrite fexp_eq, Z.add_0_r, Z.max_l by lia.
  assert (Hshape : exists mz,
             shl_align p 0 (d - 53) = (mz, d - 53)
             /\ Zpos mz = Zpos p * 2 ^ (53 - d)).
  { unfold shl_align. destruct (d - 53 - 0) as [|k|k] eqn:E; try lia.
    - exists p. replace (d - 53) with 0 by lia. replace (53 - d) with 0 by lia.
      split; [reflexivity|lia].
    - exists (Pos.iter xO p k). split; [reflexivity|].
      rewrite iter_xO. f_equal. f_equal. lia. }
  destruct Hshape as (mz & -> & Hmz).
  assert (Hb : 2 ^ 52 <= Zpos mz < 2 ^ 53).
  { rewrite Hmz.
    assert (E1 : 2 ^ 52 = 2 ^ (d - 1) * 2 ^ (53 - d))
      by (rewrite <- Z.pow_add_r by lia; f_equal; lia).
    assert (E2 : 2 ^ 53 = 2 ^ d * 2 ^ (53 - d))
      by (rewrite <- Z.pow_add_r by lia; f_equal; lia).
    rewrite E1, E2.
    assert (HP : 0 < 2 ^ (53 - d)) by (apply pow2_pos; lia).
    revert Hlo Hhi HP. generalize (2 ^ (53 - d)) (2 ^ (d - 1)) (2 ^ d).
    intros P A B ? ? ?. nia. }
  assert (Hdz : Zdigits2 (Zpos mz) = 53).
  { apply Z.le_antisymm; [apply digits_le; lia|apply (digits_ge (k := 52)); lia]. }
  destruct (bra_shape false (d - 53) loc_Exact (Pos2Z.is_nonneg mz))
    as (m1 & _ & Hm1 & ->).
  assert (Hs : sh (Zpos mz) (d - 53) = 0)
    by (unfold sh; rewrite Hdz, fexp_eq; lia).
  rewrite (Hm1 Hs eq_refl), Hs, Z.add_0_r, Hs, Z.pow_0_r, Z.div_1_r, Z.add_0_r.
  unfold build.
  destruct (Z.leb_spec (d - 53) (emax - prec)) as [_|H];
    [|unfold emax, prec in H; lia].
  exists mz, (d - 53). split; [reflexivity|].
  split; [rewrite Hmz; f_equal; f_equal; lia|]. split; [lia|exact Hb].
Qed.

(** An int from 1 to 2^64 as a float: a normal float, exact below 2^53,
    and otherwise above the int by less than one unit of its last place. *)
Lemma float_of_int_spec (n : Z) :
  0 < n < 2 ^ 64 ->
  exists mx ex,
    float_of_int n = Ok (S754_finite false mx ex)
    /\ 2 ^ 52 <= Zpos mx < 2 ^ 53 /\ -52 <= ex <= 12
    /\ (ex <= 0 -> Zpos mx = n * 2 ^ (- ex))
    /\ (0 <= ex -> (Zpos mx - 1) * 2 ^ ex <= n).
Proof.
  intros [Hn0 Hn].
  destruct (Z_lt_le_dec n (2 ^ 53)) as [Hlt|Hge].
  { destruct (@float_of_int_exact n) as (mx & ex & E & Hmx & Hex & Hb); [lia|].
    exists mx, ex. split; [exact E|]. split; [exact Hb|]. split; [lia|].
    split; [intros _; exact Hmx|].
    intros H. replace ex with 0 in * by lia. change (2 ^ (- 0)) with 1 in Hmx.
    change (2 ^ 0) with 1. lia. }
  destruct n as [|p|p]; try lia.
  pose proof (digits_pos_bounds p) as [Hlo Hhi].
  assert (Hd : 54 <= Zdigits2 (Zpos p) <= 64).
  { split; [apply (digits_ge (k := 53)); lia|apply digits_le; lia]. }
  set (d := Zdigits2 (Zpos p)) in *.
  unfold float_of_int, binary_normalize, binary_round.
  change (Zpos (digits2_pos p) + 0) with (d + 0).
  rewrite fexp_eq, Z.add_0_r, Z.max_l by lia.
  assert (Hal : shl_align p 0 (d - 53) = (p, 0)).
  { unfold shl_align. destruct (d - 53 - 0) as [|k|k] eqn:E; try lia; reflexivity. }
  rewrite Hal.
  destruct (bra_shape false 0 loc_Exact (Pos2Z.is_nonneg p)) as (m1 & Hm1 & _ & ->).
  assert (Hs : sh (Zpos p) 0 = d - 53) by (unfold sh; fold d; rewrite fexp_eq; lia).
  rewrite Hs in *. rewrite Z.add_0_l.
  assert (Hq : 2 ^ 52 <= Zpos p / 2 ^ (d - 53) < 2 ^ 53).
  { pose proof (@div_pow_bounds_aux (Zpos p) d (d - 53)) as H.
    replace (d - 1 - (d - 53)) with 52 in H by lia.
    replace (d - (d - 53)) with 53 in H by lia.
    apply H; [lia|split; assumption]. }
  assert (Hfl : Zpos p / 2 ^ (d - 53) * 2 ^ (d - 53) <= Zpos p).
  { rewrite Z.mul_comm. apply Z.mul_div_le. apply pow2_pos. lia. }
  set (q := Zpos p / 2 ^ (d - 53)) in *. clearbody q.
  change (2 ^ 52) with 4503599627370496 in *.
  change (2 ^ 53) with 9007199254740992 in *.
  assert (Hd1 : 53 <= Zdigits2 m1 <= 54).
  { split.
    - apply (digits_ge (k := 52)); [lia|].
      change (2 ^ 52) with 4503599627370496. lia.
    - apply digits_le; [lia|lia|].
      change (2 ^ 54) with 18014398509481984. lia. }
  assert (Hs2 : sh m1 (d - 53) = Zdigits2 m1 - 53)
    by (unfold sh; rewrite fexp_eq; lia).
  rewrite Hs2.
  assert (Hm1pos : 0 < m1) by lia.
  pose proof (digits_bounds Hm1pos) as Hm1b.
  assert (Hp : 0 < 2 ^ (d - 53)) by (apply pow2_pos; lia).
  assert (Hcase : Zdigits2 m1 = 53 \/ Zdigits2 m1 = 54) by lia.
  destruct Hcase as [E|E]; rewrite E in *.
  - change (2 ^ (53 - 53)) with 1. rewrite Z.div_1_r.
    change (2 ^ 53) with 9007199254740992 in Hm1b.
    destruct m1 as [|m1|m1]; try lia. unfold build.
    destruct (Z.leb_spec (d - 53 + (53 - 53)) (emax - prec)) as [_|H];
      [|unfold emax, prec in H; lia].
    exists m1, (d - 53 + (53 - 53)). split; [reflexivity|].
    split; [lia|]. split; [lia|]. split; [lia|]. intros _.
    replace (d - 53 + (53 - 53)) with (d - 53) by lia. nia.
  - change (2 ^ (54 - 1)) with 9007199254740992 in Hm1b.
    assert (Em : m1 = 9007199254740992) by lia. subst m1.
    change (9007199254740992 / 2 ^ (54 - 53)) with 4503599627370496.
    unfold build.
    destruct (Z.leb_spec (d - 53 + (54 - 53)) (emax - prec)) as [_|H];
      [|unfold emax, prec in H; lia].
    exists 4503599627370496%positive, (d - 53 + (54 - 53)).
    split; [reflexivity|]. split; [lia|]. split; [lia|]. split; [lia|].
    intros _. replace (d - 53 + (54 - 53)) with (Z.succ (d - 53)) by lia.
    rewrite Z.pow_succ_r by lia. nia.
Qed.

Lemma float_of_int_0 : float_of_int 0 = Ok (S754_zero false).
Proof. reflexivity. Qed.

(** A threshold below 2^900 times a length below 2^64 is finite. *)
Lemma mul_finite (t : float) (L : Z) :
  small t = true -> 0 <= L < 2 ^ 64 ->
  exists y, mul_float_int t L = Ok y /\ is_finite y = true.
Proof.
  intros Ht HL. unfold mul_float_int.
  destruct (Z.eq_dec L 0) as [->|HL0].
  - rewrite float_of_int_0. simpl. eexists. split; [reflexivity|].
    destruct t; simpl in *; try discriminate Ht; reflexivity.
  - destruct (@float_of_int_spec L) as (mx & ex & -> & Hb & Hex & _); [lia|].
    simpl. eexists. split; [reflexivity|].
    destruct t as [st|st| |st mt et]; unfold small in Ht; try discriminate Ht;
      [reflexivity|].
    apply Z.leb_le in Ht. unfold fmul. simpl SFmul.
    pose proof (@digits_mul (Zpos mt) (Zpos mx) eq_refl eq_refl) as Hdm.
    assert (Hdx : Zdigits2 (Zpos mx) <= 53) by (apply digits_le; lia).
    assert (Hdt : 1 <= Zdigits2 (Zpos mt))
      by (apply (digits_ge (k := 0)); lia).
    apply bra_finite; [lia|lia|].
    change (Zpos (mt * mx)) with (Zpos mt * Zpos mx). lia.
Qed.

(** The quotient of two ints below 2^64 does not overflow. *)
Lemma div_finite (a b : Z) :
  b <> 0 -> Z.abs a < 2 ^ 64 -> exists y, int_truediv a b = Ok y.
Proof.
  intros Hb Ha. unfold int_truediv.
  destruct (Z.eqb_spec b 0) as [E|_]; [contradiction|].
  assert (H : is_finite (SFdiv prec emax (exact a) (exact b)) = true).
  { destruct b as [|mb|mb]; [contradiction| |];
      (destruct a as [|ma|ma]; [reflexivity| |]);
      unfold exact, SFdiv, SFdiv_core_binary;
      rewrite !Z.add_0_r, Z.sub_0_r;
      set (d1 := Zdigits2 (Zpos ma)); set (d2 := Zdigits2 (Zpos mb));
      set (e' := Z.min (fexp prec emax (d1 - d2)) 0);
      (assert (He' : e' <= 0) by (unfold e'; lia));
      (assert (Hm' : match 0 - e' with
                     | Z0 => Zpos ma
                     | Zpos _ => Z.shiftl (Zpos ma) (0 - e')
                     | Zneg _ => 0
                     end = Zpos ma * 2 ^ (- e'))
        by (destruct (0 - e') as [|k|k] eqn:E;
            [replace (- e') with 0 by lia; lia
            |rewrite Z.shiftl_mul_pow2 by lia; f_equal; f_equal; lia
            |lia]));
      rewrite Hm';
      pose proof (Z_div_mod (Zpos ma * 2 ^ (- e')) (Zpos mb) eq_refl) as Hdm;
      destruct (Z.div_eucl (Zpos ma * 2 ^ (- e')) (Zpos mb)) as [q r];
      destruct Hdm as [Hq Hr];
      pose proof (pow2_pos (k := - e')) as Hp;
      pose proof (digits_pos_bounds ma) as [_ Hhi];
      (assert (Hq0 : 0 <= q) by nia);
      (assert (Hdq : Zdigits2 q <= d1 + - e')
        by (apply digits_le; [lia|unfold d1; pose proof (digits_nonneg (Zpos ma)); lia|];
            rewrite Z.pow_add_r by (try apply digits_nonneg; lia);
            fold d1 in Hhi; nia));
      (assert (Hd1 : d1 <= 64) by (apply digits_le; lia));
      apply bra_finite; lia. }
  destruct (SFdiv prec emax (exact a) (exact b)); try discriminate H;
    eexists; reflexivity.
Qed.

End FloatFacts.

Module ThresholdFacts.
Import Py Rounding FloatFacts.
Local Open Scope Z_scope.

(** ceil(n × 0.95) never exceeds n, for the number n of judged pieces. *)
Lemma threshold_le (n : Z) :
  0 <= n < 2 ^ 64 ->
  exists th, bind (mul_int_float n f0_95) ceil = Ok th /\ th <= n.
Proof.
  intros Hn. destruct (Z.eq_dec n 0) as [->|Hn0].
  { exists 0. split; [reflexivity|lia]. }
  destruct (@float_of_int_spec n) as (mx & ex & Hx & Hb & Hex & Hneg & Hpos);
    [lia|].
  unfold mul_int_float. rewrite Hx. cbn [bind]. unfold fmul, f0_95.
  cbn [SFmul xorb].
  set (M := Zpos (mx * 8556839292003942)). set (E := ex + -53).
  assert (HM : M = Zpos mx * 8556839292003942) by reflexivity.
  change (2 ^ 52) with 4503599627370496 in Hb.
  change (2 ^ 53) with 9007199254740992 in Hb.
  assert (HM0 : 0 < M) by reflexivity.
  assert (HdM : 105 <= Zdigits2 M <= 106).
  { split.
    - apply (digits_ge (k := 104)); [lia|].
      change (2 ^ 104) with (4503599627370496 * 4503599627370496). nia.
    - apply digits_le; [lia|lia|].
      change (2 ^ 106) with (9007199254740992 * 9007199254740992). nia. }
  pose proof (digits_bounds HM0) as HMb.
  destruct (bra_shape false E loc_Exact (Z.lt_le_incl _ _ HM0))
    as (m1 & Hm1 & _ & ->).
  assert (Hn1 : sh M E = Zdigits2 M - 53)
    by (unfold sh, E; rewrite fexp_eq; lia).
  rewrite Hn1 in *.
  pose proof (@div_pow_bounds_aux M (Zdigits2 M) (Zdigits2 M - 53)
                                  ltac:(lia) HMb) as Hq.
  replace (Zdigits2 M - 1 - (Zdigits2 M - 53)) with 52 in Hq by lia.
  replace (Zdigits2 M - (Zdigits2 M - 53)) with 53 in Hq by lia.
  change (2 ^ 52) with 4503599627370496 in Hq.
  change (2 ^ 53) with 9007199254740992 in Hq.
  (* the quotient stays two units below the mantissa of n, doubled when the
     product lost a binary digit *)
  assert (Hq' : (Zdigits2 M = 106 -> M / 2 ^ (Zdigits2 M - 53) + 2 <= Zpos mx)
                /\ (Zdigits2 M = 105 ->
                    M / 2 ^ (Zdigits2 M - 53) + 3 <= 2 * Zpos mx)).
  { split; intros HdM'; rewrite HdM'.
    - assert (M / 2 ^ (106 - 53) < Zpos mx - 1); [|lia].
      apply Z.div_lt_upper_bound; [reflexivity|].
      change (2 ^ (106 - 53)) with 9007199254740992. lia.
    - assert (M / 2 ^ (105 - 53) < 2 * Zpos mx - 2); [|lia].
      apply Z.div_lt_upper_bound; [reflexivity|].
      change (2 ^ (105 - 53)) with 4503599627370496. lia. }
  set (q := M / 2 ^ (Zdigits2 M - 53)) in *. clearbody q.
  set (e1 := E + (Zdigits2 M - 53)).
  assert (Hd1 : 53 <= Zdigits2 m1 <= 54).
  { split.
    - apply (digits_ge (k := 52)); [lia|].
      change (2 ^ 52) with 4503599627370496. lia.
    - apply digits_le; [lia|lia|].
      change (2 ^ 54) with 18014398509481984. lia. }
  assert (Hn2 : sh m1 e1 = Zdigits2 m1 - 53)
    by (unfold sh, e1, E; rewrite fexp_eq; lia).
  rewrite Hn2.
  assert (Hm1pos : 0 < m1) by lia.
  pose proof (digits_bounds Hm1pos) as Hm1b.
  (* the rounded product, as a mantissa and an exponent *)
  assert (Hres : exists m2 e2,
             m1 / 2 ^ (Zdigits2 m1 - 53) = Zpos m2
             /\ e2 = e1 + (Zdigits2 m1 - 53)
             /\ ((e2 = ex /\ Zpos m2 <= Zpos mx - 1)
                 \/ (e2 = ex - 1 /\ Zpos m2 <= 2 * Zpos mx - 2))).
  { pose proof (@div_pow_bounds_aux m1 (Zdigits2 m1) (Zdigits2 m1 - 53)
                                    ltac:(lia) Hm1b) as Hq2.
    replace (Zdigits2 m1 - 1 - (Zdigits2 m1 - 53)) with 52 in Hq2 by lia.
    replace (Zdigits2 m1 - (Zdigits2 m1 - 53)) with 53 in Hq2 by lia.
    change (2 ^ 52) with 4503599627370496 in Hq2.
    change (2 ^ 53) with 9007199254740992 in Hq2.
    destruct (m1 / 2 ^ (Zdigits2 m1 - 53)) as [|m2|m2] eqn:Em2; try lia.
    exists m2, (e1 + (Zdigits2 m1 - 53)). split; [reflexivity|].
    split; [reflexivity|].
    destruct Hq' as [H106 H105].
    assert (Hcase : Zdigits2 M = 105 \/ Zdigits2 M = 106) by lia.
    assert (Hcase1 : Zdigits2 m1 = 53 \/ Zdigits2 m1 = 54) by lia.
    destruct Hcase as [HdM'|HdM'].
    - specialize (H105 HdM'). destruct Hcase1 as [Hd|Hd]; rewrite Hd in Em2.
      + right. split; [unfold e1, E; lia|].
        change (2 ^ (53 - 53)) with 1 in Em2. rewrite Z.div_1_r in Em2. lia.
      + left. split; [unfold e1, E; lia|].
        change (2 ^ (54 - 53)) with 2 in Em2.
        clear - Em2 Hm1 H105. Z.div_mod_to_equations. lia.
    - specialize (H106 HdM').
      assert (Hd : Zdigits2 m1 = 53).
      { apply Z.le_antisymm; [|lia]. apply digits_le; [lia|lia|].
        change (2 ^ 53) with 9007199254740992. lia. }
      left. split; [unfold e1, E; lia|].
      rewrite Hd in Em2. change (2 ^ (53 - 53)) with 1 in Em2.
      rewrite Z.div_1_r in Em2. lia. }
  destruct Hres as (m2 & e2 & -> & He2 & Hcases). rewrite <- He2.
  unfold build.
  destruct (Z.leb_spec e2 (emax - prec)) as [_|H];
    [|unfold emax, prec in H; lia].
  cbn [bind ceil cond_Zopp].
  eexists. split; [reflexivity|].
  clear Hm1 Hm1b Hd1 Hn2 Hq HMb HdM Hn1 He2.
  destruct Hcases as [[-> Hle]|[-> Hle]].
  - destruct (Z.leb_spec 0 ex) as [H0|H0].
    + specialize (Hpos H0).
      assert (Hp : 0 < 2 ^ ex) by (apply pow2_pos; exact H0). nia.
    + specialize (Hneg ltac:(lia)).
      assert (Hp : 0 < 2 ^ (- ex)) by (apply pow2_pos; lia).
      assert (- n <= - Zpos m2 / 2 ^ (- ex)); [|lia].
      apply Z.div_le_lower_bound; [exact Hp|]. nia.
  - destruct (Z.leb_spec 0 (ex - 1)) as [H0|H0].
    + specialize (Hpos ltac:(lia)).
      assert (Hp2 : 2 ^ ex = 2 * 2 ^ (ex - 1)).
      { replace ex with (Z.succ (ex - 1)) at 1 by lia.
        apply Z.pow_succ_r. lia. }
      assert (Hp : 0 < 2 ^ (ex - 1)) by (apply pow2_pos; lia).
      rewrite Hp2 in Hpos. nia.
    + assert (Hp2 : 2 ^ (- (ex - 1)) = 2 * 2 ^ (- ex)).
      { replace (- (ex - 1)) with (Z.succ (- ex)) by lia.
        apply Z.pow_succ_r. lia. }
      assert (Hp : 0 < 2 ^ (- ex)) by (apply pow2_pos; lia).
      assert (- n <= - Zpos m2 / 2 ^ (- (ex - 1))); [|lia].
      apply Z.div_le_lower_bound; [rewrite Hp2; lia|]. rewrite Hp2.
      destruct (Z.eq_dec ex 0) as [->|Hex0].
      * specialize (Hpos ltac:(lia)). change (2 ^ 0) with 1 in Hpos.
        change (2 ^ (- 0)) with 1. lia.
      * specialize (Hneg ltac:(lia)). nia.
Qed.

End ThresholdFacts.

(* ================================================================== *)
(** * Sizes and parts of what the scanner produces *)

Module SizeFacts.
Import Re Lang ReFacts.

Lemma scan_length (r : re) (s : str) :
  forall k, List.length (scan r k s) <= List.length s.
Proof.
  induction s as [|c s IH]; intros k; simpl; [lia|].
  destruct k as [|k].
  - destruct (match_at r (c :: s)) as [[text cs]|];
      [destruct (List.length text)|]; simpl;
      match goal with |- context [scan r ?n s] => specialize (IH n) end; lia.
  - specialize (IH k). lia.
Qed.

Lemma matches_of_length (r : re) (ps : list piece) :
  List.length (matches_of r ps) <= List.length ps.
Proof. induction ps as [|[c|t cs] ps IH]; simpl; lia. Qed.

Lemma texts_of_length (ps : list piece) :
  List.length (texts_of ps) <= List.length ps.
Proof. induction ps as [|[c|t cs] ps IH]; simpl; lia. Qed.

Lemma findall_length (r : re) (s : str) :
  List.length (findall r s) <= List.length s.
Proof.
  unfold findall. pose proof (matches_of_length r (scan r 0 s)).
  pose proof (scan_length r s 0). lia.
Qed.

Lemma finditer_length (r : re) (s : str) :
  List.length (finditer r s) <= List.length s.
Proof.
  unfold finditer. pose proof (texts_of_length (scan r 0 s)).
  pose proof (scan_length r s 0). lia.
Qed.

Lemma replace_length (repl : str) (ps : list piece) :
  List.length repl <= 1 -> List.length (replace repl ps) <= List.length ps.
Proof.
  intros H. induction ps as [|[c|t cs] ps IH]; simpl; [lia|lia|].
  rewrite length_app. lia.
Qed.

Lemma sub_length (r : re) (repl s : str) :
  List.length repl <= 1 -> List.length (sub r repl s) <= List.length s.
Proof.
  intros H. unfold sub. pose proof (@replace_length repl (scan r 0 s) H).
  pose proof (scan_length r s 0). lia.
Qed.

Lemma cut_sizes (ps : list piece) :
  forall cur,
    List.length (cut ps cur) <= S (List.length ps)
    /\ Forall (fun p => List.length p <= List.length cur + List.length ps)
              (cut ps cur).
Proof.
  induction ps as [|[c|t cs] ps IH]; intros cur; simpl.
  - split; [lia|]. constructor; [rewrite length_rev; lia|constructor].
  - destruct (IH (c :: cur)) as [H1 H2]. split; [lia|].
    eapply Forall_impl; [|exact H2]. simpl. intros p Hp. lia.
  - destruct (IH []) as [H1 H2]. split; [lia|].
    constructor; [rewrite length_rev; lia|].
    eapply Forall_impl; [|exact H2]. simpl. intros p Hp. lia.
Qed.

Lemma split_sizes (r : re) (s : str) :
  List.length (split r s) <= S (List.length s)
  /\ Forall (fun p => List.length p <= List.length s) (split r s).
Proof.
  unfold split. destruct (cut_sizes (scan r 0 s) []) as [H1 H2].
  pose proof (scan_length r s 0) as H3. split; [lia|].
  eapply Forall_impl; [|exact H2]. simpl. intros p Hp. lia.
Qed.

(** Every match recorded by a scan is the match at some point of the
    subject, and the matches do not overlap. *)
Lemma scan_matched (r : re) (s : str) :
  forall k text cs,
    In (Matched text cs) (scan r k s) ->
    exists u t, s = u ++ t /\ match_at r t = Some (text, cs).
Proof.
  induction s as [|c s IH]; intros k text cs; simpl; [intros []|].
  assert (Htail : forall n, In (Matched text cs) (scan r n s) ->
                            exists u t, c :: s = u ++ t
                                        /\ match_at r t = Some (text, cs)).
  { intros n H. destruct (IH _ _ _ H) as (u & t & -> & E).
    exists (c :: u), t. split; [reflexivity|exact E]. }
  destruct k as [|k]; [|apply Htail].
  destruct (match_at r (c :: s)) as [[text' cs']|] eqn:E.
  - destruct (List.length text') eqn:El.
    + intros [H|H]; [discriminate H|exact (Htail _ H)].
    + intros [H|H]; [|exact (Htail _ H)].
      injection H as -> ->. exists [], (c :: s). split; [reflexivity|exact E].
  - intros [H|H]; [discriminate H|exact (Htail _ H)].
Qed.

Lemma scan_weight (r : re) (s : str) :
  forall k, k <= List.length s -> weight (scan r k s) + k <= List.length s.
Proof.
  induction s as [|c s IH]; intros k Hk; simpl in *; [lia|].
  destruct k as [|k].
  - destruct (match_at r (c :: s)) as [[text cs]|] eqn:E.
    + destruct (List.length text) as [|n] eqn:El; simpl.
      * specialize (IH 0). lia.
      * apply match_at_sound in E. destruct E as (s' & E & _).
        apply (f_equal (@List.length Z)) in E. rewrite length_app in E.
        simpl in E. rewrite El. specialize (IH n). lia.
    + simpl. specialize (IH 0). lia.
  - specialize (IH k). lia.
Qed.

(** ** Parts *)

Lemma infix_refl (s : str) : infix s s.
Proof. exists [], []. rewrite app_nil_r. reflexivity. Qed.

Lemma infix_trans (a b c : str) : infix a b -> infix b c -> infix a c.
Proof.
  intros (u & v & ->) (u' & v' & ->). exists (u' ++ u), (v ++ v').
  rewrite <- !app_assoc. reflexivity.
Qed.

Lemma free_infix (r : re) (t s : str) : free r s -> infix t s -> free r t.
Proof.
  intros Hf (u & v & ->) u' w v' E. apply (Hf (u ++ u') w (v' ++ v)).
  rewrite E, <- !app_assoc. reflexivity.
Qed.

(** The pieces between the matches are parts of the subject. *)
Lemma cut_infix (r : re) (s : str) :
  forall k cur orig u,
    orig = u ++ rev cur ++ s -> (k <> 0 -> cur = []) ->
    Forall (fun p => infix p orig) (cut (scan r k s) cur).
Proof.
  induction s as [|c s IH]; intros k cur orig u E Hk; simpl.
  - constructor; [|constructor]. exists u, []. exact E.
  - assert (Hnext : forall n, Forall (fun p => infix p orig)
                                     (cut (scan r n s) [])).
    { intros n. apply (IH n [] orig (u ++ rev cur ++ [c])); [|reflexivity].
      rewrite E, <- !app_assoc. reflexivity. }
    assert (Hcur : infix (rev cur) orig) by (exists u, (c :: s); exact E).
    assert (Hun : Forall (fun p => infix p orig) (cut (scan r 0 s) (c :: cur))).
    { apply (IH 0 (c :: cur) orig u); [|intros H; contradiction].
      rewrite E. simpl. rewrite <- !app_assoc. reflexivity. }
    destruct k as [|k].
    + destruct (match_at r (c :: s)) as [[text cs]|];
        [destruct (List.length text)|]; simpl; try exact Hun.
      constructor; [exact Hcur|apply Hnext].
    + rewrite (Hk (Nat.neq_succ_0 k)). apply Hnext.
Qed.

Lemma split_infix (r : re) (s : str) : Forall (fun p => infix p s) (split r s).
Proof. apply (@cut_infix r s 0 [] s []); [reflexivity|intros _; reflexivity]. Qed.

Lemma cut_nonempty (ps : list piece) (cur : str) : cut ps cur <> [].
Proof.
  revert cur. induction ps as [|[c|t cs] ps IH]; intros cur; simpl;
    [discriminate|apply IH|discriminate].
Qed.

Lemma join_cons (sep x : str) (l : list str) :
  l <> [] -> Py.join sep (x :: l) = x ++ sep ++ Py.join sep l.
Proof. destruct l; [contradiction|reflexivity]. Qed.

(** [sub] joins with the replacement what [split] cuts apart. *)
Lemma replace_cut (repl : str) (ps : list piece) :
  forall cur, rev cur ++ replace repl ps = Py.join repl (cut ps cur).
Proof.
  induction ps as [|[c|t cs] ps IH]; intros cur; cbn [replace cut].
  - apply app_nil_r.
  - rewrite <- IH. simpl. rewrite <- app_assoc. reflexivity.
  - rewrite join_cons by apply cut_nonempty.
    rewrite <- (IH []). reflexivity.
Qed.

Lemma sub_join_split (r : re) (repl s : str) :
  sub r repl s = Py.join repl (split r s).
Proof. unfold sub, split. rewrite <- replace_cut. reflexivity. Qed.

(** ** What the syntax of a pattern tells of its language *)

Lemma avoids_lang (x : Z) (r : re) (w : str) :
  avoids x r = true -> lang r w -> ~ In x w.
Proof.
  revert w. induction r as [|c|a IHa b IHb|a IHa b IHb|c|c|i r IH];
    simpl; intros w Ha Hw.
  - subst w. intros [].
  - destruct Hw as (y & -> & Hy). intros [->|[]]. rewrite Hy in Ha. discriminate.
  - apply andb_true_iff in Ha. destruct Ha as [Ha Hb].
    destruct Hw as (u & v & -> & Hu & Hv). intros Hin.
    apply in_app_or in Hin. destruct Hin as [Hin|Hin];
      [exact (IHa _ Ha Hu Hin)|exact (IHb _ Hb Hv Hin)].
  - apply andb_true_iff in Ha. destruct Ha as [Ha Hb].
    destruct Hw as [Hw|Hw]; [exact (IHa _ Ha Hw)|exact (IHb _ Hb Hw)].
  - intros Hin. rewrite Forall_forall in Hw. rewrite (Hw _ Hin) in Ha. discriminate.
  - destruct Hw as [->|(y & -> & Hy)]; [intros []|].
    intros [->|[]]. rewrite Hy in Ha. discriminate.
  - exact (IH _ Ha Hw).
Qed.

Lemma class_within_in (f k : cclass) (x : Z) :
  class_within f k = true -> in_class k x = true -> in_class f x = true.
Proof.
  unfold class_within. intros H Hx. apply andb_true_iff in H. destruct H as [Hn Hr].
  unfold in_class in Hx. destruct (negated k); [discriminate Hn|]. simpl in Hx.
  unfold in_ranges in Hx. apply existsb_exists in Hx.
  destruct Hx as ([a b] & Hin & Hab). rewrite forallb_forall in Hr.
  specialize (Hr _ Hin). simpl in Hr, Hab.
  apply andb_true_iff in Hr. destruct Hr as [Heq Hf].
  apply andb_true_iff in Hab. destruct Hab as [H1 H2].
  apply Z.eqb_eq in Heq. apply Z.leb_le in H1, H2.
  replace x with a by lia. exact Hf.
Qed.

Lemma within_lang (f : cclass) (r : re) (w : str) :
  within f r = true -> lang r w -> exists x, In x w /\ in_class f x = true.
Proof.
  revert w. induction r as [|c|a IHa b IHb|a IHa b IHb|c|c|i r IH];
    simpl; intros w Hr Hw; try discriminate.
  - destruct Hw as (y & -> & Hy). exists y. split; [left; reflexivity|].
    exact (@class_within_in f c y Hr Hy).
  - destruct Hw as (u & v & -> & Hu & Hv). apply orb_true_iff in Hr.
    destruct Hr as [Hr|Hr].
    + destruct (IHa _ Hr Hu) as (x & Hin & Hx). exists x.
      split; [apply in_or_app; left; exact Hin|exact Hx].
    + destruct (IHb _ Hr Hv) as (x & Hin & Hx). exists x.
      split; [apply in_or_app; right; exact Hin|exact Hx].
  - apply andb_true_iff in Hr. destruct Hr as [Hra Hrb].
    destruct Hw as [Hw|Hw]; [exact (IHa _ Hra Hw)|exact (IHb _ Hrb Hw)].
  - exact (IH _ Hr Hw).
Qed.

(** Two texts free of a pattern stay free when joined by a character the
    pattern never matches. *)
Lemma free_sep (r : re) (x : Z) (a b : str) :
  avoids x r = true -> free r a -> free r b -> free r (a ++ x :: b).
Proof.
  intros Hav Ha Hb u w v E Hw.
  pose proof (@avoids_lang x r w Hav Hw) as Hx.
  apply app_eq_app in E. destruct E as (l & [[E1 E2]|[E1 E2]]).
  - (* the part starts inside [a] *)
    symmetry in E2. apply app_eq_app in E2.
    destruct E2 as (l2 & [[E3 E4]|[E3 E4]]).
    + apply (Ha u w l2); [|exact Hw]. rewrite E1, E3. reflexivity.
    + destruct l2 as [|y l2].
      * rewrite app_nil_r in E3. subst l. apply (Ha u w []); [|exact Hw].
        rewrite app_nil_r. exact E1.
      * simpl in E4. injection E4 as <- _. apply Hx. rewrite E3.
        apply in_or_app. right. left. reflexivity.
  - (* the part starts at the separator or after it *)
    destruct l as [|y l].
    + simpl in E2. destruct w as [|y w].
      * apply (Ha a [] []); [rewrite app_nil_r; reflexivity|exact Hw].
      * simpl in E2. injection E2 as <- _. apply Hx. left. reflexivity.
    + simpl in E2. injection E2 as _ E2. apply (Hb l w v); [exact E2|exact Hw].
Qed.

Lemma free_join (r : re) (x : Z) (l : list str) :
  nullable r = false -> avoids x r = true ->
  Forall (free r) l -> free r (Py.join [x] l).
Proof.
  intros Hn Hav H. induction H as [|a l Ha Hl IH]; simpl.
  - intros u w v E Hw. symmetry in E. apply app_eq_nil in E. destruct E as [_ E].
    apply app_eq_nil in E. destruct E as [-> _].
    exact (nullable_lang _ Hn Hw eq_refl).
  - destruct l as [|b l]; [exact Ha|].
    change (free r (a ++ x :: Py.join [x] (b :: l))).
    apply free_sep; assumption.
Qed.

End SizeFacts.

(* ================================================================== *)
(** * Totality under bounded thresholds, and Neutral on feature-free text *)

Module JudgeFacts.
Import Re Lang ReFacts Tables Py Detector Spec Rounding.
Import PyFacts ScanFacts FloatFacts ThresholdFacts SizeFacts QuoteFacts.
Local Open Scope Z_scope.

Lemma defined_Some {A : Type} (x : result A) (a : A) :
  defined x = Some a -> x = Ok a.
Proof. destruct x; simpl; congruence. Qed.

Lemma label_eqb_eq (a b : Label) : label_eqb a b = true <-> a = b.
Proof. destruct a, b; simpl; split; intros H; congruence. Qed.

Lemma label_eqb_sym (a b : Label) : label_eqb a b = label_eqb b a.
Proof. destruct a, b; reflexivity. Qed.

(** The Segment Judge on a features record is the algorithm of section 4.2. *)
Lemma judge_features_spec (self : CantoneseDetector) (f : SegmentFeatures) :
  defined (judge_features self f)
  = segment_judge self (canto_feature_count f) (swc_feature_count f) (length f).
Proof.
  unfold judge_features, segment_judge, floor_of, ceil_of, dominance.
  set (c := canto_feature_count f). set (s := swc_feature_count f).
  set (L := length f).
  rewrite <- !bind_assoc.
  destruct (bind (mul_float_int (swc_tolerance self) L) floor) as [ts|e1]; simpl;
    rewrite <- ?bind_assoc;
    destruct (bind (mul_float_int (canto_tolerance self) L) floor) as [tc|e2];
    simpl; try reflexivity.
  destruct ((c + s =? 0) || (c <=? tc) && (s <=? ts)); [reflexivity|].
  rewrite <- ?bind_assoc.
  destruct (bind (mul_float_int (canto_presence self) L) ceil) as [pc|e3]; simpl;
    rewrite <- ?bind_assoc;
    destruct (bind (mul_float_int (swc_presence self) L) ceil) as [ps|e4];
    simpl; try reflexivity.
  destruct (int_truediv c (c + s)) as [x|e5], (int_truediv s (c + s)) as [y|e6];
    simpl; try reflexivity.
  destruct (fgt (fsub x y) f0_9 && negb (s >=? ps)); [reflexivity|].
  destruct (fgt (fsub y x) f0_9 && negb (c >=? pc)); reflexivity.
Qed.

Lemma defined_mapM {A B : Type} (f : A -> result B) (l : list A) :
  defined (mapM f l) = all_defined (map (fun a => defined (f a)) l).
Proof.
  induction l as [|a l IH]; simpl; [reflexivity|].
  destruct (f a) as [b|e]; simpl; [|reflexivity].
  rewrite <- IH. destruct (mapM f l); reflexivity.
Qed.

Lemma tally_get (l : list Label) (x : Label) :
  Z.of_nat (get label_eqb (count_all label_eqb l) x) = tally l x.
Proof.
  unfold tally. rewrite (@get_count_all Label label_eqb label_eqb_eq).
  rewrite (filter_ext (fun y => label_eqb y x) (label_eqb x)); [reflexivity|].
  intros y. apply label_eqb_sym.
Qed.

(** The Aggregator is the algorithm of section 4.3. *)
Lemma judge_segments_spec (self : CantoneseDetector) (document : str) :
  defined (_judge_segments self document) = segment_aggregator self document.
Proof.
  unfold _judge_segments, segment_aggregator.
  rewrite (filter_ext (fun x => truthy (strip x))
                      (fun p => negb (whitespace_only p)))
    by (intros p; apply truthy_strip).
  set (pieces := filter _ _).
  pose proof (defined_mapM (_judge_single_segment self) pieces) as HM.
  destruct (mapM (_judge_single_segment self) pieces) as [labels|e];
    simpl in HM; rewrite <- HM; simpl; [|reflexivity].
  rewrite (total_count_all label_eqb), !tally_get, mul_int_float_comm.
  rewrite <- bind_assoc. unfold len.
  destruct (bind (mul_float_int f0_95 (Z.of_nat (List.length labels))) ceil)
    as [threshold|e]; simpl; [|reflexivity].
  destruct (tally labels Neutral >=? threshold); [reflexivity|].
  destruct (tally labels Cantonese + tally labels Neutral >=? threshold);
    [reflexivity|].
  destruct (tally labels SWC + tally labels Neutral >=? threshold); reflexivity.
Qed.

(** ** The roundings are defined *)

Lemma floor_finite (y : float) : is_finite y = true -> exists z, floor y = Ok z.
Proof. destruct y; simpl; intros H; try discriminate H; eexists; reflexivity. Qed.

Lemma ceil_finite (y : float) : is_finite y = true -> exists z, ceil y = Ok z.
Proof. destruct y; simpl; intros H; try discriminate H; eexists; reflexivity. Qed.

Lemma floor_of_defined (t : float) (L : Z) :
  small t = true -> 0 <= L < 2 ^ 64 -> exists z, floor_of t L = Some z.
Proof.
  intros Ht HL. destruct (mul_finite t Ht HL) as (y & E & Hy).
  destruct (floor_finite y Hy) as (z & Ez).
  exists z. unfold floor_of. rewrite E. simpl. rewrite Ez. reflexivity.
Qed.

Lemma ceil_of_defined (t : float) (L : Z) :
  small t = true -> 0 <= L < 2 ^ 64 -> exists z, ceil_of t L = Some z.
Proof.
  intros Ht HL. destruct (mul_finite t Ht HL) as (y & E & Hy).
  destruct (ceil_finite y Hy) as (z & Ez).
  exists z. unfold ceil_of. rewrite E. simpl. rewrite Ez. reflexivity.
Qed.

Lemma dominance_defined (a b total : Z) :
  total <> 0 -> Z.abs a < 2 ^ 64 -> Z.abs b < 2 ^ 64 ->
  exists v, dominance a b total = Some v.
Proof.
  intros Ht Ha Hb. unfold dominance.
  destruct (div_finite a Ht Ha) as (x & ->).
  destruct (div_finite b Ht Hb) as (y & ->). simpl. eexists. reflexivity.
Qed.

Lemma small_thresholds_inv (self : CantoneseDetector) :
  small_thresholds self = true ->
  small (canto_tolerance self) = true /\ small (swc_tolerance self) = true
  /\ small (canto_presence self) = true /\ small (swc_presence self) = true.
Proof.
  unfold small_thresholds, small_tolerances. intros H.
  repeat (apply andb_true_iff in H; destruct H as [H ?]). tauto.
Qed.

Lemma judge_features_total (self : CantoneseDetector) (f : SegmentFeatures) :
  small_thresholds self = true ->
  0 <= length f < 2 ^ 64 ->
  Z.abs (canto_feature_count f) < 2 ^ 64 ->
  Z.abs (swc_feature_count f) < 2 ^ 64 ->
  exists l, judge_features self f = Ok l /\ first_four l.
Proof.
  intros Hs HL Hc Hw. apply small_thresholds_inv in Hs.
  destruct Hs as (H1 & H2 & H3 & H4).
  assert (H : exists l, segment_judge self (canto_feature_count f)
                          (swc_feature_count f) (length f) = Some l
                        /\ first_four l).
  { unfold segment_judge.
    destruct (floor_of_defined _ H1 HL) as (tc & ->).
    destruct (floor_of_defined _ H2 HL) as (ts & ->).
    destruct (Z.eqb_spec (canto_feature_count f + swc_feature_count f) 0)
      as [E|E]; simpl; [exists Neutral; split; [reflexivity|left; reflexivity]|].
    destruct ((canto_feature_count f <=? tc) && (swc_feature_count f <=? ts));
      [exists Neutral; split; [reflexivity|left; reflexivity]|].
    destruct (ceil_of_defined _ H3 HL) as (pc & ->).
    destruct (ceil_of_defined _ H4 HL) as (ps & ->).
    destruct (@dominance_defined _ _ _ E Hc Hw) as (v1 & ->).
    destruct (@dominance_defined _ _ _ E Hw Hc) as (v2 & ->).
    eexists. split; [reflexivity|].
    destruct (v1 && _); [right; left; reflexivity|].
    destruct (v2 && _); [right; right; left; reflexivity|].
    right; right; right; reflexivity. }
  destruct H as (l & E & Hl). exists l. split; [|exact Hl].
  apply defined_Some. rewrite judge_features_spec. exact E.
Qed.

Lemma ELLIPSIS_eq : ELLIPSIS = [8230].
Proof. reflexivity. Qed.

Lemma MAX_LEN_eq : MAX_LEN = 9223372036854775808.
Proof. reflexivity. Qed.

Lemma pow64_eq : 2 ^ 64 = 18446744073709551616.
Proof. reflexivity. Qed.

Lemma segment_total (self : CantoneseDetector) (seg : str) :
  small_thresholds self = true -> len seg < MAX_LEN ->
  exists l, _judge_single_segment self seg = Ok l /\ first_four l.
Proof.
  intros Hs Hlen. unfold _judge_single_segment.
  rewrite MAX_LEN_eq in Hlen. unfold len in Hlen.
  pose proof (findall_length CANTO_FEATURE_RE seg).
  pose proof (findall_length CANTO_EXCLUDE_RE seg).
  pose proof (findall_length SWC_FEATURE_RE seg).
  pose proof (findall_length SWC_EXCLUDE_RE seg).
  pose proof (finditer_length ALL_HAN_RE seg).
  apply judge_features_total; [exact Hs| | |];
    unfold _get_segment_features;
    cbn [length canto_feature_count swc_feature_count];
    unfold _hant_length, len; rewrite pow64_eq; lia.
Qed.

Lemma mapM_total {A B : Type} (P : B -> Prop) (f : A -> result B) (xs : list A) :
  Forall (fun x => exists b, f x = Ok b /\ P b) xs ->
  exists bs, mapM f xs = Ok bs /\ List.length bs = List.length xs /\ Forall P bs.
Proof.
  induction 1 as [|x xs (b & E & Hb) _ (bs & Ebs & Hlen & HP)]; simpl.
  - exists []. repeat split. constructor.
  - rewrite E, Ebs. simpl. exists (b :: bs). repeat split;
      [simpl; rewrite Hlen; reflexivity|constructor; assumption].
Qed.

(** The pieces the Aggregator judges are parts of the document, no more
    than its length plus one. *)
Lemma pieces_facts (document : str) :
  let pieces := filter (fun x => truthy (strip x))
                       (split ALL_DELIMITERS_RE document) in
  (List.length pieces <= S (List.length document))%nat
  /\ Forall (fun p => infix p document
                      /\ (List.length p <= List.length document)%nat) pieces.
Proof.
  intros pieces.
  destruct (split_sizes ALL_DELIMITERS_RE document) as [H1 H2].
  pose proof (split_infix ALL_DELIMITERS_RE document) as H3.
  split.
  - pose proof (filter_length_le (fun x => truthy (strip x))
                                 (split ALL_DELIMITERS_RE document)).
    unfold pieces. lia.
  - apply Forall_forall. intros p Hp. unfold pieces in Hp.
    apply filter_In in Hp. destruct Hp as [Hp _].
    rewrite Forall_forall in H2, H3. split; [exact (H3 _ Hp)|exact (H2 _ Hp)].
Qed.

(** The Aggregator on judgements that are all there. *)
Lemma judge_segments_on (self : CantoneseDetector) (document : str)
      (js : list Label) (th : Z) :
  mapM (_judge_single_segment self)
       (filter (fun x => truthy (strip x)) (split ALL_DELIMITERS_RE document))
  = Ok js ->
  bind (mul_int_float (Z.of_nat (List.length js)) f0_95) ceil = Ok th ->
  _judge_segments self document
  = Ok (if tally js Neutral >=? th then Neutral
        else if tally js Cantonese + tally js Neutral >=? th then Cantonese
        else if tally js SWC + tally js Neutral >=? th then SWC
        else Mixed).
Proof.
  intros E Eth. unfold _judge_segments. rewrite E. cbn [bind].
  rewrite (total_count_all label_eqb), !tally_get.
  rewrite <- bind_assoc, Eth. cbn [bind].
  destruct (tally js Neutral >=? th); [reflexivity|].
  destruct (tally js Cantonese + tally js Neutral >=? th); [reflexivity|].
  destruct (tally js SWC + tally js Neutral >=? th); reflexivity.
Qed.

Lemma segments_total (self : CantoneseDetector) (document : str) :
  small_thresholds self = true -> len document < MAX_LEN ->
  exists l, _judge_segments self document = Ok l /\ first_four l.
Proof.
  intros Hs Hlen. rewrite MAX_LEN_eq in Hlen. unfold len in Hlen.
  destruct (pieces_facts document) as [Hn Hp].
  destruct (@mapM_total _ _ first_four (_judge_single_segment self)
              (filter (fun x => truthy (strip x))
                      (split ALL_DELIMITERS_RE document)))
    as (js & E & Hjs & _).
  { eapply Forall_impl; [|exact Hp]. simpl. intros p [_ Hl].
    apply segment_total; [exact Hs|]. rewrite MAX_LEN_eq. unfold len. lia. }
  destruct (@threshold_le (Z.of_nat (List.length js))) as (th & Eth & _);
    [rewrite pow64_eq; lia|].
  rewrite (judge_segments_on _ _ E Eth). eexists. split; [reflexivity|].
  unfold first_four.
  destruct (_ >=? th); [tauto|]. destruct (_ >=? th); [tauto|].
  destruct (_ >=? th); tauto.
Qed.

Lemma document_total (self : CantoneseDetector) (document : str) :
  small_thresholds self = true -> len document < MAX_LEN ->
  exists l, _judge_document self document = Ok l /\ first_four l.
Proof.
  intros Hs Hlen. unfold _judge_document.
  destruct (split_seg self); [apply segments_total|apply segment_total];
    assumption.
Qed.

(** ** The sizes of the matrix and of the quotes *)

Lemma join_length (sep : str) (l : list str) :
  (List.length (join sep l)
   <= list_sum (map (fun x => List.length x + List.length sep) l))%nat.
Proof.
  induction l as [|x l IH]; simpl; [lia|].
  destruct l as [|y l]; [simpl; lia|].
  rewrite !length_app. simpl in *. lia.
Qed.

Lemma contents_weight (ps : list piece) :
  Forall (fun p => match p with
                   | Unmatched _ => True
                   | Matched text cs =>
                     (List.length (join [] (match_value ALL_QUOTEMARKS_RE text cs))
                      + 2 <= List.length text)%nat
                   end) ps ->
  (list_sum (map (fun x => List.length x + 1)
                 (map (join []) (matches_of ALL_QUOTEMARKS_RE ps)))
   <= weight ps)%nat.
Proof.
  induction 1 as [|[c|text cs] ps Hp _ IH]; simpl in *; lia.
Qed.

Lemma scan_quotes_values (s : str) (k : nat) :
  Forall (fun p => match p with
                   | Unmatched _ => True
                   | Matched text cs =>
                     (List.length (join [] (match_value ALL_QUOTEMARKS_RE text cs))
                      + 2 <= List.length text)%nat
                     /\ infix (join [] (match_value ALL_QUOTEMARKS_RE text cs)) s
                   end) (scan ALL_QUOTEMARKS_RE k s).
Proof.
  apply Forall_forall. intros [c|text cs] Hin; [exact I|].
  apply scan_matched in Hin. destruct Hin as (u & t & -> & E).
  apply match_at_quotes_shape in E.
  destruct E as (o & c & inner & r & _ & -> & -> & _ & _ & ->).
  split.
  - simpl. rewrite length_app. simpl. lia.
  - exists (u ++ [o]), (c :: r). rewrite <- !app_assoc. reflexivity.
Qed.

Lemma quotes_length (document : str) :
  (List.length (snd (_separate_quotes document)) <= List.length document)%nat.
Proof.
  unfold _separate_quotes, findall. cbn [snd].
  pose proof (join_length ELLIPSIS
                (map (join []) (matches_of ALL_QUOTEMARKS_RE
                                           (scan ALL_QUOTEMARKS_RE 0 document))))
    as H1.
  pose proof (@contents_weight (scan ALL_QUOTEMARKS_RE 0 document)) as H2.
  pose proof (@scan_weight ALL_QUOTEMARKS_RE document 0 (Nat.le_0_l _)) as H3.
  change (List.length ELLIPSIS) with 1%nat in H1.
  assert (H2' : (list_sum
                   (map (fun x => List.length x + 1)
                        (map (join []) (matches_of ALL_QUOTEMARKS_RE
                                          (scan ALL_QUOTEMARKS_RE 0 document))))
                 <= weight (scan ALL_QUOTEMARKS_RE 0 document))%nat).
  { apply H2. eapply Forall_impl; [|apply scan_quotes_values].
    intros [c|text cs]; [trivial|]. intros [H _]. exact H. }
  lia.
Qed.

Lemma matrix_length (document : str) :
  (List.length (fst (_separate_quotes document)) <= List.length document)%nat.
Proof.
  unfold _separate_quotes. cbn [fst]. apply sub_length. simpl. lia.
Qed.

Lemma first_four_six (l : Label) : first_four l -> In l six_labels.
Proof. unfold first_four, six_labels. simpl. intuition. Qed.

Lemma matrix_quotes_total (self : CantoneseDetector) (document : str) :
  small_thresholds self = true -> len document < MAX_LEN ->
  exists l, _judge_matrix_quotes self document = Ok l /\ In l six_labels.
Proof.
  intros Hs Hlen. unfold _judge_matrix_quotes.
  pose proof (matrix_length document) as Hm.
  pose proof (quotes_length document) as Hq.
  destruct (_separate_quotes document) as [matrix quotes]. cbn [fst snd] in Hm, Hq.
  assert (Hdoc : forall d, (List.length d <= List.length document)%nat ->
                           exists l, _judge_document self d = Ok l /\ first_four l).
  { intros d Hd. apply document_total; [exact Hs|]. unfold len in *. lia. }
  destruct (str_eqb matrix ELLIPSIS).
  { destruct (Hdoc (sub ALL_QUOTEMARKS_RE [] quotes)) as (l & E & Hl).
    - pose proof (@sub_length ALL_QUOTEMARKS_RE [] quotes (Nat.le_0_l _)). lia.
    - exists l. split; [exact E|apply first_four_six; exact Hl]. }
  destruct (str_eqb quotes []).
  { destruct (Hdoc matrix Hm) as (l & E & Hl).
    exists l. split; [exact E|apply first_four_six; exact Hl]. }
  destruct (Hdoc matrix Hm) as (mJ & -> & HmJ).
  destruct (Hdoc quotes Hq) as (qJ & -> & HqJ). cbn [bind].
  unfold first_four in HmJ, HqJ.
  destruct HmJ as [-> | [-> | [-> | ->]]], HqJ as [-> | [-> | [-> | ->]]];
    simpl; eexists; (split; [reflexivity|simpl; tauto]).
Qed.

Lemma judge_total (self : CantoneseDetector) (document : str) :
  small_thresholds self = true -> len document < MAX_LEN ->
  exists l, judge self document = Ok l /\ In l six_labels.
Proof.
  intros Hs Hlen. unfold judge. destruct (get_quote self).
  - apply matrix_quotes_total; assumption.
  - destruct (document_total self document Hs Hlen) as (l & E & Hl).
    exists l. split; [exact E|apply first_four_six; exact Hl].
Qed.

End JudgeFacts.

(* ================================================================== *)
(** * Text without features *)

Module NeutralFacts.
Import Re Lang ReFacts Tables Py Detector Spec Rounding.
Import PyFacts ScanFacts FloatFacts ThresholdFacts SizeFacts QuoteFacts JudgeFacts.
Local Open Scope Z_scope.

Lemma tables_not_nullable :
  nullable CANTO_FEATURE_RE = false /\ nullable CANTO_EXCLUDE_RE = false
  /\ nullable SWC_FEATURE_RE = false /\ nullable SWC_EXCLUDE_RE = false
  /\ nullable ALL_QUOTEMARKS_RE = false /\ nullable ALL_DELIMITERS_RE = false
  /\ nullable ALL_HAN_RE = false.
Proof. repeat split; vm_compute; reflexivity. Qed.

(** The tables are the patterns of the source text. *)
Lemma tables_parse :
  parse (Utf8.text CANTO_FEATURE_SRC) = Some CANTO_FEATURE_RE
  /\ parse (Utf8.text CANTO_EXCLUDE_SRC) = Some CANTO_EXCLUDE_RE
  /\ parse (Utf8.text SWC_FEATURE_SRC) = Some SWC_FEATURE_RE
  /\ parse (Utf8.text SWC_EXCLUDE_SRC) = Some SWC_EXCLUDE_RE
  /\ parse (Utf8.text ALL_QUOTEMARKS_SRC) = Some ALL_QUOTEMARKS_RE
  /\ parse (Utf8.text ALL_DELIMITERS_SRC) = Some ALL_DELIMITERS_RE
  /\ parse (Utf8.text ALL_HAN_SRC) = Some ALL_HAN_RE.
Proof. repeat split; vm_compute; reflexivity. Qed.

(** Every exclusion phrase contains a character that is a feature by
    itself, and the placeholder is in no feature. *)
Lemma tables_syntax :
  within (first_class CANTO_FEATURE_RE) CANTO_EXCLUDE_RE = true
  /\ within (first_class SWC_FEATURE_RE) SWC_EXCLUDE_RE = true
  /\ avoids 8230 CANTO_FEATURE_RE = true
  /\ avoids 8230 SWC_FEATURE_RE = true.
Proof. repeat split; vm_compute; reflexivity. Qed.

Lemma canto_first (x : Z) :
  in_class (first_class CANTO_FEATURE_RE) x = true -> lang CANTO_FEATURE_RE [x].
Proof. intros H. left. exists x. split; [reflexivity|exact H]. Qed.

Lemma swc_first (x : Z) :
  in_class (first_class SWC_FEATURE_RE) x = true -> lang SWC_FEATURE_RE [x].
Proof. intros H. left. exists x. split; [reflexivity|exact H]. Qed.

Lemma exclude_free (feat excl : re) (s : str) :
  within (first_class feat) excl = true ->
  (forall x, in_class (first_class feat) x = true -> lang feat [x]) ->
  free feat s -> free excl s.
Proof.
  intros Hw Hf Hs u w v E Hl.
  destruct (@within_lang _ _ _ Hw Hl) as (x & Hin & Hx).
  apply in_split in Hin. destruct Hin as (w1 & w2 & ->).
  apply (Hs (u ++ w1) [x] (w2 ++ v)); [|exact (Hf _ Hx)].
  rewrite E, <- !app_assoc. reflexivity.
Qed.

Lemma feature_free_clean (s : str) : feature_free s <-> clean s.
Proof.
  unfold feature_free, clean. split; intros [H1 H2]; split.
  - apply findall_free; [apply tables_not_nullable|exact H1].
  - apply findall_free; [apply tables_not_nullable|exact H2].
  - apply free_findall. exact H1.
  - apply free_findall. exact H2.
Qed.

Lemma clean_infix (t s : str) : clean s -> infix t s -> clean t.
Proof.
  intros [H1 H2] Hi. split; eapply free_infix; eassumption.
Qed.

Lemma clean_join (l : list str) : Forall clean l -> clean (join ELLIPSIS l).
Proof.
  intros H. rewrite ELLIPSIS_eq. split.
  - apply free_join; [apply tables_not_nullable|apply tables_syntax|].
    eapply Forall_impl; [|exact H]. intros a [Ha _]. exact Ha.
  - apply free_join; [apply tables_not_nullable|apply tables_syntax|].
    eapply Forall_impl; [|exact H]. intros a [_ Ha]. exact Ha.
Qed.

Lemma clean_counts (seg : str) :
  clean seg ->
  canto_feature_count (_get_segment_features seg) = 0
  /\ swc_feature_count (_get_segment_features seg) = 0.
Proof.
  intros [H1 H2]. unfold _get_segment_features.
  cbn [canto_feature_count swc_feature_count].
  rewrite (free_findall H1), (free_findall H2).
  rewrite (free_findall (exclude_free _ (proj1 tables_syntax) canto_first H1)).
  rewrite (free_findall
             (exclude_free _ (proj1 (proj2 tables_syntax)) swc_first H2)).
  split; reflexivity.
Qed.

Lemma small_tolerances_inv (self : CantoneseDetector) :
  small_tolerances self = true ->
  small (canto_tolerance self) = true /\ small (swc_tolerance self) = true.
Proof. unfold small_tolerances. intros H. apply andb_true_iff in H. exact H. Qed.

Lemma neutral_segment (self : CantoneseDetector) (seg : str) :
  small_tolerances self = true -> len seg < MAX_LEN -> clean seg ->
  _judge_single_segment self seg = Ok Neutral.
Proof.
  intros Hs Hlen Hc. apply small_tolerances_inv in Hs. destruct Hs as [H1 H2].
  destruct (clean_counts Hc) as [Ec Es].
  apply defined_Some. unfold _judge_single_segment.
  rewrite judge_features_spec, Ec, Es. unfold segment_judge.
  assert (HL : 0 <= length (_get_segment_features seg) < 2 ^ 64).
  { unfold _get_segment_features. cbn [length]. unfold _hant_length, len.
    pose proof (finditer_length ALL_HAN_RE seg).
    rewrite MAX_LEN_eq in Hlen. unfold len in Hlen. rewrite pow64_eq. lia. }
  destruct (floor_of_defined _ H1 HL) as (tc & ->).
  destruct (floor_of_defined _ H2 HL) as (ts & ->).
  reflexivity.
Qed.

Lemma tally_all (js : list Label) (x : Label) :
  Forall (fun l => l = x) js -> tally js x = Z.of_nat (List.length js).
Proof.
  intros H. unfold tally. f_equal. f_equal.
  induction H as [|l js -> _ IH]; simpl; [reflexivity|].
  replace (label_eqb x x) with true by (destruct x; reflexivity).
  simpl. rewrite IH. reflexivity.
Qed.

Lemma neutral_segments (self : CantoneseDetector) (document : str) :
  small_tolerances self = true -> len document < MAX_LEN -> clean document ->
  _judge_segments self document = Ok Neutral.
Proof.
  intros Hs Hlen Hc.
  destruct (pieces_facts document) as [Hn Hp].
  destruct (@mapM_total _ _ (fun l => l = Neutral) (_judge_single_segment self)
              (filter (fun x => truthy (strip x))
                      (split ALL_DELIMITERS_RE document)))
    as (js & E & Hjs & Hall).
  { eapply Forall_impl; [|exact Hp]. simpl. intros p [Hi Hl].
    exists Neutral. split; [|reflexivity].
    apply neutral_segment; [exact Hs| |exact (clean_infix Hc Hi)].
    unfold len in *. lia. }
  rewrite MAX_LEN_eq in Hlen. unfold len in Hlen.
  destruct (@threshold_le (Z.of_nat (List.length js))) as (th & Eth & Hth);
    [rewrite pow64_eq; lia|].
  rewrite (judge_segments_on _ _ E Eth), (tally_all Hall).
  destruct (Z.geb_spec (Z.of_nat (List.length js)) th); [reflexivity|lia].
Qed.

Lemma neutral_document (self : CantoneseDetector) (document : str) :
  small_tolerances self = true -> len document < MAX_LEN -> clean document ->
  _judge_document self document = Ok Neutral.
Proof.
  intros Hs Hlen Hc. unfold _judge_document.
  destruct (split_seg self); [apply neutral_segments|apply neutral_segment];
    assumption.
Qed.

(** The matrix and the quotes of a clean document are clean. *)
Lemma clean_matrix (document : str) :
  clean document -> clean (fst (_separate_quotes document)).
Proof.
  intros Hc. unfold _separate_quotes. cbn [fst]. rewrite sub_join_split.
  apply clean_join. eapply Forall_impl; [|apply split_infix].
  intros p Hp. exact (clean_infix Hc Hp).
Qed.

Lemma clean_quotes (document : str) :
  clean document -> clean (snd (_separate_quotes document)).
Proof.
  intros Hc. unfold _separate_quotes, findall. cbn [snd].
  apply clean_join. apply Forall_forall. intros q Hq.
  apply in_map_iff in Hq. destruct Hq as (vs & <- & Hvs).
  pose proof (scan_quotes_values document 0) as HF. rewrite Forall_forall in HF.
  assert (Hin : exists text cs,
             In (Matched text cs) (scan ALL_QUOTEMARKS_RE 0 document)
             /\ vs = match_value ALL_QUOTEMARKS_RE text cs).
  { revert Hvs. generalize (scan ALL_QUOTEMARKS_RE 0 document).
    induction l as [|[c|text cs] l IH]; simpl; [intros []| |].
    - intros H. destruct (IH H) as (t & cs & Hin & E).
      exists t, cs. split; [right; exact Hin|exact E].
    - intros [H|H].
      + exists text, cs. split; [left; reflexivity|symmetry; exact H].
      + destruct (IH H) as (t & cs' & Hin & E).
        exists t, cs'. split; [right; exact Hin|exact E]. }
  destruct Hin as (text & cs & Hin & ->).
  specialize (HF _ Hin). simpl in HF. destruct HF as [_ Hi].
  exact (clean_infix Hc Hi).
Qed.

Lemma neutral_judge (self : CantoneseDetector) (document : str) :
  small_tolerances self = true ->
  len document < MAX_LEN ->
  feature_free document ->
  (get_quote self = true ->
   fst (_separate_quotes document) = ELLIPSIS ->
   feature_free (sub ALL_QUOTEMARKS_RE [] (snd (_separate_quotes document)))) ->
  judge self document = Ok Neutral.
Proof.
  intros Hs Hlen Hf Hq. apply feature_free_clean in Hf.
  unfold judge. destruct (get_quote self) eqn:Eq;
    [|apply neutral_document; assumption].
  unfold _judge_matrix_quotes.
  pose proof (matrix_length document) as Hm.
  pose proof (quotes_length document) as Hql.
  pose proof (clean_matrix Hf) as Hcm. pose proof (clean_quotes Hf) as Hcq.
  specialize (Hq eq_refl).
  destruct (_separate_quotes document) as [matrix quotes].
  cbn [fst snd] in *.
  destruct (str_eqb matrix ELLIPSIS) eqn:E1.
  { unfold str_eqb in E1.
    destruct (list_eq_dec Z.eq_dec matrix ELLIPSIS) as [E|_]; [|discriminate E1].
    apply neutral_document; [exact Hs| |apply feature_free_clean; exact (Hq E)].
    pose proof (@sub_length ALL_QUOTEMARKS_RE [] quotes (Nat.le_0_l _)).
    unfold len in *. lia. }
  destruct (str_eqb quotes []).
  { apply neutral_document; [exact Hs| |exact Hcm]. unfold len in *. lia. }
  rewrite (neutral_document _ Hs); [|unfold len in *; lia|exact Hcm].
  rewrite (neutral_document _ Hs); [|unfold len in *; lia|exact Hcq].
  reflexivity.
Qed.

End NeutralFacts.

(* ================================================================== *)
(** * The scanner covers the subject; counting matches *)

Module CountFacts.
Import Re Lang ReFacts Tables Py Detector Spec Count.
Import SizeFacts.
Local Open Scope nat_scope.

(** The pieces of a scan stand for the whole subject, each character once. *)
Lemma scan_exact (r : re) (s : str) :
  forall k, k <= List.length s -> weight (scan r k s) + k = List.length s.
Proof.
  induction s as [|c s IH]; intros k Hk.
  - simpl in *. lia.
  - destruct k as [|k].
    + cbn [scan]. destruct (match_at r (c :: s)) as [[text cs]|] eqn:E.
      * destruct (List.length text) as [|n] eqn:El.
        -- cbn [weight]. specialize (IH 0 ltac:(lia)). simpl. lia.
        -- cbn [weight]. rewrite El.
           apply match_at_sound in E. destruct E as (s' & E & _).
           apply (f_equal (@List.length Z)) in E. rewrite length_app in E.
           simpl in E. specialize (IH n ltac:(lia)). simpl. lia.
      * cbn [weight]. specialize (IH 0 ltac:(lia)). simpl. lia.
    + cbn [scan]. simpl in Hk. specialize (IH k ltac:(lia)). simpl. lia.
Qed.

Lemma matches_of_matched (r : re) (ps : list piece) :
  List.length (matches_of r ps) = matched ps.
Proof.
  induction ps as [|[c|t cs] ps IH]; simpl; [reflexivity|exact IH|].
  rewrite IH. reflexivity.
Qed.

Lemma texts_of_matched (ps : list piece) :
  List.length (texts_of ps) = matched ps.
Proof.
  induction ps as [|[c|t cs] ps IH]; simpl; [reflexivity|exact IH|].
  rewrite IH. reflexivity.
Qed.

Lemma count_in_app (k : cclass) (a b : str) :
  count_in k (a ++ b) = count_in k a + count_in k b.
Proof. unfold count_in. rewrite filter_app, length_app. reflexivity. Qed.

Lemma count_in_cons (k : cclass) (x : Z) (s : str) :
  count_in k (x :: s) = (if in_class k x then 1 else 0) + count_in k s.
Proof. unfold count_in. simpl. destruct (in_class k x); reflexivity. Qed.

Lemma count_in_le (k : cclass) (s : str) : count_in k s <= List.length s.
Proof. unfold count_in. apply filter_length_le. Qed.

Lemma count_in_pos (k : cclass) (x : Z) (s : str) :
  In x s -> in_class k x = true -> 1 <= count_in k s.
Proof.
  intros Hin Hx. apply in_split in Hin. destruct Hin as (a & b & ->).
  rewrite count_in_app, count_in_cons, Hx. lia.
Qed.

Lemma count_in_zero (k : cclass) (s : str) :
  count_in k s = 0 <-> Forall (fun x => in_class k x = false) s.
Proof.
  induction s as [|x s IH].
  - split; [constructor|reflexivity].
  - rewrite count_in_cons. split.
    + intros H. destruct (in_class k x) eqn:E; [simpl in H; lia|].
      constructor; [exact E|]. apply IH. simpl in H. exact H.
    + intros H. inversion H as [|? ? Hx Hs]; subst. rewrite Hx.
      simpl. apply IH. exact Hs.
Qed.

(** What a match takes from the subject, and what is left after it. *)
Lemma match_at_skipn (r : re) (c : Z) (s text : str) (cs : caps) (n : nat) :
  match_at r (c :: s) = Some (text, cs) -> List.length text = S n ->
  lang r text /\ c :: s = text ++ skipn n s.
Proof.
  intros E El. apply match_at_sound in E. destruct E as (s' & E & Hl).
  split; [exact Hl|].
  destruct text as [|x text]; [discriminate|].
  simpl in E. injection E as -> ->. simpl in El. injection El as <-.
  rewrite skipn_app, skipn_all, Nat.sub_diag. reflexivity.
Qed.

(** Matches are disjoint: when each holds a character of the class [f], there
    are no more matches than such characters. *)
Lemma matched_upper (f : cclass) (e : re) (s : str) :
  within f e = true ->
  forall k, matched (scan e k s) <= count_in f (skipn k s).
Proof.
  intros Hw. induction s as [|c s IH]; intros k.
  - destruct k; unfold count_in; simpl; lia.
  - destruct k as [|k].
    + cbn [scan skipn].
      assert (Hs : matched (scan e 0 s) <= count_in f (c :: s)).
      { specialize (IH 0). cbn [skipn] in IH. rewrite count_in_cons. lia. }
      destruct (match_at e (c :: s)) as [[text cs]|] eqn:E; [|exact Hs].
      destruct (List.length text) as [|n] eqn:El; [exact Hs|].
      cbn [matched].
      destruct (@match_at_skipn _ _ _ _ _ _ E El) as (Hl & ->).
      rewrite count_in_app.
      destruct (@within_lang _ _ _ Hw Hl) as (x & Hin & Hx).
      pose proof (@count_in_pos f x text Hin Hx). specialize (IH n). lia.
    + cbn [scan skipn]. apply IH.
Qed.

Lemma lang_maxlen (r : re) :
  forall w m, maxlen r = Some m -> lang r w -> List.length w <= m.
Proof.
  induction r as [|k|a IHa b IHb|a IHa b IHb|k|k|i r IH]; intros w m Hm Hl;
    cbn [maxlen lang] in *.
  - injection Hm as <-. subst w. simpl. lia.
  - injection Hm as <-. destruct Hl as (x & -> & _). simpl. lia.
  - destruct (maxlen a) as [n1|]; [|discriminate].
    destruct (maxlen b) as [n2|]; [|discriminate]. injection Hm as <-.
    destruct Hl as (u & v & -> & Hu & Hv). rewrite length_app.
    specialize (IHa u n1 eq_refl Hu). specialize (IHb v n2 eq_refl Hv). lia.
  - destruct (maxlen a) as [n1|]; [|discriminate].
    destruct (maxlen b) as [n2|]; [|discriminate]. injection Hm as <-.
    destruct Hl as [Hl|Hl].
    + specialize (IHa w n1 eq_refl Hl). lia.
    + specialize (IHb w n2 eq_refl Hl). lia.
  - discriminate.
  - injection Hm as <-. destruct Hl as [->|(x & -> & _)]; simpl; lia.
  - eapply IH; eassumption.
Qed.

(** A pattern that opens with a single-character alternative [f], and whose
    other alternatives match at most two characters: every character of [f]
    is matched or follows the first character of a match, so there are at
    least as many matches as such characters. *)
Lemma matched_lower (f : cclass) (rest : re) (m : nat) (s : str) :
  maxlen rest = Some m -> m <= 2 ->
  count_in f s <= matched (scan (Alt (Cls f) rest) 0 s).
Proof.
  intros Hm Hm2.
  assert (H : forall n s, List.length s <= n ->
                          count_in f s <= matched (scan (Alt (Cls f) rest) 0 s)).
  { clear s. induction n as [|n IH]; intros s Hn.
    - destruct s; [unfold count_in; simpl; lia|simpl in Hn; lia].
    - destruct s as [|c s]; [unfold count_in; simpl; lia|]. simpl in Hn.
      rewrite count_in_cons. cbn [scan].
      destruct (in_class f c) eqn:Ec.
      + assert (E : match_at (Alt (Cls f) rest) (c :: s) = Some ([c], [])).
        { unfold match_at. cbn [run]. rewrite Ec.
          change (c :: s) with ([c] ++ s). rewrite consumed_app. reflexivity. }
        rewrite E. cbn [List.length matched].
        specialize (IH s ltac:(lia)). lia.
      + destruct (match_at (Alt (Cls f) rest) (c :: s)) as [[text cs]|] eqn:E;
          [|cbn [matched]; specialize (IH s ltac:(lia)); lia].
        destruct (List.length text) as [|k] eqn:El;
          [cbn [matched]; specialize (IH s ltac:(lia)); lia|].
        cbn [matched].
        destruct (@match_at_skipn _ _ _ _ _ _ E El) as (Hl & Es).
        assert (Hk : k <= 1).
        { cbn [lang] in Hl. destruct Hl as [(x & -> & _)|Hl].
          - simpl in El. lia.
          - pose proof (@lang_maxlen rest _ _ Hm Hl). lia. }
        destruct k as [|[|k]]; [| |lia].
        * specialize (IH s ltac:(lia)). lia.
        * destruct s as [|y s]; [unfold count_in; simpl; lia|].
          cbn [scan]. rewrite count_in_cons. simpl in Hn.
          specialize (IH s ltac:(lia)). destruct (in_class f y); lia. }
  apply (H (List.length s)). lia.
Qed.

(** ** [ALL_HAN_RE] *)

(** A class followed by an optional character of a class disjoint from it
    matches once per character of the first class. *)
Lemma matched_class_opt (h v : cclass) :
  (forall x, in_class v x = true -> in_class h x = false) ->
  forall s,
    matched (scan (Seq (Cls h) (Opt v)) 0 s) = count_in h s
    /\ (forall x s', s = x :: s' -> in_class v x = true ->
                     matched (scan (Seq (Cls h) (Opt v)) 1 s) = count_in h s).
Proof.
  intros Hd. induction s as [|c s [IH0 IH1]].
  - split; [reflexivity|]. intros x s' E. discriminate.
  - split.
    + cbn [scan]. rewrite count_in_cons. unfold match_at. cbn [run].
      destruct (in_class h c) eqn:Ec.
      * destruct s as [|y s'].
        -- change [c] with ([c] ++ []). rewrite consumed_app. reflexivity.
        -- destruct (in_class v y) eqn:Ey.
           ++ change (c :: y :: s') with ([c; y] ++ s').
              rewrite consumed_app. cbn [List.length matched].
              rewrite (IH1 y s' eq_refl Ey). reflexivity.
           ++ change (c :: y :: s') with ([c] ++ y :: s').
              rewrite consumed_app. cbn [List.length matched].
              rewrite IH0. reflexivity.
      * cbn [matched]. rewrite IH0. reflexivity.
    + intros x s' E Hx. injection E as <- <-. cbn [scan].
      rewrite count_in_cons, (Hd _ Hx), IH0. reflexivity.
Qed.

Lemma ranges_apart_spec (h v : cclass) (x : Z) :
  ranges_apart h v = true -> in_class v x = true -> in_class h x = false.
Proof.
  unfold ranges_apart, in_class, in_ranges. intros H Hv.
  apply andb_true_iff in H. destruct H as [H Hf].
  apply andb_true_iff in H. destruct H as [Hh Hv'].
  apply negb_true_iff in Hh. apply negb_true_iff in Hv'.
  rewrite Hh. rewrite Hv' in Hv. cbn [xorb] in *.
  apply existsb_exists in Hv. destruct Hv as ([c d] & Hcd & Hx).
  apply not_true_is_false. intros Hex.
  apply existsb_exists in Hex. destruct Hex as ([a b] & Hab & Hx').
  rewrite forallb_forall in Hf. specialize (Hf _ Hab).
  rewrite forallb_forall in Hf. specialize (Hf _ Hcd).
  cbn [fst snd] in *. lia.
Qed.

Lemma han_shape : ALL_HAN_RE = Seq (Cls HAN) (Opt SELECTOR).
Proof. reflexivity. Qed.

Lemma han_apart : ranges_apart HAN SELECTOR = true.
Proof. vm_compute. reflexivity. Qed.

Lemma hant_length_count (seg : str) :
  _hant_length seg = Z.of_nat (count_in HAN seg).
Proof.
  unfold _hant_length, len, finditer. rewrite texts_of_matched, han_shape.
  f_equal. apply matched_class_opt. intros x. apply ranges_apart_spec.
  exact han_apart.
Qed.

(** ** The feature tables *)

Lemma feature_shapes :
  CANTO_FEATURE_RE
  = Alt (Cls (first_class CANTO_FEATURE_RE)) (rest_of CANTO_FEATURE_RE)
  /\ SWC_FEATURE_RE
     = Alt (Cls (first_class SWC_FEATURE_RE)) (rest_of SWC_FEATURE_RE)
  /\ maxlen (rest_of CANTO_FEATURE_RE) = Some 2
  /\ maxlen (rest_of SWC_FEATURE_RE) = Some 2.
Proof. vm_compute. repeat split. Qed.

Lemma net_count_bounds (feat excl : re) (seg : str) :
  feat = Alt (Cls (first_class feat)) (rest_of feat) ->
  maxlen (rest_of feat) = Some 2 ->
  within (first_class feat) excl = true ->
  (0 <= len (findall feat seg) - len (findall excl seg) <= len seg)%Z.
Proof.
  intros Hs Hm Hw. unfold len, findall. rewrite !matches_of_matched.
  pose proof (@matched_upper _ excl seg Hw 0) as Hu. cbn [skipn] in Hu.
  pose proof (@matched_lower (first_class feat) (rest_of feat) 2 seg Hm
                             (le_n 2)) as Hl.
  rewrite <- Hs in Hl.
  pose proof (scan_length feat seg 0) as Hn.
  assert (Hmn : forall ps, matched ps <= List.length ps).
  { induction ps as [|[c|t cs] ps IH]; simpl; lia. }
  specialize (Hmn (scan feat 0 seg)). lia.
Qed.

End CountFacts.

(* ================================================================== *)
(** * Text without Han characters *)

Module HanFacts.
Import Re Lang ReFacts Tables Py Detector Spec Rounding Count.
Import SizeFacts JudgeFacts NeutralFacts CountFacts.

Lemma inside_lang (f : cclass) (r : re) :
  forall w, inside f r = true -> lang r w ->
            Forall (fun x => in_class f x = true) w.
Proof.
  induction r as [|k|a IHa b IHb|a IHa b IHb|k|k|i r IH]; intros w Hi Hl;
    cbn [inside lang] in *.
  - subst w. constructor.
  - destruct Hl as (x & -> & Hx). constructor; [|constructor].
    eapply class_within_in; eassumption.
  - apply andb_true_iff in Hi. destruct Hi as [Ha Hb].
    destruct Hl as (u & v & -> & Hu & Hv). apply Forall_app. split; auto.
  - apply andb_true_iff in Hi. destruct Hi as [Ha Hb].
    destruct Hl as [Hl|Hl]; auto.
  - eapply Forall_impl; [|exact Hl]. intros x Hx.
    eapply class_within_in; eassumption.
  - destruct Hl as [->|(x & -> & Hx)]; [constructor|].
    constructor; [|constructor]. eapply class_within_in; eassumption.
  - auto.
Qed.

(** Every character of every phrase of the four tables is a Han character. *)
Lemma tables_inside :
  inside HAN CANTO_FEATURE_RE = true /\ inside HAN CANTO_EXCLUDE_RE = true
  /\ inside HAN SWC_FEATURE_RE = true /\ inside HAN SWC_EXCLUDE_RE = true.
Proof. vm_compute. repeat split. Qed.

Lemma han_free_infix (t s : str) : infix t s -> han_free s -> han_free t.
Proof.
  intros (u & v & ->) H. unfold han_free in *.
  apply Forall_app in H. destruct H as [_ H].
  apply Forall_app in H. destruct H as [H _]. exact H.
Qed.

Lemma han_free_join (sep : str) (l : list str) :
  han_free sep -> Forall han_free l -> han_free (join sep l).
Proof.
  intros Hs H. induction H as [|x l Hx Hl IH]; [constructor|].
  destruct l as [|y l]; [exact Hx|].
  rewrite join_cons by discriminate.
  apply Forall_app. split; [exact Hx|]. apply Forall_app. split; assumption.
Qed.

Lemma han_free_free (r : re) (s : str) :
  inside HAN r = true -> nullable r = false -> han_free s -> free r s.
Proof.
  intros Hi Hn Hs u w v -> Hl.
  pose proof (@inside_lang HAN r w Hi Hl) as Hw.
  pose proof (@nullable_lang r w Hn Hl) as Hne.
  destruct w as [|x w]; [congruence|].
  inversion Hw as [|? ? Hx _]; subst.
  apply Forall_app in Hs. destruct Hs as [_ Hs].
  inversion Hs as [|? ? Hx' _]; subst. congruence.
Qed.

Lemma han_free_clean (s : str) : han_free s -> clean s.
Proof.
  intros H. split; apply han_free_free; try exact H;
    try apply tables_inside; apply tables_not_nullable.
Qed.

Lemma han_free_ELLIPSIS : han_free ELLIPSIS.
Proof. repeat constructor. Qed.

Lemma han_free_sub (r : re) (repl s : str) :
  han_free repl -> han_free s -> han_free (sub r repl s).
Proof.
  intros Hr Hs. rewrite sub_join_split. apply han_free_join; [exact Hr|].
  eapply Forall_impl; [|apply split_infix].
  intros p Hp. exact (han_free_infix Hp Hs).
Qed.

(** The value of each match of a scan comes from one of its pieces. *)
Lemma matches_of_in (r : re) (ps : list piece) (vs : list str) :
  In vs (matches_of r ps) ->
  exists text cs, In (Matched text cs) ps /\ vs = match_value r text cs.
Proof.
  induction ps as [|[c|text cs] ps IH]; simpl; [intros []| |].
  - intros H. destruct (IH H) as (t & cs & Hin & E).
    exists t, cs. split; [right; exact Hin|exact E].
  - intros [H|H].
    + exists text, cs. split; [left; reflexivity|symmetry; exact H].
    + destruct (IH H) as (t & cs' & Hin & E).
      exists t, cs'. split; [right; exact Hin|exact E].
Qed.

Lemma han_free_quotes (document : str) :
  han_free document -> han_free (snd (_separate_quotes document)).
Proof.
  intros Hc. unfold _separate_quotes, findall. cbn [snd].
  apply han_free_join; [exact han_free_ELLIPSIS|].
  apply Forall_forall. intros q Hq.
  apply in_map_iff in Hq. destruct Hq as (vs & <- & Hvs).
  pose proof (scan_quotes_values document 0) as HF. rewrite Forall_forall in HF.
  destruct (@matches_of_in _ _ _ Hvs) as (text & cs & Hin & ->).
  specialize (HF _ Hin). simpl in HF. destruct HF as [_ Hi].
  exact (han_free_infix Hi Hc).
Qed.

Lemma han_free_neutral (self : CantoneseDetector) (document : str) :
  small_tolerances self = true -> (len document < MAX_LEN)%Z ->
  han_free document -> judge self document = Ok Neutral.
Proof.
  intros Hs Hlen Hf. apply neutral_judge; [exact Hs|exact Hlen| |].
  - apply feature_free_clean, han_free_clean, Hf.
  - intros _ _. apply feature_free_clean, han_free_clean, han_free_sub;
      [constructor|]. apply han_free_quotes, Hf.
Qed.

End HanFacts.

(* ================================================================== *)
(** * The thresholds, exactly *)

Module ThresholdExact.
Import Py Rounding FloatFacts PyFacts.
Local Open Scope Z_scope.

(** The product of an int below 2^47 and a positive float [c × 2^-k]: a
    positive float [m2 × 2^e2] that no integer separates from the exact
    product [n × c × 2^-k], as long as that integer is two units of [n × 2^-k]
    away from it. *)
Lemma mul_bracket (c : positive) (k n : Z) :
  2 ^ 52 <= Zpos c < 2 ^ 53 -> 53 <= k <= 64 -> 0 < n < 2 ^ 47 ->
  exists m2 e2,
    mul_int_float n (S754_finite false c (- k)) = Ok (S754_finite false m2 e2)
    /\ e2 < 0
    /\ (forall lo, lo * 2 ^ k + 2 * n <= n * Zpos c ->
                   lo * 2 ^ (- e2) < Zpos m2)
    /\ (forall hi, n * Zpos c < hi * 2 ^ k -> Zpos m2 <= hi * 2 ^ (- e2))
    /\ (forall lo, lo * 2 ^ k <= n * Zpos c -> lo * 2 ^ (- e2) <= Zpos m2)
    /\ (forall hi, n * Zpos c + 2 * n < hi * 2 ^ k ->
                   Zpos m2 < hi * 2 ^ (- e2)).
Proof.
  intros Hc Hk Hn.
  change (2 ^ 47) with 140737488355328 in Hn.
  change (2 ^ 52) with 4503599627370496 in Hc.
  change (2 ^ 53) with 9007199254740992 in Hc.
  destruct (@float_of_int_exact n) as (mx & ex & Hx & Hmx & Hex & Hb).
  { change (2 ^ 53) with 9007199254740992. lia. }
  unfold mul_int_float. rewrite Hx. cbn [bind]. unfold fmul.
  cbn [SFmul xorb].
  set (M := Zpos (mx * c)). set (E := ex + - k).
  assert (HM : M = Zpos mx * Zpos c) by reflexivity.
  change (2 ^ 52) with 4503599627370496 in Hb.
  change (2 ^ 53) with 9007199254740992 in Hb.
  assert (HM0 : 0 < M) by reflexivity.
  assert (HdM : 105 <= Zdigits2 M <= 106).
  { split.
    - apply (digits_ge (k := 104)); [lia|].
      change (2 ^ 104) with (4503599627370496 * 4503599627370496). nia.
    - apply digits_le; [lia|lia|].
      change (2 ^ 106) with (9007199254740992 * 9007199254740992). nia. }
  pose proof (digits_bounds HM0) as HMb.
  destruct (bra_shape false E loc_Exact (Z.lt_le_incl _ _ HM0))
    as (m1 & Hm1 & _ & ->).
  assert (Hn1 : sh M E = Zdigits2 M - 53)
    by (unfold sh, E; rewrite fexp_eq; lia).
  rewrite Hn1 in *.
  pose proof (@div_pow_bounds_aux M (Zdigits2 M) (Zdigits2 M - 53)
                                  ltac:(lia) HMb) as Hq.
  replace (Zdigits2 M - 1 - (Zdigits2 M - 53)) with 52 in Hq by lia.
  replace (Zdigits2 M - (Zdigits2 M - 53)) with 53 in Hq by lia.
  change (2 ^ 52) with 4503599627370496 in Hq.
  change (2 ^ 53) with 9007199254740992 in Hq.
  (* the scale of n: more than 2^5, as n is below 2^47 *)
  set (A := 2 ^ (- ex)) in *.
  assert (HA : 32 < A) by nia.
  assert (Hex6 : ex <= -6).
  { destruct (Z_le_gt_dec ex (-6)) as [H|H]; [exact H|exfalso].
    assert (A <= 2 ^ 5) by (apply Z.pow_le_mono_r; lia).
    change (2 ^ 5) with 32 in *. lia. }
  (* the unit D of the shifted product *)
  set (e1 := E + (Zdigits2 M - 53)).
  set (D := 2 ^ (- e1)).
  set (P := 2 ^ k).
  assert (HP : 0 < P) by (apply pow2_pos; lia).
  assert (HD : exists B S, D = A * B /\ 2 ^ (Zdigits2 M - 53) = S
                           /\ S * B = P /\ 0 < B
                           /\ 0 < S <= 9007199254740992).
  { exists (2 ^ (k + 53 - Zdigits2 M)), (2 ^ (Zdigits2 M - 53)).
    split; [|split; [reflexivity|split; [|split]]].
    - unfold D, A, e1, E. rewrite <- Z.pow_add_r by lia. f_equal. lia.
    - unfold P. rewrite <- Z.pow_add_r by lia. f_equal. lia.
    - apply pow2_pos. lia.
    - split; [apply pow2_pos; lia|].
      change 9007199254740992 with (2 ^ 53). apply Z.pow_le_mono_r; lia. }
  destruct HD as (B & S & HDA & HS & HSB & HB & HS0).
  rewrite HS in *.
  assert (HD0 : 0 < D) by nia.
  assert (HMA : M = A * (n * Zpos c)) by (rewrite HM, Hmx; ring).
  assert (HDS : forall x, x * D * S = A * (x * P)).
  { intros x. rewrite HDA, <- HSB. ring. }
  (* the four ways the shifted product stands to an integer *)
  assert (Ha : forall lo, lo * P + 2 * n <= n * Zpos c -> lo * D + 1 <= M / S).
  { intros lo H. apply Z.div_le_lower_bound; [lia|].
    replace (S * (lo * D + 1)) with (lo * D * S + S) by ring.
    rewrite HDS, HMA.
    assert (A * (lo * P + 2 * n) <= A * (n * Zpos c))
      by (apply Z.mul_le_mono_nonneg_l; lia).
    assert (A * (2 * n) = 2 * Zpos mx) by (rewrite Hmx; ring). lia. }
  assert (Hb' : forall hi, n * Zpos c < hi * P -> M / S + 1 <= hi * D).
  { intros hi H. assert (M / S < hi * D); [|lia].
    apply Z.div_lt_upper_bound; [lia|].
    replace (S * (hi * D)) with (hi * D * S) by ring. rewrite HDS, HMA.
    apply Z.mul_lt_mono_pos_l; lia. }
  assert (Hc' : forall lo, lo * P <= n * Zpos c -> lo * D <= M / S).
  { intros lo H. apply Z.div_le_lower_bound; [lia|].
    replace (S * (lo * D)) with (lo * D * S) by ring. rewrite HDS, HMA.
    apply Z.mul_le_mono_nonneg_l; lia. }
  assert (Hd : forall hi, n * Zpos c + 2 * n < hi * P -> M / S + 2 <= hi * D).
  { intros hi H. assert (M / S < hi * D - 1); [|lia].
    apply Z.div_lt_upper_bound; [lia|].
    replace (S * (hi * D - 1)) with (hi * D * S - S) by ring.
    rewrite HDS, HMA.
    assert (A * (n * Zpos c + 2 * n) < A * (hi * P))
      by (apply Z.mul_lt_mono_pos_l; lia).
    assert (A * (2 * n) = 2 * Zpos mx) by (rewrite Hmx; ring). lia. }
  set (q := M / S) in *. clearbody q.
  assert (Hd1 : 53 <= Zdigits2 m1 <= 54).
  { split.
    - apply (digits_ge (k := 52)); [lia|].
      change (2 ^ 52) with 4503599627370496. lia.
    - apply digits_le; [lia|lia|].
      change (2 ^ 54) with 18014398509481984. lia. }
  assert (Hn2 : sh m1 e1 = Zdigits2 m1 - 53)
    by (unfold sh, e1, E; rewrite fexp_eq; lia).
  rewrite Hn2.
  assert (Hm1pos : 0 < m1) by lia.
  pose proof (digits_bounds Hm1pos) as Hm1b.
  assert (He1 : e1 <= -6) by (unfold e1, E; lia).
  assert (Hcase1 : Zdigits2 m1 = 53 \/ Zdigits2 m1 = 54) by lia.
  destruct Hcase1 as [Hd53|Hd54].
  - rewrite Hd53 in *. change (2 ^ (53 - 53)) with 1. rewrite Z.div_1_r.
    replace (e1 + (53 - 53)) with e1 by lia.
    destruct m1 as [|m2|m2]; try lia. unfold build.
    destruct (Z.leb_spec e1 (emax - prec)) as [_|H];
      [|unfold emax, prec in H; lia].
    exists m2, e1. split; [reflexivity|]. split; [lia|]. fold D.
    repeat split; intros x Hx'.
    + specialize (Ha x Hx'). lia.
    + specialize (Hb' x Hx'). lia.
    + specialize (Hc' x Hx'). lia.
    + specialize (Hd x Hx'). lia.
  - rewrite Hd54 in *.
    change (2 ^ (54 - 1)) with 9007199254740992 in Hm1b.
    assert (Em1 : m1 = 9007199254740992) by lia. subst m1.
    change (2 ^ (54 - 53)) with 2.
    change (9007199254740992 / 2) with 4503599627370496.
    unfold build.
    destruct (Z.leb_spec (e1 + (54 - 53)) (emax - prec)) as [_|H];
      [|unfold emax, prec in H; lia].
    eexists _, (e1 + (54 - 53)). split; [reflexivity|]. split; [lia|].
    assert (HD2 : D = 2 * 2 ^ (- (e1 + (54 - 53)))).
    { unfold D. replace (- e1) with (Z.succ (- (e1 + (54 - 53)))) by lia.
      apply Z.pow_succ_r. lia. }
    set (D' := 2 ^ (- (e1 + (54 - 53)))) in *. clearbody D'.
    repeat split; intros x Hx'.
    + specialize (Ha x Hx'). lia.
    + specialize (Hb' x Hx'). lia.
    + specialize (Hc' x Hx'). lia.
    + specialize (Hd x Hx'). lia.
Qed.

Lemma ceil_between (m2 D T : Z) :
  0 < D -> (T - 1) * D < m2 <= T * D -> - (- m2 / D) = T.
Proof.
  intros HD H.
  assert (E : - m2 / D = - T); [|lia].
  symmetry. apply (Z.div_unique_pos (- m2) D (- T) (T * D - m2)); nia.
Qed.

Lemma floor_between (m2 D T : Z) :
  0 < D -> T * D <= m2 < (T + 1) * D -> m2 / D = T.
Proof.
  intros HD H. symmetry.
  apply (Z.div_unique_pos m2 D T (m2 - T * D)); nia.
Qed.

(** A float [c × 2^-k] just below the fraction [p/q]: the ceiling of its
    product with [n] is the ceiling of [n × p / q]. *)
Lemma ceil_scaled (c : positive) (k p q n : Z) :
  2 ^ 52 <= Zpos c < 2 ^ 53 -> 53 <= k <= 64 -> 0 <= n < 2 ^ 47 ->
  0 < q -> q * Zpos c < p * 2 ^ k ->
  n * (2 * q + (p * 2 ^ k - q * Zpos c)) <= 2 ^ k ->
  bind (mul_int_float n (S754_finite false c (- k))) ceil
  = Ok ((p * n + q - 1) / q).
Proof.
  intros Hc Hk Hn Hq Hlt Hsize.
  destruct (Z.eq_dec n 0) as [->|Hn0].
  { rewrite Z.mul_0_r. cbn. f_equal. symmetry. apply Z.div_small. lia. }
  destruct (@mul_bracket c k n Hc Hk ltac:(lia))
    as (m2 & e2 & -> & He2 & Ha & Hb & _ & _).
  cbn [bind ceil cond_Zopp].
  destruct (Z.leb_spec 0 e2) as [H|_]; [lia|]. f_equal.
  set (T := (p * n + q - 1) / q).
  assert (HT : p * n <= q * T <= p * n + q - 1).
  { unfold T. Z.div_mod_to_equations. nia. }
  clearbody T.
  assert (HP : 0 < 2 ^ k) by (apply pow2_pos; lia).
  set (P := 2 ^ k) in *. clearbody P.
  apply ceil_between; [apply pow2_pos; lia|]. split.
  - apply Ha. nia.
  - apply Hb. nia.
Qed.

(** A float [c × 2^-k] just above the fraction [p/q]: the floor of its
    product with [n] is the floor of [n × p / q]. *)
Lemma floor_scaled (c : positive) (k p q n : Z) :
  2 ^ 52 <= Zpos c < 2 ^ 53 -> 53 <= k <= 64 -> 0 <= n < 2 ^ 47 ->
  0 < q -> p * 2 ^ k < q * Zpos c ->
  n * (2 * q + (q * Zpos c - p * 2 ^ k)) < 2 ^ k ->
  bind (mul_int_float n (S754_finite false c (- k))) floor
  = Ok (p * n / q).
Proof.
  intros Hc Hk Hn Hq Hlt Hsize.
  destruct (Z.eq_dec n 0) as [->|Hn0].
  { rewrite Z.mul_0_r. reflexivity. }
  destruct (@mul_bracket c k n Hc Hk ltac:(lia))
    as (m2 & e2 & -> & He2 & _ & _ & Hc' & Hd).
  cbn [bind floor cond_Zopp].
  destruct (Z.leb_spec 0 e2) as [H|_]; [lia|]. f_equal.
  set (T := p * n / q).
  assert (HT : q * T <= p * n <= q * T + q - 1).
  { unfold T. Z.div_mod_to_equations. nia. }
  clearbody T.
  assert (HP : 0 < 2 ^ k) by (apply pow2_pos; lia).
  set (P := 2 ^ k) in *. clearbody P.
  apply floor_between; [apply pow2_pos; lia|]. split.
  - apply Hc'. nia.
  - apply Hd.
    assert (q * (n * Zpos c + 2 * n) < q * ((T + 1) * P)); [|nia].
    assert (p * n * P + P <= q * (T + 1) * P) by nia. lia.
Qed.

(** [0.95] is stored just below 19/20, [0.03] just below 3/100 and [0.01]
    just above 1/100; below 2^47 the rounding of the products never moves
    the ceiling or the floor. *)
Lemma threshold_exact (n : Z) :
  0 <= n < 2 ^ 47 ->
  bind (mul_int_float n f0_95) ceil = Ok ((19 * n + 19) / 20).
Proof.
  intros Hn.
  replace (19 * n + 19) with (19 * n + 20 - 1) by lia.
  apply (@ceil_scaled 8556839292003942 53 19 20 n); try lia;
    try (split; reflexivity); try reflexivity;
    change (2 ^ 53) with 9007199254740992;
    change (2 ^ 47) with 140737488355328 in Hn; lia.
Qed.

Lemma presence_exact (L : Z) :
  0 <= L < 2 ^ 47 ->
  bind (mul_float_int f0_03 L) ceil = Ok ((3 * L + 99) / 100).
Proof.
  intros Hn. rewrite <- mul_int_float_comm.
  replace (3 * L + 99) with (3 * L + 100 - 1) by lia.
  apply (@ceil_scaled 8646911284551352 58 3 100 L); try lia;
    try (split; reflexivity); try reflexivity;
    change (2 ^ 58) with 288230376151711744;
    change (2 ^ 47) with 140737488355328 in Hn; lia.
Qed.

Lemma tolerance_exact (L : Z) :
  0 <= L < 2 ^ 47 ->
  bind (mul_float_int f0_01 L) floor = Ok (L / 100).
Proof.
  intros Hn. rewrite <- mul_int_float_comm.
  replace L with (1 * L) at 2 by lia.
  apply (@floor_scaled 5764607523034235 59 1 100 L); try lia;
    try (split; reflexivity); try reflexivity;
    change (2 ^ 59) with 576460752303423488;
    change (2 ^ 47) with 140737488355328 in Hn; lia.
Qed.

End ThresholdExact.

(* ================================================================== *)
(** * The Aggregator, piece by piece *)

Module AggregateFacts.
Import Re Lang ReFacts Tables Py Detector Spec Rounding Count Aggregate.
Import PyFacts SizeFacts JudgeFacts ThresholdExact.
Local Open Scope Z_scope.

(** ** The labels of a segment *)

Lemma segment_judge_four (cfg : CantoneseDetector) (c s L : Z) (l : Label) :
  segment_judge cfg c s L = Some l -> first_four l.
Proof.
  unfold segment_judge, first_four.
  destruct (floor_of _ L); [|discriminate].
  destruct (floor_of _ L); [|discriminate].
  destruct (_ || _); [intros E; injection E as <-; tauto|].
  destruct (ceil_of _ L); [|discriminate].
  destruct (ceil_of _ L); [|discriminate].
  destruct (dominance c s _) as [p1|]; [|discriminate].
  destruct (dominance s c _) as [p2|]; [|discriminate].
  intros E. injection E as <-.
  destruct (p1 && _); [tauto|]. destruct (p2 && _); tauto.
Qed.

Lemma single_segment_four (self : CantoneseDetector) (seg : str) (l : Label) :
  _judge_single_segment self seg = Ok l -> first_four l.
Proof.
  intros H. apply (f_equal (@defined Label)) in H.
  unfold _judge_single_segment in H. rewrite judge_features_spec in H.
  eapply segment_judge_four. exact H.
Qed.

Lemma decide_four (js : list Label) (th : Z) : first_four (decide js th).
Proof.
  unfold decide, first_four.
  destruct (_ >=? th); [tauto|]. destruct (_ >=? th); [tauto|].
  destruct (_ >=? th); tauto.
Qed.

(** ** [_judge_segments] in one equation *)

Lemma judge_segments_eq (self : CantoneseDetector) (document : str) :
  _judge_segments self document
  = bind (mapM (_judge_single_segment self) (segments document))
         (fun js => bind (bind (mul_int_float (len js) f0_95) ceil)
                         (fun th => Ok (decide js th))).
Proof.
  unfold _judge_segments, segments, decide, len.
  destruct (mapM _ _) as [js|e]; cbn [bind]; [|reflexivity].
  rewrite (total_count_all label_eqb), !tally_get.
  rewrite <- bind_assoc.
  destruct (bind (mul_int_float _ f0_95) ceil) as [th|e]; cbn [bind];
    [|reflexivity].
  destruct (tally js Neutral >=? th); [reflexivity|].
  destruct (tally js Cantonese + tally js Neutral >=? th); [reflexivity|].
  destruct (tally js SWC + tally js Neutral >=? th); reflexivity.
Qed.

Lemma segments_four (self : CantoneseDetector) (document : str) (l : Label) :
  _judge_segments self document = Ok l -> first_four l.
Proof.
  rewrite judge_segments_eq.
  destruct (mapM _ _) as [js|e]; cbn [bind]; [|discriminate].
  destruct (bind (mul_int_float _ f0_95) ceil) as [th|e]; cbn [bind];
    [|discriminate].
  intros E. injection E as <-. apply decide_four.
Qed.

Lemma document_four (self : CantoneseDetector) (document : str) (l : Label) :
  _judge_document self document = Ok l -> first_four l.
Proof.
  unfold _judge_document. destruct (split_seg self);
    [apply segments_four|apply single_segment_four].
Qed.

Lemma mapM_Forall {A B : Type} (P : B -> Prop) (f : A -> result B) :
  (forall a b, f a = Ok b -> P b) ->
  forall l bs, mapM f l = Ok bs -> Forall P bs /\ List.length bs = List.length l.
Proof.
  intros Hf. induction l as [|a l IH]; intros bs; cbn [mapM].
  - intros E. injection E as <-. split; [constructor|reflexivity].
  - destruct (f a) as [b|e] eqn:Ea; cbn [bind]; [|discriminate].
    destruct (mapM f l) as [bs'|e]; cbn [bind]; [|discriminate].
    intros E. injection E as <-. destruct (IH bs' eq_refl) as [H1 H2].
    split; [constructor; [eapply Hf; exact Ea|exact H1]|simpl; congruence].
Qed.

Lemma mapM_app {A B : Type} (f : A -> result B) (x y : list A) :
  mapM f (x ++ y)
  = bind (mapM f x) (fun a => bind (mapM f y) (fun b => Ok (a ++ b))).
Proof.
  induction x as [|a x IH]; cbn [mapM app bind].
  - destruct (mapM f y); reflexivity.
  - destruct (f a) as [b|e]; cbn [bind]; [|reflexivity].
    rewrite IH. destruct (mapM f x) as [bs|e]; cbn [bind]; [|reflexivity].
    destruct (mapM f y); reflexivity.
Qed.

(** ** Counting the judgements *)

Lemma tally_app (a b : list Label) (x : Label) :
  tally (a ++ b) x = tally a x + tally b x.
Proof. unfold tally. rewrite filter_app, length_app. lia. Qed.

Lemma tally_four (js : list Label) :
  Forall first_four js ->
  tally js Neutral + tally js Cantonese + tally js SWC + tally js Mixed = len js.
Proof.
  unfold tally, len. induction 1 as [|l js Hl _ IH]; [reflexivity|].
  cbn [filter List.length].
  destruct Hl as [->|[->|[->| ->]]]; cbn [label_eqb List.length]; lia.
Qed.

Lemma tally_nonneg (js : list Label) (x : Label) : 0 <= tally js x.
Proof. unfold tally. lia. Qed.

(** With the exact threshold, the decision is the one told by the dissenting
    judgements. *)
Lemma decide_tolerant (js : list Label) :
  Forall first_four js ->
  decide js ((19 * len js + 19) / 20) = tolerant js.
Proof.
  intros H. pose proof (tally_four H) as Hs. unfold decide, tolerant.
  set (n := len js) in *. assert (Hn : 0 <= n) by (unfold n, len; lia).
  clearbody n.
  assert (Hth : (19 * n + 19) / 20 = n - n / 20)
    by (Z.div_mod_to_equations; lia).
  rewrite Hth. set (k := n / 20) in *. clearbody k.
  pose proof (tally_nonneg js Neutral). pose proof (tally_nonneg js Cantonese).
  pose proof (tally_nonneg js SWC). pose proof (tally_nonneg js Mixed).
  destruct (Z.geb_spec (tally js Neutral) (n - k));
    destruct (Z.leb_spec (n - tally js Neutral) k); try lia; [reflexivity|].
  destruct (Z.geb_spec (tally js Cantonese + tally js Neutral) (n - k));
    destruct (Z.leb_spec (tally js SWC + tally js Mixed) k); try lia;
    [reflexivity|].
  destruct (Z.geb_spec (tally js SWC + tally js Neutral) (n - k));
    destruct (Z.leb_spec (tally js Cantonese + tally js Mixed) k); try lia;
    reflexivity.
Qed.

Lemma judge_segments_tolerant (self : CantoneseDetector) (document : str)
      (js : list Label) :
  mapM (_judge_single_segment self) (segments document) = Ok js ->
  len js < 2 ^ 47 ->
  _judge_segments self document = Ok (tolerant js).
Proof.
  intros E Hn. rewrite judge_segments_eq, E. cbn [bind].
  rewrite threshold_exact by (unfold len in *; lia). cbn [bind].
  f_equal. apply decide_tolerant.
  eapply (@mapM_Forall _ _ first_four); [|exact E].
  intros a b. apply single_segment_four.
Qed.

(** ** Splitting at delimiters *)

Lemma delimiters_shape : ALL_DELIMITERS_RE = Cls DELIMITER.
Proof. reflexivity. Qed.

Lemma scan_class (k : cclass) (s : str) :
  scan (Cls k) 0 s
  = map (fun c => if in_class k c then Matched [c] [] else Unmatched c) s.
Proof.
  induction s as [|c s IH]; [reflexivity|].
  cbn [scan map]. unfold match_at. cbn [run].
  destruct (in_class k c).
  - change (c :: s) with ([c] ++ s). rewrite consumed_app.
    cbn [List.length]. rewrite IH. reflexivity.
  - rewrite IH. reflexivity.
Qed.

Lemma cut_app (ps1 ps2 : list piece) (t : str) (cs : caps) :
  forall cur, cut (ps1 ++ Matched t cs :: ps2) cur = cut ps1 cur ++ cut ps2 [].
Proof.
  induction ps1 as [|[c|t' cs'] ps1 IH]; intros cur; cbn [cut app].
  - reflexivity.
  - apply IH.
  - rewrite IH. reflexivity.
Qed.

Lemma split_app (k : cclass) (d : Z) (a b : str) :
  in_class k d = true ->
  split (Cls k) (a ++ d :: b) = split (Cls k) a ++ split (Cls k) b.
Proof.
  intros Hd. unfold split. rewrite !scan_class, map_app. cbn [map].
  rewrite Hd. apply cut_app.
Qed.

Lemma segments_app (d : Z) (a b : str) :
  in_class DELIMITER d = true ->
  segments (a ++ d :: b) = segments a ++ segments b.
Proof.
  intros Hd. unfold segments. rewrite delimiters_shape, (@split_app _ _ a b Hd).
  apply filter_app.
Qed.

Lemma cut_unmatched (s : str) :
  forall cur, cut (map Unmatched s) cur = [rev cur ++ s].
Proof.
  induction s as [|c s IH]; intros cur; cbn [map cut].
  - rewrite app_nil_r. reflexivity.
  - rewrite IH. cbn [rev]. rewrite <- app_assoc. reflexivity.
Qed.

(** A document without delimiters is one piece. *)
Lemma split_none (k : cclass) (s : str) :
  Forall (fun c => in_class k c = false) s -> split (Cls k) s = [s].
Proof.
  intros H. unfold split. rewrite scan_class.
  rewrite (map_ext_Forall _ Unmatched).
  - apply (cut_unmatched s []).
  - eapply Forall_impl; [|exact H]. intros c Hc. cbn beta. rewrite Hc.
    reflexivity.
Qed.

Lemma infix_forallb (f : Z -> bool) (t s : str) :
  infix t s -> forallb f s = true -> forallb f t = true.
Proof.
  intros (u & v & ->). rewrite !forallb_app. intros H.
  apply andb_true_iff in H. destruct H as [_ H].
  apply andb_true_iff in H. destruct H as [H _]. exact H.
Qed.

(** A blank text has no segment. *)
Lemma segments_blank (w : str) : forallb isspace w = true -> segments w = [].
Proof.
  intros H. unfold segments.
  pose proof (split_infix ALL_DELIMITERS_RE w) as Hi.
  induction Hi as [|p l Hp _ IH]; [reflexivity|].
  cbn [filter]. rewrite truthy_strip, (@infix_forallb _ _ _ Hp H). exact IH.
Qed.

Lemma threshold_one : bind (mul_int_float 1 f0_95) ceil = Ok 1.
Proof. reflexivity. Qed.

End AggregateFacts.

(* ================================================================== *)
(** * More on the Quote Separator and the Reconciler *)

Module ReconcileFacts.
Import Re Lang ReFacts Tables Py Detector Spec Count Aggregate.
Import ScanFacts SizeFacts QuoteFacts SeparatorFacts JudgeFacts.
Import CountFacts AggregateFacts.
Local Open Scope nat_scope.

Lemma replace_one_length (x : Z) (ps : list piece) :
  List.length (replace [x] ps) = List.length ps.
Proof.
  induction ps as [|[c|t cs] ps IH]; simpl; [reflexivity| |]; rewrite IH;
    reflexivity.
Qed.

(** Each match of [ALL_QUOTEMARKS_RE] is its content and the two marks. *)
Lemma scan_quotes_exact (s : str) (k : nat) :
  Forall (fun p => match p with
                   | Unmatched _ => True
                   | Matched text cs =>
                     List.length (join [] (match_value ALL_QUOTEMARKS_RE text cs))
                     + 2 = List.length text
                   end) (scan ALL_QUOTEMARKS_RE k s).
Proof.
  apply Forall_forall. intros [c|text cs] Hin; [exact I|].
  apply scan_matched in Hin. destruct Hin as (u & t & -> & E).
  apply match_at_quotes_shape in E.
  destruct E as (o & c & inner & r & _ & -> & -> & _ & _ & ->).
  simpl. rewrite length_app. simpl. lia.
Qed.

Lemma contents_exact (ps : list piece) :
  Forall (fun p => match p with
                   | Unmatched _ => True
                   | Matched text cs =>
                     List.length (join [] (match_value ALL_QUOTEMARKS_RE text cs))
                     + 2 = List.length text
                   end) ps ->
  List.length (replace ELLIPSIS ps)
  + list_sum (map (fun x => List.length x + 1)
                  (map (join []) (matches_of ALL_QUOTEMARKS_RE ps)))
  = weight ps.
Proof.
  induction 1 as [|[c|text cs] ps Hp _ IH]; [reflexivity| |].
  - cbn [replace matches_of weight List.length Nat.add]. f_equal. exact IH.
  - cbn [replace matches_of weight map].
    match goal with
    | |- context [list_sum (?h :: ?t)] =>
      change (list_sum (h :: t)) with (h + list_sum t)
    end.
    rewrite length_app. change (List.length ELLIPSIS) with 1.
    rewrite <- IH, <- Hp.
    set (a := list_sum _). clearbody a.
    set (b := List.length (replace _ _)). clearbody b.
    set (d := List.length (join _ _)). clearbody d. lia.
Qed.

Lemma join_length_exact (sep : str) (l : list str) :
  l <> [] ->
  List.length (join sep l) + List.length sep
  = list_sum (map (fun x => List.length x + List.length sep) l).
Proof.
  induction l as [|x l IH]; [congruence|]. intros _.
  destruct l as [|y l]; [simpl; lia|].
  rewrite join_cons by discriminate. rewrite !length_app.
  specialize (IH ltac:(discriminate)).
  change (map ?f (x :: ?t)) with (f x :: map f t).
  change (list_sum (?h :: ?t)) with (h + list_sum t).
  cbv beta. rewrite <- IH. lia.
Qed.

(** Separating the quotes loses the quote marks and nothing else. *)
Lemma separate_lengths (document : str) :
  findall ALL_QUOTEMARKS_RE document <> [] ->
  List.length (fst (_separate_quotes document))
  + List.length (snd (_separate_quotes document)) + 1
  = List.length document.
Proof.
  intros Hne. unfold _separate_quotes, sub, findall in *. cbn [fst snd].
  pose proof (@contents_exact _ (scan_quotes_exact document 0)) as H1.
  pose proof (@scan_exact ALL_QUOTEMARKS_RE document 0 (Nat.le_0_l _)) as H2.
  pose proof (@join_length_exact ELLIPSIS
                (map (join []) (matches_of ALL_QUOTEMARKS_RE
                                           (scan ALL_QUOTEMARKS_RE 0 document))))
    as H3.
  change (List.length ELLIPSIS) with 1 in H3.
  assert (H4 : map (join []) (matches_of ALL_QUOTEMARKS_RE
                                         (scan ALL_QUOTEMARKS_RE 0 document))
               <> []).
  { intros E. apply map_eq_nil in E. exact (Hne E). }
  specialize (H3 H4). lia.
Qed.

(** Without a quoted span the document is its own matrix. *)
Lemma separate_none (document : str) :
  findall ALL_QUOTEMARKS_RE document = [] ->
  _separate_quotes document = (document, []).
Proof.
  intros H. unfold _separate_quotes. rewrite H. unfold sub.
  unfold findall in H. rewrite (scan_no_match _ _ H), replace_unmatched.
  reflexivity.
Qed.

(** When the matrix is the placeholder alone. *)
Lemma whole_quote_iff (document : str) :
  fst (_separate_quotes document) = ELLIPSIS
  <-> document = ELLIPSIS
      \/ exists o c inner,
           In (o, c) quote_styles /\ ~ In o inner
           /\ document = o :: inner ++ [c].
Proof.
  split.
  - unfold _separate_quotes, sub. cbn [fst]. intros H.
    pose proof (@scan_exact ALL_QUOTEMARKS_RE document 0 (Nat.le_0_l _)) as Hw.
    pose proof (replace_one_length 8230 (scan ALL_QUOTEMARKS_RE 0 document)) as Hl.
    change [8230%Z] with ELLIPSIS in Hl. rewrite H in Hl. cbn [List.length] in Hl.
    destruct document as [|x s]; [discriminate H|].
    cbn [scan] in *.
    destruct (match_at ALL_QUOTEMARKS_RE (x :: s)) as [[text cs]|] eqn:E.
    + destruct (List.length text) as [|n] eqn:El.
      * cbn [List.length weight replace] in *.
        destruct (scan ALL_QUOTEMARKS_RE 0 s); [|discriminate Hl].
        cbn [weight] in Hw. destruct s; [|simpl in Hw; lia].
        left. injection H as ->. reflexivity.
      * cbn [List.length weight] in *.
        destruct (scan ALL_QUOTEMARKS_RE n s); [|discriminate Hl].
        cbn [weight] in Hw. right.
        pose proof (match_at_sound _ _ E) as (s' & Es & _).
        assert (s' = []).
        { apply (f_equal (@List.length Z)) in Es. rewrite length_app in Es.
          cbn [List.length] in Es. destruct s'; [reflexivity|simpl in Es; lia]. }
        subst s'. rewrite app_nil_r in Es.
        apply match_at_quotes_shape in E.
        destruct E as (o & c & inner & r & Hin & _ & Et & Ho & _ & _).
        exists o, c, inner. repeat split; [exact Hin|exact Ho|].
        rewrite Es. exact Et.
    + cbn [List.length weight replace] in *.
      destruct (scan ALL_QUOTEMARKS_RE 0 s); [|discriminate Hl].
      cbn [weight] in Hw. destruct s; [|simpl in Hw; lia].
      left. injection H as ->. reflexivity.
  - intros [->|(o & c & inner & Hin & Ho & ->)]; [reflexivity|].
    rewrite (separate_whole_span _ Hin Ho). reflexivity.
Qed.

Lemma str_eqb_true (a b : str) : str_eqb a b = true <-> a = b.
Proof.
  unfold str_eqb. destruct (list_eq_dec Z.eq_dec a b); split; intros H;
    try reflexivity; try assumption; try discriminate. contradiction.
Qed.

Lemma str_eqb_false (a b : str) : str_eqb a b = false <-> a <> b.
Proof.
  unfold str_eqb. destruct (list_eq_dec Z.eq_dec a b); split; intros H;
    try reflexivity; try assumption; try discriminate. contradiction.
Qed.

(** A document without a quoted span is judged as without [get_quote]. *)
Lemma matrix_quotes_none (self : CantoneseDetector) (document : str) :
  findall ALL_QUOTEMARKS_RE document = [] -> document <> ELLIPSIS ->
  _judge_matrix_quotes self document = _judge_document self document.
Proof.
  intros H Hne. unfold _judge_matrix_quotes. rewrite (separate_none _ H).
  rewrite (proj2 (str_eqb_false _ _) Hne). reflexivity.
Qed.

(** The two labels of a matrix and its quotes that disagree, neither being
    Neutral, and the label the Reconciler gives them. *)
Lemma matrix_quotes_inv (self : CantoneseDetector) (document : str) (l : Label) :
  _judge_matrix_quotes self document = Ok l ->
  first_four l
  \/ fst (_separate_quotes document) <> ELLIPSIS
     /\ snd (_separate_quotes document) <> []
     /\ _judge_document self (fst (_separate_quotes document)) = Ok SWC
     /\ (l = CantoneseQuotesInSWC
         /\ _judge_document self (snd (_separate_quotes document)) = Ok Cantonese
         \/ l = MixedQuotesInSWC
            /\ _judge_document self (snd (_separate_quotes document)) = Ok Mixed).
Proof.
  unfold _judge_matrix_quotes.
  destruct (_separate_quotes document) as [matrix quotes]. cbn [fst snd].
  destruct (str_eqb matrix ELLIPSIS) eqn:E1.
  { intros H. left. eapply document_four. exact H. }
  destruct (str_eqb quotes []) eqn:E2.
  { intros H. left. eapply document_four. exact H. }
  apply str_eqb_false in E1. apply str_eqb_false in E2.
  destruct (_judge_document self matrix) as [m|e] eqn:Em; cbn [bind];
    [|discriminate].
  destruct (_judge_document self quotes) as [q|e] eqn:Eq; cbn [bind];
    [|discriminate].
  pose proof (document_four _ _ Em) as Hm.
  pose proof (document_four _ _ Eq) as Hq.
  intros H.
  destruct Hm as [->|[->|[->| ->]]]; destruct Hq as [->|[->|[->| ->]]];
    cbn in H; injection H as <-;
    try (left; unfold first_four; tauto);
    right; repeat split; try assumption; tauto.
Qed.

End ReconcileFacts.

(* ================================================================== *)
(** * The command line and the loader of test sentences *)

Module CliFacts.
Import Re Tables Py Detector Spec Rounding Cli.
Import PyFacts JudgeFacts AggregateFacts ReconcileFacts.
Local Open Scope Z_scope.

Lemma default_small (split quote : bool) :
  small_thresholds (default_detector split quote) = true.
Proof. reflexivity. Qed.

Lemma lstrip_length (s : str) : (List.length (lstrip s) <= List.length s)%nat.
Proof.
  induction s as [|c s IH]; [simpl; lia|]. cbn [lstrip].
  destruct (isspace c); simpl in *; lia.
Qed.

Lemma strip_length (s : str) : (List.length (strip s) <= List.length s)%nat.
Proof.
  unfold strip. rewrite length_rev.
  pose proof (lstrip_length (rev (lstrip s))) as H1.
  rewrite length_rev in H1. pose proof (lstrip_length s). lia.
Qed.

(** Without [get_quote] the judgement is one of the first four labels. *)
Lemma judge_four (self : CantoneseDetector) (document : str) (l : Label) :
  get_quote self = false -> judge self document = Ok l -> first_four l.
Proof.
  unfold judge. intros ->. apply document_four.
Qed.

Lemma write_line_total (split quotes : bool) (mode line : str) :
  len line < MAX_LEN ->
  exists l,
    write_line (default_detector split quotes) mode line
    = Ok (label_str l
          ++ (if str_eqb mode (Utf8.text "full") then 9 :: strip line else [])
          ++ [10])
    /\ In l six_labels /\ (quotes = false -> first_four l).
Proof.
  intros Hlen. unfold write_line.
  destruct (@judge_total (default_detector split quotes) (strip line))
    as (l & E & Hl).
  { apply default_small. }
  { pose proof (strip_length line). unfold len in *. lia. }
  exists l. rewrite E. cbn [bind]. split; [|split; [exact Hl|]].
  - destruct (str_eqb mode _); [|reflexivity].
    rewrite <- app_assoc. reflexivity.
  - intros ->. eapply judge_four; [|exact E]. reflexivity.
Qed.

Lemma main_loop_total (split quotes : bool) (mode : str) (lines : list str) :
  Forall (fun line => len line < MAX_LEN) lines ->
  forall stdout,
  exists ls,
    Forall2 (fun line l => judge (default_detector split quotes) (strip line) = Ok l)
            lines ls
    /\ main_loop (default_detector split quotes) mode lines stdout
       = (stdout
          ++ concat (map (fun x =>
                            label_str (snd x)
                            ++ (if str_eqb mode (Utf8.text "full")
                                then 9 :: strip (fst x) else [])
                            ++ [10])
                         (combine lines ls)),
          None).
Proof.
  induction 1 as [|line lines Hl _ IH]; intros stdout.
  - exists []. split; [constructor|]. cbn. rewrite app_nil_r. reflexivity.
  - cbn [main_loop]. unfold write_line.
    destruct (@judge_total (default_detector split quotes) (strip line))
      as (l & E & _).
    { apply default_small. }
    { pose proof (strip_length line). unfold len in *. lia. }
    rewrite E. cbn [bind].
    match goal with
    | |- context [main_loop _ _ _ ?o] => destruct (IH o) as (ls & HF & ->)
    end.
    exists (l :: ls). split; [constructor; assumption|].
    cbn [combine map concat fst snd]. f_equal.
    destruct (str_eqb mode _); rewrite <- !app_assoc; reflexivity.
Qed.

End CliFacts.

Module TestJudgeFacts.
Import Py TestJudge PyFacts.
Local Open Scope Z_scope.

Lemma split_bar_nonempty (line : str) : split_bar line <> [].
Proof.
  destruct line as [|c rest]; cbn [split_bar]; [discriminate|].
  destruct (c =? BAR); [discriminate|].
  destruct (split_bar rest); discriminate.
Qed.













End TestJudgeFacts.

(* ================================================================== *)
(** * The phrases of the exclusion tables, one by one *)

Module PhraseFacts.
Import Re Lang ReFacts Tables Py Detector Spec Count.
Local Open Scope Z_scope.

Lemma chars_of_in (k : cclass) (cs : list Z) (x : Z) :
  chars_of k = Some cs -> in_class k x = true -> In x cs.
Proof.
  unfold chars_of, in_class, in_ranges.
  destruct (negated k); [discriminate|].
  destruct (forallb _ (ranges k)) eqn:Ef; [|discriminate].
  intros E Hx. injection E as <-. cbn [xorb] in Hx.
  apply existsb_exists in Hx. destruct Hx as ([a b] & Hin & Hab).
  rewrite forallb_forall in Ef. specialize (Ef _ Hin). cbn [fst snd] in *.
  apply in_map_iff. exists (a, b). split; [cbn [fst]; lia|exact Hin].
Qed.

(** Every text the pattern matches is listed. *)
Lemma words_complete (r : re) :
  forall l w, words r = Some l -> lang r w -> In w l.
Proof.
  induction r as [|k|a IHa b IHb|a IHa b IHb|k|k|i r IH]; intros l w Hw Hl;
    cbn [words lang] in *.
  - injection Hw as <-. left. symmetry. exact Hl.
  - destruct (chars_of k) as [cs|] eqn:Ec; [|discriminate]. injection Hw as <-.
    destruct Hl as (x & -> & Hx). apply (in_map (fun y => [y])).
    eapply chars_of_in; eassumption.
  - destruct (words a) as [la|]; [|discriminate].
    destruct (words b) as [lb|]; [|discriminate]. injection Hw as <-.
    destruct Hl as (u & v & -> & Hu & Hv). apply in_flat_map.
    exists u. split; [apply IHa; [reflexivity|exact Hu]|].
    apply (in_map (fun v0 => u ++ v0)). apply IHb; [reflexivity|exact Hv].
  - destruct (words a) as [la|]; [|discriminate].
    destruct (words b) as [lb|]; [|discriminate]. injection Hw as <-.
    apply in_or_app. destruct Hl as [Hl|Hl]; [left|right]; auto.
  - discriminate.
  - destruct (chars_of k) as [cs|] eqn:Ec; [|discriminate]. injection Hw as <-.
    destruct Hl as [->|(x & -> & Hx)]; [left; reflexivity|right].
    apply (in_map (fun y => [y])). eapply chars_of_in; eassumption.
  - auto.
Qed.

Lemma words_check (r : re) (p : str -> bool) (w : str) :
  words r <> None -> forallb p (words_or_nil r) = true -> lang r w ->
  p w = true.
Proof.
  unfold words_or_nil. destruct (words r) as [l|] eqn:E; [|congruence].
  intros _ Hp Hl. rewrite forallb_forall in Hp. apply Hp.
  eapply words_complete; eassumption.
Qed.

Lemma exclude_words :
  words CANTO_EXCLUDE_RE <> None /\ words SWC_EXCLUDE_RE <> None.
Proof. split; vm_compute; discriminate. Qed.

Lemma canto_exclude_check :
  forallb (fun w => canto_feature_count (_get_segment_features w) =? 0)
          (words_or_nil CANTO_EXCLUDE_RE) = true.
Proof. vm_compute. reflexivity. Qed.

Lemma swc_exclude_check :
  forallb (fun w => (0 <=? swc_feature_count (_get_segment_features w))
                    && (swc_feature_count (_get_segment_features w) <=? 1))
          (words_or_nil SWC_EXCLUDE_RE) = true.
Proof. vm_compute. reflexivity. Qed.

End PhraseFacts.

(* ================================================================== *)
(** * Segments with features of one kind *)

Module PureFacts.
Import Re Lang ReFacts Tables Py Detector Spec Rounding Count.
Import PyFacts FloatFacts ThresholdExact SizeFacts JudgeFacts CountFacts HanFacts.
Local Open Scope Z_scope.

(** [c / c] is [1.0] and [0 / c] is [0.0]. *)
Lemma div_self (p : positive) : int_truediv (Zpos p) (Zpos p) = Ok f1_0.
Proof.
  unfold int_truediv, exact. cbn [Z.eqb]. unfold SFdiv, SFdiv_core_binary.
  rewrite Z.sub_diag, !Z.add_0_r, Z.sub_diag.
  change (Z.min (fexp prec emax 0) 0) with (-53).
  change (0 - -53) with 53. cbv iota.
  rewrite Z.shiftl_mul_pow2, Z.mul_comm by lia.
  pose proof (Z.div_mul (2 ^ 53) (Zpos p) ltac:(lia)) as Hq.
  pose proof (Z.mod_mul (2 ^ 53) (Zpos p) ltac:(lia)) as Hr.
  unfold Z.div in Hq. unfold Z.modulo in Hr.
  destruct (Z.div_eucl (2 ^ 53 * Zpos p) (Zpos p)) as [q r]. subst q r.
  replace (new_location (Zpos p) 0) with loc_Exact
    by (unfold new_location; destruct (Z.even (Zpos p)); reflexivity).
  reflexivity.
Qed.

Lemma div_zero (p : positive) :
  int_truediv 0 (Zpos p) = Ok (S754_zero false).
Proof. reflexivity. Qed.

Lemma floor_of_default (L : Z) :
  0 <= L < 2 ^ 47 -> floor_of f0_01 L = Some (L / 100).
Proof. intros H. unfold floor_of. rewrite tolerance_exact by exact H. reflexivity. Qed.

Lemma ceil_of_default (L : Z) :
  0 <= L < 2 ^ 47 -> ceil_of f0_03 L = Some ((3 * L + 99) / 100).
Proof. intros H. unfold ceil_of. rewrite presence_exact by exact H. reflexivity. Qed.

Lemma dominance_pure (p : positive) :
  dominance (Zpos p) 0 (Zpos p) = Some true
  /\ dominance 0 (Zpos p) (Zpos p) = Some false.
Proof. unfold dominance. rewrite div_self, div_zero. split; reflexivity. Qed.

(** With the default thresholds, features of one kind only: Neutral up to one
    in a hundred Han characters, and the label of that kind above. *)
Lemma segment_judge_pure (split quote : bool) (n L : Z) :
  0 < n -> 1 <= L < 2 ^ 47 ->
  segment_judge (default_detector split quote) n 0 L
  = Some (if n <=? L / 100 then Neutral else Cantonese)
  /\ segment_judge (default_detector split quote) 0 n L
     = Some (if n <=? L / 100 then Neutral else SWC).
Proof.
  intros Hn HL. unfold segment_judge.
  cbn [canto_tolerance swc_tolerance canto_presence swc_presence
       default_detector].
  rewrite floor_of_default, ceil_of_default by lia.
  assert (H0 : 0 <= L / 100) by (apply Z.div_pos; lia).
  assert (H1 : 1 <= (3 * L + 99) / 100)
    by (apply Z.div_le_lower_bound; lia).
  destruct n as [|p|p]; try lia.
  destruct (dominance_pure p) as [D1 D2].
  rewrite Z.add_0_r, Z.add_0_l, D1, D2.
  replace (0 <=? L / 100) with true by (symmetry; apply Z.leb_le; exact H0).
  replace (0 >=? (3 * L + 99) / 100) with false
    by (symmetry; rewrite Z.geb_leb; apply Z.leb_gt; lia).
  cbn [Z.eqb orb andb negb].
  rewrite andb_true_r. split; destruct (Zpos p <=? L / 100); reflexivity.
Qed.

(** Every match of a feature table holds a Han character, so a net count is
    at most the Han length. *)
Lemma features_within_han :
  within HAN CANTO_FEATURE_RE = true /\ within HAN SWC_FEATURE_RE = true.
Proof. vm_compute. split; reflexivity. Qed.

Lemma findall_le_han (r : re) (seg : str) :
  within HAN r = true -> len (findall r seg) <= _hant_length seg.
Proof.
  intros H. rewrite hant_length_count. unfold len, findall.
  rewrite matches_of_matched.
  pose proof (@matched_upper HAN r seg H 0%nat) as Hu. cbn [skipn] in Hu. lia.
Qed.

Lemma hant_length_bounds (seg : str) : 0 <= _hant_length seg <= len seg.
Proof.
  rewrite hant_length_count. pose proof (count_in_le HAN seg). unfold len. lia.
Qed.

Lemma counts_bounds (seg : str) :
  0 <= canto_feature_count (_get_segment_features seg) <= _hant_length seg
  /\ 0 <= swc_feature_count (_get_segment_features seg) <= _hant_length seg.
Proof.
  unfold _get_segment_features. cbn [canto_feature_count swc_feature_count].
  destruct feature_shapes as (S1 & S2 & M1 & M2).
  destruct NeutralFacts.tables_syntax as (W1 & W2 & _).
  pose proof (@net_count_bounds CANTO_FEATURE_RE CANTO_EXCLUDE_RE seg S1 M1 W1).
  pose proof (@net_count_bounds SWC_FEATURE_RE SWC_EXCLUDE_RE seg S2 M2 W2).
  pose proof (@findall_le_han CANTO_FEATURE_RE seg (proj1 features_within_han)).
  pose proof (@findall_le_han SWC_FEATURE_RE seg (proj2 features_within_han)).
  assert (forall r, 0 <= len (findall r seg)) by (intros; unfold len; lia).
  pose proof (H3 CANTO_EXCLUDE_RE). pose proof (H3 SWC_EXCLUDE_RE). lia.
Qed.

Lemma single_segment_pure (split quote : bool) (seg : str) :
  len seg < 2 ^ 47 ->
  let f := _get_segment_features seg in
  (swc_feature_count f = 0 -> 0 < canto_feature_count f ->
   _judge_single_segment (default_detector split quote) seg
   = Ok (if canto_feature_count f <=? _hant_length seg / 100
         then Neutral else Cantonese))
  /\ (canto_feature_count f = 0 -> 0 < swc_feature_count f ->
      _judge_single_segment (default_detector split quote) seg
      = Ok (if swc_feature_count f <=? _hant_length seg / 100
            then Neutral else SWC)).
Proof.
  intros Hlen f. pose proof (counts_bounds seg) as [Hc Hs].
  pose proof (hant_length_bounds seg) as HL. fold f in Hc, Hs.
  split; intros H0 Hpos; apply defined_Some;
    unfold _judge_single_segment; rewrite judge_features_spec; fold f;
    rewrite H0;
    change (length f) with (_hant_length seg).
  - apply (@segment_judge_pure split quote); lia.
  - apply (@segment_judge_pure split quote); lia.
Qed.

End PureFacts.

(* ================================================================== *)
(** * Documents: order, blanks, single pieces, the hybrid labels *)

Module DocumentFacts.
Import Re Lang ReFacts Tables Py Detector Spec Rounding Count Aggregate.
Import PyFacts SizeFacts JudgeFacts ThresholdExact CountFacts AggregateFacts.
Import ReconcileFacts PureFacts PhraseFacts.
Local Open Scope Z_scope.

(** ** Neutral segments under the default thresholds *)

Lemma segment_judge_neutral (split quote : bool) (c s L : Z) :
  0 <= c < 2 ^ 47 -> 0 <= s < 2 ^ 47 -> 0 <= L < 2 ^ 47 ->
  (segment_judge (default_detector split quote) c s L = Some Neutral
   <-> c <= L / 100 /\ s <= L / 100)
  /\ exists l, segment_judge (default_detector split quote) c s L = Some l.
Proof.
  intros Hc Hs HL. unfold segment_judge.
  cbn [canto_tolerance swc_tolerance canto_presence swc_presence
       default_detector].
  rewrite floor_of_default, ceil_of_default by lia.
  assert (H0 : 0 <= L / 100) by (apply Z.div_pos; lia).
  destruct (Z.eqb_spec (c + s) 0) as [E|E]; cbn [orb].
  { split; [|eexists; reflexivity]. split; [lia|reflexivity]. }
  destruct (Z.leb_spec c (L / 100)) as [H1|H1];
    destruct (Z.leb_spec s (L / 100)) as [H2|H2]; cbn [andb];
    try (split; [|eexists; reflexivity]; split; [lia|reflexivity]).
  all: change (2 ^ 47) with 140737488355328 in *.
  all: destruct (@dominance_defined c s (c + s) E) as (v1 & ->);
    [rewrite pow64_eq; lia|rewrite pow64_eq; lia|].
  all: destruct (@dominance_defined s c (c + s) E) as (v2 & ->);
    [rewrite pow64_eq; lia|rewrite pow64_eq; lia|].
  all: split; [|eexists; reflexivity].
  all: split; [|lia].
  all: destruct (v1 && _); [discriminate|]; destruct (v2 && _); discriminate.
Qed.

Lemma single_segment_neutral (split quote : bool) (seg : str) :
  len seg < 2 ^ 47 ->
  (_judge_single_segment (default_detector split quote) seg = Ok Neutral
   <-> canto_feature_count (_get_segment_features seg) <= _hant_length seg / 100
       /\ swc_feature_count (_get_segment_features seg) <= _hant_length seg / 100).
Proof.
  intros Hlen. pose proof (counts_bounds seg) as [Hc Hs].
  pose proof (hant_length_bounds seg) as HL.
  destruct (@segment_judge_neutral split quote
              (canto_feature_count (_get_segment_features seg))
              (swc_feature_count (_get_segment_features seg))
              (_hant_length seg)) as [Hiff (l & El)]; try lia.
  rewrite <- Hiff. unfold _judge_single_segment.
  pose proof (judge_features_spec (default_detector split quote)
                                  (_get_segment_features seg)) as Hspec.
  change (length (_get_segment_features seg)) with (_hant_length seg) in Hspec.
  split.
  - intros E. rewrite E in Hspec. symmetry. exact Hspec.
  - intros E. apply defined_Some. rewrite Hspec. exact E.
Qed.

(** ** One piece *)

Lemma decide_one (l : Label) : first_four l -> decide [l] 1 = l.
Proof. intros [->|[->|[->| ->]]]; reflexivity. Qed.

Lemma segments_one (document : str) :
  Forall (fun c => in_class DELIMITER c = false) document ->
  truthy (strip document) = true ->
  segments document = [document].
Proof.
  intros Hd Hb. unfold segments.
  rewrite delimiters_shape, (@split_none _ _ Hd). cbn [filter]. rewrite Hb.
  reflexivity.
Qed.

Lemma judge_segments_one (self : CantoneseDetector) (document : str) :
  segments document = [document] ->
  _judge_segments self document = _judge_single_segment self document.
Proof.
  intros E. rewrite judge_segments_eq, E. cbn [mapM].
  destruct (_judge_single_segment self document) as [l|e] eqn:El;
    cbn [bind]; [|reflexivity].
  change (len [l]) with 1. rewrite threshold_one. cbn [bind].
  f_equal. apply decide_one. eapply single_segment_four. exact El.
Qed.

(** ** All pieces alike *)

Lemma tally_repeat (l x : Label) (n : nat) :
  tally (repeat l n) x = if label_eqb x l then Z.of_nat n else 0.
Proof.
  unfold tally. induction n as [|n IH]; cbn [repeat filter].
  - destruct (label_eqb x l); reflexivity.
  - destruct (label_eqb x l); cbn [List.length] in *; lia.
Qed.

Lemma tolerant_repeat (l : Label) (n : nat) :
  first_four l -> (0 < n)%nat -> tolerant (repeat l n) = l.
Proof.
  intros Hl Hn. unfold tolerant, len. rewrite repeat_length, !tally_repeat.
  assert (H : Z.of_nat n / 20 < Z.of_nat n)
    by (apply Z.div_lt_upper_bound; lia).
  assert (H0 : 0 <= Z.of_nat n / 20) by (apply Z.div_pos; lia).
  set (k := Z.of_nat n / 20) in *. clearbody k.
  destruct Hl as [->|[->|[->| ->]]]; cbn [label_eqb];
    repeat match goal with
           | |- context [?a <=? ?b] => destruct (Z.leb_spec a b); try lia
           end; reflexivity.
Qed.

Lemma mapM_repeat {A B : Type} (f : A -> result B) (b : B) (l : list A) :
  Forall (fun a => f a = Ok b) l -> mapM f l = Ok (repeat b (List.length l)).
Proof.
  induction 1 as [|a l Ha _ IH]; [reflexivity|].
  cbn [mapM List.length repeat]. rewrite Ha, IH. reflexivity.
Qed.

Lemma judge_segments_alike (self : CantoneseDetector) (document : str)
      (l : Label) :
  segments document <> [] -> len (segments document) < 2 ^ 47 ->
  Forall (fun seg => _judge_single_segment self seg = Ok l) (segments document) ->
  _judge_segments self document = Ok l.
Proof.
  intros Hne Hlen H.
  assert (Hl : first_four l).
  { destruct (segments document) as [|seg segs]; [congruence|].
    inversion H as [|? ? Hseg _]; subst.
    eapply single_segment_four. exact Hseg. }
  rewrite (@judge_segments_tolerant self document _ (@mapM_repeat _ _ _ _ _ H)).
  - f_equal. apply tolerant_repeat; [exact Hl|].
    destruct (segments document); [congruence|simpl; lia].
  - unfold len in *. rewrite repeat_length. exact Hlen.
Qed.

(** ** The order of the pieces, and the blank ones *)

Lemma decide_app_comm (a b : list Label) (th : Z) :
  decide (a ++ b) th = decide (b ++ a) th.
Proof.
  unfold decide. rewrite !tally_app.
  rewrite (Z.add_comm (tally b Neutral)), (Z.add_comm (tally b Cantonese)),
    (Z.add_comm (tally b SWC)).
  reflexivity.
Qed.

Lemma judge_segments_swap (self : CantoneseDetector) (d : Z) (a b : str)
      (l : Label) :
  in_class DELIMITER d = true ->
  _judge_segments self (a ++ d :: b) = Ok l ->
  _judge_segments self (b ++ d :: a) = Ok l.
Proof.
  intros Hd. rewrite !judge_segments_eq, (@segments_app d a b Hd), (@segments_app d b a Hd),
    !mapM_app.
  destruct (mapM _ (segments a)) as [ja|e]; cbn [bind]; [|discriminate].
  destruct (mapM _ (segments b)) as [jb|e]; cbn [bind]; [|discriminate].
  unfold len. rewrite !length_app, (Nat.add_comm (List.length jb)).
  destruct (bind (mul_int_float _ f0_95) ceil) as [th|e]; cbn [bind];
    [|discriminate].
  rewrite (decide_app_comm jb ja). exact (fun H => H).
Qed.

Lemma judge_segments_blank (self : CantoneseDetector) (d : Z) (a w : str) :
  in_class DELIMITER d = true -> forallb isspace w = true ->
  _judge_segments self (a ++ d :: w) = _judge_segments self a
  /\ _judge_segments self (w ++ d :: a) = _judge_segments self a.
Proof.
  intros Hd Hw.
  rewrite !judge_segments_eq, (@segments_app d a w Hd), (@segments_app d w a Hd),
    (@segments_blank w Hw).
  rewrite app_nil_r. split; reflexivity.
Qed.

(** ** The hybrid labels *)

Lemma hybrid_iff (self : CantoneseDetector) (document : str)
      (hybrid quoted : Label) :
  hybrid = CantoneseQuotesInSWC /\ quoted = Cantonese
  \/ hybrid = MixedQuotesInSWC /\ quoted = Mixed ->
  (judge self document = Ok hybrid
   <-> get_quote self = true
       /\ fst (_separate_quotes document) <> ELLIPSIS
       /\ snd (_separate_quotes document) <> []
       /\ _judge_document self (fst (_separate_quotes document)) = Ok SWC
       /\ _judge_document self (snd (_separate_quotes document)) = Ok quoted).
Proof.
  intros Hh. unfold judge. split.
  - destruct (get_quote self).
    + intros H. apply matrix_quotes_inv in H.
      destruct H as [H|(H1 & H2 & H3 & H4)].
      * exfalso. unfold first_four in H.
        destruct Hh as [[-> _]|[-> _]];
          destruct H as [H|[H|[H|H]]]; discriminate H.
      * repeat split; try assumption.
        destruct Hh as [[-> ->]|[-> ->]];
          destruct H4 as [[E H4]|[E H4]]; try discriminate E; exact H4.
    + intros H. apply document_four in H. exfalso. unfold first_four in H.
      destruct Hh as [[-> _]|[-> _]];
        destruct H as [H|[H|[H|H]]]; discriminate H.
  - intros (-> & H1 & H2 & H3 & H4). unfold _judge_matrix_quotes.
    destruct (_separate_quotes document) as [matrix quotes]. cbn [fst snd] in *.
    rewrite (proj2 (str_eqb_false _ _) H1), (proj2 (str_eqb_false _ _) H2).
    rewrite H3, H4. cbn [bind].
    destruct Hh as [[-> ->]|[-> ->]]; reflexivity.
Qed.

(** ** Phrases the exclusion table of SWC lists without a bar before them *)

Lemma swc_exclude_two :
  forallb (fun w => (2 <=? len w)
                    && negb ((len w =? 2)
                             && existsb (fun h => Z.eqb (hd 0 w) h)
                                        [20123; 24324; 25226]))
          (words_or_nil SWC_EXCLUDE_RE) = true.
Proof. vm_compute. reflexivity. Qed.

Lemma swc_exclude_free_two (h x : Z) :
  In h [20123; 24324; 25226] -> free SWC_EXCLUDE_RE [h; x].
Proof.
  intros Hh u w v E Hl.
  pose proof (@words_check SWC_EXCLUDE_RE _ w (proj2 exclude_words)
                           swc_exclude_two Hl) as Hw.
  cbv beta in Hw. apply andb_true_iff in Hw. destruct Hw as [H2 Hn].
  apply Z.leb_le in H2. apply negb_true_iff in Hn.
  assert (Hlen : (List.length u + List.length w + List.length v = 2)%nat).
  { apply (f_equal (@List.length Z)) in E. rewrite !length_app in E.
    simpl in E. lia. }
  unfold len in *.
  destruct u as [|? u]; [|simpl in Hlen; lia].
  destruct v as [|? v]; [|simpl in Hlen; lia].
  cbn [app] in E. rewrite app_nil_r in E. subst w.
  cbn [List.length hd] in Hn. change (Z.of_nat 2 =? 2) with true in Hn.
  cbn [andb] in Hn.
  assert (Ht : existsb (fun h0 => h =? h0) [20123; 24324; 25226] = true).
  { apply existsb_exists. exists h. split; [exact Hh|apply Z.eqb_refl]. }
  congruence.
Qed.

Lemma swc_first_three :
  forallb (in_class (first_class SWC_FEATURE_RE)) [20123; 24324; 25226] = true.
Proof. vm_compute. reflexivity. Qed.

Lemma swc_two_counted (h x : Z) :
  In h [20123; 24324; 25226] ->
  findall SWC_EXCLUDE_RE [h; x] = []
  /\ 1 <= swc_feature_count (_get_segment_features [h; x]).
Proof.
  intros Hh.
  pose proof (@free_findall _ _ (@swc_exclude_free_two h x Hh)) as Hf.
  split; [exact Hf|].
  unfold _get_segment_features. cbn [swc_feature_count]. rewrite Hf.
  unfold len, findall. rewrite matches_of_matched.
  destruct feature_shapes as (_ & S2 & _ & M2).
  pose proof (@matched_lower (first_class SWC_FEATURE_RE)
                             (rest_of SWC_FEATURE_RE) 2 [h; x] M2 (le_n 2)) as Hl.
  rewrite <- S2 in Hl. rewrite count_in_cons in Hl.
  pose proof swc_first_three as H3. rewrite forallb_forall in H3.
  rewrite (H3 _ Hh) in Hl. cbn [List.length]. lia.
Qed.

(** ** The loader: which lines it keeps *)


End DocumentFacts.
(* ================================================================== *)
(** * The claims on the Segment Judge, the Aggregator and the Reconciler *)

Module Claims.
Import Re Lang ReFacts Tables Py Detector Spec Rounding.
Import PyFacts ScanFacts FloatFacts ThresholdFacts SizeFacts.
Import QuoteFacts SeparatorFacts JudgeFacts NeutralFacts.
Local Open Scope Z_scope.

Lemma str_eqb_eq (a b : str) : str_eqb a b = true <-> a = b.
Proof.
  unfold str_eqb. destruct (list_eq_dec Z.eq_dec a b); split; congruence.
Qed.

Lemma str_eqb_neq (a b : str) : a <> b -> str_eqb a b = false.
Proof.
  intros H. destruct (str_eqb a b) eqn:E; [|reflexivity].
  apply str_eqb_eq in E. contradiction.
Qed.

(** C1: for every segment, [_judge_single_segment] gives the label of the
    algorithm of section 4.2 run on the net counts and the Han length of the
    segment: Neutral when the counts add up to zero or both are within their
    floor-rounded tolerance; otherwise Cantonese or SWC when the dominance
    exceeds 0.9 and the other register is below its ceil-rounded presence;
    Mixed in every remaining case. *)
Theorem C1_segment_judge_algorithm (self : CantoneseDetector) (seg : str) :
  defined (_judge_single_segment self seg)
  = segment_judge self
      (len (findall CANTO_FEATURE_RE seg) - len (findall CANTO_EXCLUDE_RE seg))
      (len (findall SWC_FEATURE_RE seg) - len (findall SWC_EXCLUDE_RE seg))
      (len (finditer ALL_HAN_RE seg)).
Proof.
  unfold _judge_single_segment. rewrite judge_features_spec. reflexivity.
Qed.

(** C2: for every document, [_judge_segments] splits on the delimiters,
    drops the whitespace-only pieces, judges the others, takes
    threshold = ceil(0.95 × number of judged pieces) and answers, in this
    order, Neutral, Cantonese, SWC on the first tally (Neutral; Cantonese +
    Neutral; SWC + Neutral) that reaches the threshold, else Mixed. *)
Theorem C2_segment_aggregator_algorithm (self : CantoneseDetector) (document : str) :
  defined (_judge_segments self document) = segment_aggregator self document.
Proof. apply judge_segments_spec. Qed.

(** C3: with quote separation on, a matrix that is not the placeholder alone
    and a non-empty quotes text, the Reconciler returns mJ when the two
    judgements agree, the other one when one of them is Neutral,
    CantoneseQuotesInSWC for SWC with Cantonese quotes, MixedQuotesInSWC for
    SWC with Mixed quotes, and Mixed for every other disagreement, Cantonese
    with SWC quotes among them. *)
Theorem C3_reconciler_table
  (self : CantoneseDetector) (document matrix quotes : str) (mJ qJ : Label) :
  get_quote self = true ->
  _separate_quotes document = (matrix, quotes) ->
  matrix <> ELLIPSIS ->
  quotes <> [] ->
  _judge_document self matrix = Ok mJ ->
  _judge_document self quotes = Ok qJ ->
  (mJ = qJ -> judge self document = Ok mJ)
  /\ (mJ = Neutral -> judge self document = Ok qJ)
  /\ (qJ = Neutral -> judge self document = Ok mJ)
  /\ (mJ = SWC -> qJ = Cantonese -> judge self document = Ok CantoneseQuotesInSWC)
  /\ (mJ = SWC -> qJ = Mixed -> judge self document = Ok MixedQuotesInSWC)
  /\ (mJ <> qJ -> mJ <> Neutral -> qJ <> Neutral ->
      ~ (mJ = SWC /\ qJ = Cantonese) -> ~ (mJ = SWC /\ qJ = Mixed) ->
      judge self document = Ok Mixed)
  /\ (mJ = Cantonese -> qJ = SWC -> judge self document = Ok Mixed).
Proof.
  intros Hq Hsep Hm Hquo HmJ HqJ.
  unfold judge, _judge_matrix_quotes. rewrite Hq, Hsep.
  rewrite (str_eqb_neq Hm), (str_eqb_neq Hquo), HmJ, HqJ. simpl.
  destruct mJ, qJ; simpl; repeat split; intros; try reflexivity;
    try congruence; try discriminate;
    exfalso; auto.
Qed.

(** 他說：「我哋去邊度？」然後他走了。 has an SWC matrix and Cantonese quotes. *)
Lemma C3_reconciler_table_witness :
  judge (default_detector false true)
        [20182; 35498; 65306; 12300; 25105; 21707; 21435; 37002; 24230; 65311;
         12301; 28982; 24460; 20182; 36208; 20102; 12290]
  = Ok CantoneseQuotesInSWC.
Proof.
  refine (proj1 (proj2 (proj2 (proj2
           (@C3_reconciler_table (default_detector false true) _ _ _ SWC Cantonese
                                 _ _ _ _ _ _)))) eq_refl eq_refl).
  - reflexivity.
  - reflexivity.
  - vm_compute. discriminate.
  - vm_compute. discriminate.
  - vm_compute. reflexivity.
  - vm_compute. reflexivity.
Defined.

Lemma judge_features_no_zdiv (self : CantoneseDetector) (f : SegmentFeatures) :
  judge_features self f <> Raise ZeroDivisionError.
Proof.
  unfold judge_features.
  apply bind_no_zdiv; [apply mul_float_int_no_zdiv|intros x1 _].
  apply bind_no_zdiv; [apply floor_no_zdiv|intros ts _].
  apply bind_no_zdiv; [apply mul_float_int_no_zdiv|intros x2 _].
  apply bind_no_zdiv; [apply floor_no_zdiv|intros tc _].
  destruct (Z.eqb_spec (canto_feature_count f + swc_feature_count f) 0) as [E|E];
    simpl; [discriminate|].
  destruct ((canto_feature_count f <=? tc) && (swc_feature_count f <=? ts));
    [discriminate|].
  apply bind_no_zdiv; [apply mul_float_int_no_zdiv|intros x3 _].
  apply bind_no_zdiv; [apply ceil_no_zdiv|intros pc _].
  apply bind_no_zdiv; [apply mul_float_int_no_zdiv|intros x4 _].
  apply bind_no_zdiv; [apply ceil_no_zdiv|intros ps _].
  apply bind_no_zdiv; [apply int_truediv_no_zdiv; exact E|intros a1 _].
  apply bind_no_zdiv; [apply int_truediv_no_zdiv; exact E|intros b1 _].
  apply bind_no_zdiv; [apply int_truediv_no_zdiv; exact E|intros a2 _].
  apply bind_no_zdiv; [apply int_truediv_no_zdiv; exact E|intros b2 _].
  destruct (_ && _); [discriminate|]. destruct (_ && _); discriminate.
Qed.

(** C8: the divisions by canto_count + swc_count never divide by zero,
    whatever the thresholds and whatever the counts, negative ones included:
    the Segment Judge never raises [ZeroDivisionError], on a segment or on an
    arbitrary features record, and past the Neutral test the divisor is not
    zero. *)
Theorem C8_no_division_by_zero :
  (forall (self : CantoneseDetector) (f : SegmentFeatures),
      judge_features self f <> Raise ZeroDivisionError)
  /\ (forall (self : CantoneseDetector) (seg : str),
      _judge_single_segment self seg <> Raise ZeroDivisionError)
  /\ (forall (self : CantoneseDetector) (f : SegmentFeatures) (l : Label),
      judge_features self f = Ok l -> l <> Neutral ->
      canto_feature_count f + swc_feature_count f <> 0).
Proof.
  split; [exact judge_features_no_zdiv|].
  split; [intros self seg; apply judge_features_no_zdiv|].
  intros self f l H Hl E. apply Hl.
  pose proof (judge_features_spec self f) as HS. rewrite H in HS. simpl in HS.
  unfold segment_judge in HS. rewrite E in HS. simpl in HS.
  destruct (floor_of (canto_tolerance self) (length f)); [|discriminate].
  destruct (floor_of (swc_tolerance self) (length f)); [|discriminate].
  congruence.
Qed.

(** C9: on a document in which the quote pattern finds no match, the Quote
    Separator returns the document itself as the matrix and the empty string
    as the quotes. *)
Theorem C9_separator_identity (document : str) :
  findall ALL_QUOTEMARKS_RE document = [] ->
  _separate_quotes document = (document, []).
Proof.
  intros H. unfold _separate_quotes, sub. rewrite H.
  unfold findall in H. rewrite (scan_no_match _ _ H), replace_unmatched.
  reflexivity.
Qed.

(** 你好，abc has no quote pair. *)
Lemma C9_separator_identity_witness :
  _separate_quotes [20320; 22909; 65292; 97; 98; 99]
  = ([20320; 22909; 65292; 97; 98; 99], []).
Proof. apply C9_separator_identity. vm_compute. reflexivity. Defined.

(** A finite threshold times the length zero floors to zero. *)
Lemma floor_mul_zero (t : float) :
  is_finite t = true -> bind (mul_float_int t 0) floor = Ok 0.
Proof. destruct t; simpl; intros H; try discriminate H; reflexivity. Qed.

(** C7: [judge] of the empty string is Neutral under both values of the
    split flag, for finite tolerances: the Aggregator finds no piece, its
    threshold is ceil(0 × 0.95) = 0 and 0 >= 0 gives Neutral; the Segment
    Judge finds zero counts and zero length and gives Neutral. *)
Theorem C7_empty_string_neutral (self : CantoneseDetector) :
  is_finite (canto_tolerance self) = true ->
  is_finite (swc_tolerance self) = true ->
  judge self [] = Ok Neutral
  /\ _judge_segments self [] = Ok Neutral
  /\ _judge_single_segment self [] = Ok Neutral
  /\ filter (fun x => truthy (strip x)) (split ALL_DELIMITERS_RE []) = []
  /\ bind (mul_int_float 0 f0_95) ceil = Ok 0
  /\ canto_feature_count (_get_segment_features []) = 0
  /\ swc_feature_count (_get_segment_features []) = 0
  /\ length (_get_segment_features []) = 0.
Proof.
  intros Hc Hs.
  assert (H1 : _judge_single_segment self [] = Ok Neutral).
  { apply defined_Some. unfold _judge_single_segment.
    rewrite judge_features_spec.
    change (length (_get_segment_features [])) with 0.
    change (canto_feature_count (_get_segment_features [])) with 0.
    change (swc_feature_count (_get_segment_features [])) with 0.
    unfold segment_judge, floor_of.
    rewrite (floor_mul_zero _ Hs), (floor_mul_zero _ Hc). reflexivity. }
  assert (H2 : _judge_segments self [] = Ok Neutral) by reflexivity.
  assert (H3 : _judge_document self [] = Ok Neutral).
  { unfold _judge_document. destruct (split_seg self); assumption. }
  repeat split; try assumption; try reflexivity.
  unfold judge, _judge_matrix_quotes. destruct (get_quote self); exact H3.
Qed.

(** The default thresholds, without and with splitting. *)
Lemma C7_empty_string_neutral_witness :
  judge (default_detector false false) [] = Ok Neutral
  /\ judge (default_detector true false) [] = Ok Neutral.
Proof.
  split.
  - apply (C7_empty_string_neutral (default_detector false false)); reflexivity.
  - apply (C7_empty_string_neutral (default_detector true false)); reflexivity.
Defined.


(** C6, as amended: the Quote Separator recognizes exactly five styles of
    marks, with five distinct opening marks.  Every match opens with the
    opening mark of a style and ends with its closing mark, and what is
    between them, the value reported for the match, never contains that
    opening mark.  The span is greedy: whatever does not contain the opening
    mark may be inside, marks of the other styles and the closing mark of its
    own style too, and the span ends at the last closing mark that comes
    before the next opening mark of the style. *)
Theorem C6_five_styles_greedy :
  ALL_QUOTEMARKS_RE = quotes_re quote_styles 1
  /\ List.length quote_styles = 5%nat
  /\ NoDup (map fst quote_styles)
  /\ (forall o c, recognized o c <-> In (o, c) quote_styles)
  /\ (forall s text cs,
        match_at ALL_QUOTEMARKS_RE s = Some (text, cs) ->
        exists o c inner r,
          In (o, c) quote_styles /\ s = o :: inner ++ c :: r
          /\ text = o :: inner ++ [c] /\ ~ In o inner /\ ~ In c (before o r)
          /\ join [] (match_value ALL_QUOTEMARKS_RE text cs) = inner)
  /\ (forall o c inner rest,
        In (o, c) quote_styles -> ~ In o inner -> ~ In c (before o rest) ->
        exists cs, match_at ALL_QUOTEMARKS_RE (o :: inner ++ c :: rest)
                   = Some (o :: inner ++ [c], cs)).
Proof.
  split; [reflexivity|]. split; [reflexivity|]. split; [apply quote_styles_wf|].
  split; [exact recognized_iff|]. split; [exact match_at_quotes_shape|].
  intros o c inner rest Hin Ho Hc.
  destruct (@match_at_span o c inner rest Hin Ho Hc) as (j & E). eexists. exact E.
Qed.

(** The span of 「a」b」 runs to the second closing mark, and 『 』 inside 「 」
    is part of the span. *)
Lemma C6_five_styles_greedy_witness :
  (exists cs, match_at ALL_QUOTEMARKS_RE [12300; 97; 12301; 98; 12301; 99]
              = Some ([12300; 97; 12301; 98; 12301], cs))
  /\ (exists cs, match_at ALL_QUOTEMARKS_RE [12300; 12302; 97; 12303; 12301]
                 = Some ([12300; 12302; 97; 12303; 12301], cs)).
Proof.
  split.
  - apply (proj2 (proj2 (proj2 (proj2 (proj2 C6_five_styles_greedy))))
             12300 12301 [97; 12301; 98] [99]).
    + left. reflexivity.
    + simpl. intros H. repeat (destruct H as [H|H]; [discriminate H|]). exact H.
    + simpl. intros H. repeat (destruct H as [H|H]; [discriminate H|]). exact H.
  - apply (proj2 (proj2 (proj2 (proj2 (proj2 C6_five_styles_greedy))))
             12300 12301 [12302; 97; 12303] []).
    + left. reflexivity.
    + simpl. intros H. repeat (destruct H as [H|H]; [discriminate H|]). exact H.
    + simpl. intros H. exact H.
Defined.

(** The claim as worded fails on both counts: the styles are five, not four,
    and the span of 「a」b」 is not closed by the first closing mark. *)
Lemma C6_counterexample : ~ four_styles /\ ~ non_greedy.
Proof.
  split.
  - intros (l & Hlen & H).
    assert (Hincl : incl quote_styles l).
    { intros [o c] Hin. apply H, recognized_iff. exact Hin. }
    assert (Hnd : NoDup quote_styles).
    { apply (NoDup_map_inv fst). apply quote_styles_wf. }
    pose proof (NoDup_incl_length Hnd Hincl) as Hle.
    rewrite Hlen in Hle. simpl in Hle. lia.
  - intros H.
    destruct (H 12300 12301 [97] [98; 12301]) as (cs & E).
    + apply recognized_iff. left. reflexivity.
    + simpl. intros [E|[]]. discriminate E.
    + simpl. intros [E|[]]. discriminate E.
    + vm_compute in E. discriminate E.
Qed.

(** C5, as amended: when the matrix is the placeholder alone, the Reconciler
    returns directly the judgement, by the Segment Judge or the Aggregator
    according to the split flag, of the quotes text from which every quote
    pair found in it has been deleted, marks and content; placeholder glyphs
    stay.  For a document that is one quoted span, the quotes text is what is
    inside the span. *)
Theorem C5_whole_quote_path :
  (forall (self : CantoneseDetector) (document : str),
      fst (_separate_quotes document) = ELLIPSIS ->
      _judge_matrix_quotes self document
      = _judge_document self
          (sub ALL_QUOTEMARKS_RE [] (snd (_separate_quotes document))))
  /\ (forall (self : CantoneseDetector) (o c : Z) (inner : str),
      In (o, c) quote_styles -> ~ In o inner ->
      _judge_matrix_quotes self (o :: inner ++ [c])
      = _judge_document self (sub ALL_QUOTEMARKS_RE [] inner)
      /\ _judge_document self (sub ALL_QUOTEMARKS_RE [] inner)
         = if split_seg self
           then _judge_segments self (sub ALL_QUOTEMARKS_RE [] inner)
           else _judge_single_segment self (sub ALL_QUOTEMARKS_RE [] inner)).
Proof.
  assert (H : forall (self : CantoneseDetector) (document : str),
             fst (_separate_quotes document) = ELLIPSIS ->
             _judge_matrix_quotes self document
             = _judge_document self
                 (sub ALL_QUOTEMARKS_RE [] (snd (_separate_quotes document)))).
  { intros self document. unfold _judge_matrix_quotes.
    destruct (_separate_quotes document) as [matrix quotes]. cbn [fst snd].
    intros ->. unfold str_eqb.
    destruct (list_eq_dec Z.eq_dec ELLIPSIS ELLIPSIS) as [_|n];
      [reflexivity|contradiction]. }
  split; [exact H|].
  intros self o c inner Hin Ho. split; [|reflexivity].
  rewrite H; rewrite (@separate_whole_span o c inner Hin Ho); reflexivity.
Qed.

(** 「佢話『你好』」: the inner 『你好』 is deleted and 佢話 is judged. *)
Lemma C5_whole_quote_path_witness :
  _judge_matrix_quotes (default_detector false true)
    [12300; 20322; 35441; 12302; 20320; 22909; 12303; 12301]
  = _judge_document (default_detector false true)
      (sub ALL_QUOTEMARKS_RE [] [20322; 35441; 12302; 20320; 22909; 12303])
  /\ sub ALL_QUOTEMARKS_RE [] [20322; 35441; 12302; 20320; 22909; 12303]
     = [20322; 35441].
Proof.
  split; [|vm_compute; reflexivity].
  apply (proj2 C5_whole_quote_path (default_detector false true) 12300 12301
               [20322; 35441; 12302; 20320; 22909; 12303]).
  - left. reflexivity.
  - simpl. intros H. repeat (destruct H as [H|H]; [discriminate H|]). exact H.
Defined.

(** On 「『屋企』」 the wording would have 『屋企』 judged, which is Cantonese;
    the code deletes the inner pair and judges the empty text, Neutral. *)
Lemma C5_counterexample :
  ~ whole_quote_as_worded (default_detector false true)
      [12300; 12302; 23627; 20225; 12303; 12301].
Proof.
  unfold whole_quote_as_worded. intros H.
  assert (E : fst (_separate_quotes [12300; 12302; 23627; 20225; 12303; 12301])
              = ELLIPSIS) by (vm_compute; reflexivity).
  specialize (H E). vm_compute in H. discriminate H.
Qed.


(** C4, as amended: for every string of at most [sys.maxsize] = 2^63 - 1
    code points and every configuration whose four thresholds are finite
    floats of magnitude below 2^900, [judge] returns one of the six labels and
    raises nothing. *)
Theorem C4_judge_total (self : CantoneseDetector) (document : str) :
  small_thresholds self = true ->
  len document < MAX_LEN ->
  exists l, judge self document = Ok l /\ In l six_labels.
Proof. apply judge_total. Qed.

(** 他說：「我哋去邊度？」然後他走了。 with both flags on. *)
Lemma C4_judge_total_witness :
  exists l,
    judge (default_detector true true)
          [20182; 35498; 65306; 12300; 25105; 21707; 21435; 37002; 24230; 65311;
           12301; 28982; 24460; 20182; 36208; 20102; 12290]
    = Ok l /\ In l six_labels.
Proof.
  apply (C4_judge_total (default_detector true true)); reflexivity.
Defined.

(** A tolerance of 1e308 overflows on a text of two Han characters and
    [math.floor] raises OverflowError; a NaN tolerance makes it raise
    ValueError on the empty string. *)
Lemma C4_counterexample :
  ~ total_as_worded (Build_detector false false false f1e308 f0_01 f0_03 f0_03)
      [19968; 19968]
  /\ ~ total_as_worded (Build_detector false false false S754_nan f0_01 f0_03 f0_03)
       [].
Proof.
  split; intros (l & E & _); vm_compute in E; discriminate E.
Qed.

(** C10, as amended: for every string of at most 2^63 - 1 code points in which
    neither feature pattern matches anywhere, [judge] returns Neutral under
    every combination of the two flags and for all thresholds whose two
    tolerances are finite floats of magnitude below 2^900, provided that, when
    quotes are separated and the matrix is the placeholder alone, neither
    feature pattern matches in the quotes text once the quote pairs inside it
    are deleted. *)
Theorem C10_feature_free_neutral (self : CantoneseDetector) (document : str) :
  small_tolerances self = true ->
  len document < MAX_LEN ->
  feature_free document ->
  (get_quote self = true ->
   fst (_separate_quotes document) = ELLIPSIS ->
   feature_free (sub ALL_QUOTEMARKS_RE [] (snd (_separate_quotes document)))) ->
  judge self document = Ok Neutral.
Proof. apply neutral_judge. Qed.

(** 「hello 世界」 with both flags on. *)
Lemma C10_feature_free_neutral_witness :
  judge (default_detector true true)
        [12300; 104; 101; 108; 108; 111; 32; 19990; 30028; 12301]
  = Ok Neutral.
Proof.
  apply (C10_feature_free_neutral (default_detector true true)).
  - reflexivity.
  - reflexivity.
  - split; vm_compute; reflexivity.
  - intros _ _. split; vm_compute; reflexivity.
Defined.

(** 「屋『x』企」 has no feature, yet with quotes separated the inner pair is
    deleted, 屋企 is judged and the answer is Cantonese. *)
Lemma C10_counterexample :
  ~ neutral_as_worded (default_detector false true)
      [12300; 23627; 12302; 120; 12303; 20225; 12301].
Proof.
  unfold neutral_as_worded. intros H.
  assert (F : feature_free [12300; 23627; 12302; 120; 12303; 20225; 12301])
    by (split; vm_compute; reflexivity).
  specialize (H F). vm_compute in H. discriminate H.
Qed.

(** ** The scenarios of section 8 *)

(** Threshold boundary: Han length 100, one Cantonese feature, no SWC
    feature, default thresholds: Neutral. *)
Example threshold_boundary :
  judge_features (default_detector false false)
                 (Build_features [] [] [] [] [] 1 0 100) = Ok Neutral.
Proof. vm_compute. reflexivity. Qed.

(** Dominance: ten Cantonese features, no SWC feature, Han length 50,
    default thresholds: Cantonese. *)
Example dominance_scenario :
  judge_features (default_detector false false)
                 (Build_features [] [] [] [] [] 10 0 50) = Ok Cantonese.
Proof. vm_compute. reflexivity. Qed.

(** Aggregation boundary: the threshold of twenty pieces is 19. *)
Example aggregation_boundary : bind (mul_int_float 20 f0_95) ceil = Ok 19.
Proof. vm_compute. reflexivity. Qed.

End Claims.

(* ================================================================== *)
(** * Further properties of the detector, the command line and the loader *)

Module Extras.
Import Re Lang ReFacts Tables Py Detector Spec Rounding Count Aggregate Cli.
Import TestJudge.
Import PyFacts ScanFacts SizeFacts JudgeFacts NeutralFacts.
Import CountFacts HanFacts ThresholdExact AggregateFacts ReconcileFacts.
Import CliFacts TestJudgeFacts PhraseFacts PureFacts DocumentFacts.
Local Open Scope Z_scope.

(** X1: the two net counts of [_get_segment_features], matches of the feature
    table less matches of the exclusion table, are never negative and never
    more than the Han length, which is never more than the length of the
    segment: every exclusion match holds a single-character feature, and
    every such character is matched by the feature table or follows the first
    character of a match. *)
Theorem X1_net_counts_bounded (seg : str) :
  0 <= canto_feature_count (_get_segment_features seg)
    <= Detector.length (_get_segment_features seg)
  /\ 0 <= swc_feature_count (_get_segment_features seg)
       <= Detector.length (_get_segment_features seg)
  /\ Detector.length (_get_segment_features seg) <= len seg.
Proof.
  pose proof (counts_bounds seg) as [H1 H2].
  pose proof (hant_length_bounds seg) as H3.
  change (Detector.length (_get_segment_features seg)) with (_hant_length seg).
  lia.
Qed.

(** X2: [_hant_length] is the number of code points of the segment in the
    Han ranges of [ALL_HAN_RE]; a variation selector is in none of them, so
    it is never counted, after a Han character or elsewhere; and the Han
    length of two texts put together is the sum of theirs. *)
Theorem X2_han_length_counts_han (a b : str) :
  _hant_length a = len (filter (in_class HAN) a)
  /\ (forall x, in_class SELECTOR x = true -> in_class HAN x = false)
  /\ _hant_length (a ++ b) = _hant_length a + _hant_length b.
Proof.
  split; [apply hant_length_count|]. split.
  - intros x. apply ranges_apart_spec. exact han_apart.
  - rewrite !hant_length_count, count_in_app. lia.
Qed.

(** X3: with the default thresholds, a segment whose net features are all of
    one kind is Neutral when they are at most one per hundred Han characters,
    rounded down, and has the label of that kind otherwise; it is never
    Mixed, nor labelled with the other kind. *)
Theorem X3_one_kind_of_features (split quote : bool) (seg : str) :
  len seg < 2 ^ 47 ->
  (swc_feature_count (_get_segment_features seg) = 0 ->
   0 < canto_feature_count (_get_segment_features seg) ->
   _judge_single_segment (default_detector split quote) seg
   = Ok (if canto_feature_count (_get_segment_features seg)
            <=? _hant_length seg / 100
         then Neutral else Cantonese))
  /\ (canto_feature_count (_get_segment_features seg) = 0 ->
      0 < swc_feature_count (_get_segment_features seg) ->
      _judge_single_segment (default_detector split quote) seg
      = Ok (if swc_feature_count (_get_segment_features seg)
               <=? _hant_length seg / 100
            then Neutral else SWC)).
Proof. intros H. exact (@single_segment_pure split quote seg H). Qed.

(** 我哋去邊度 has Cantonese features only, 他們在哪裡 SWC features only. *)
Lemma X3_one_kind_of_features_witness :
  _judge_single_segment (default_detector false false)
                        [25105; 21707; 21435; 37002; 24230] = Ok Cantonese
  /\ _judge_single_segment (default_detector false false)
                           [20182; 20497; 22312; 21738; 35041] = Ok SWC.
Proof.
  split.
  - refine (proj1 (@X3_one_kind_of_features false false
                     [25105; 21707; 21435; 37002; 24230] _) _ _);
      vm_compute; reflexivity.
  - refine (proj2 (@X3_one_kind_of_features false false
                     [20182; 20497; 22312; 21738; 35041] _) _ _);
      vm_compute; reflexivity.
Defined.

(** X4: with the default thresholds a segment is Neutral exactly when each
    net count is at most one hundredth of the Han length, rounded down: the
    binary roundings of 0.01 times the length never move the floor. *)
Theorem X4_neutral_segment (split quote : bool) (seg : str) :
  len seg < 2 ^ 47 ->
  (_judge_single_segment (default_detector split quote) seg = Ok Neutral
   <-> canto_feature_count (_get_segment_features seg) <= _hant_length seg / 100
       /\ swc_feature_count (_get_segment_features seg) <= _hant_length seg / 100).
Proof. apply single_segment_neutral. Qed.

(** 我哋 holds a Cantonese feature and two Han characters: not Neutral. *)
Lemma X4_neutral_segment_witness :
  _judge_single_segment (default_detector false false) [25105; 21707]
  <> Ok Neutral.
Proof.
  intros H.
  apply (@X4_neutral_segment false false [25105; 21707]) in H;
    [|vm_compute; reflexivity].
  vm_compute in H. destruct H as [H _]. apply H. reflexivity.
Defined.

(** X5: a document without any Han character is Neutral, whatever the two
    flags, for tolerances of ordinary size: every phrase of the four tables
    is made of Han characters, and neither the placeholder nor the removal of
    quote marks brings one in. *)
Theorem X5_no_han_neutral (self : CantoneseDetector) (document : str) :
  small_tolerances self = true -> len document < MAX_LEN ->
  han_free document -> judge self document = Ok Neutral.
Proof. apply han_free_neutral. Qed.

(** hello, world 123 with both flags on. *)
Lemma X5_no_han_neutral_witness :
  judge (default_detector true true)
        [104; 101; 108; 108; 111; 44; 32; 119; 111; 114; 108; 100; 32; 49; 50; 51]
  = Ok Neutral.
Proof.
  apply (@X5_no_han_neutral (default_detector true true)).
  - reflexivity.
  - vm_compute. reflexivity.
  - repeat constructor.
Defined.

(** X6: the threshold of [_judge_segments], ceil(n * 0.95) in binary floating
    point, is n less n // 20 for fewer than 2^47 judged pieces, so the
    document is Neutral when at most n // 20 pieces are not, else Cantonese
    when at most n // 20 are SWC or Mixed, else SWC when at most n // 20 are
    Cantonese or Mixed, else Mixed; with fewer than twenty pieces a single
    one decides. *)
Theorem X6_aggregator_slack (self : CantoneseDetector) (document : str)
        (js : list Label) :
  mapM (_judge_single_segment self) (segments document) = Ok js ->
  len js < 2 ^ 47 ->
  _judge_segments self document = Ok (tolerant js)
  /\ bind (mul_int_float (len js) f0_95) ceil = Ok (len js - len js / 20).
Proof.
  intros E Hn. split; [exact (@judge_segments_tolerant self document js E Hn)|].
  rewrite threshold_exact by (unfold len in *; lia). f_equal.
  Z.div_mod_to_equations. lia.
Qed.

(** 我哋去邊度？他們在哪裡。 has a Cantonese piece and an SWC piece. *)
Lemma X6_aggregator_slack_witness :
  _judge_segments (default_detector true false)
    [25105; 21707; 21435; 37002; 24230; 65311;
     20182; 20497; 22312; 21738; 35041; 12290]
  = Ok Mixed.
Proof.
  refine (proj1 (@X6_aggregator_slack (default_detector true false)
                   [25105; 21707; 21435; 37002; 24230; 65311;
                    20182; 20497; 22312; 21738; 35041; 12290]
                   [Cantonese; SWC] _ _)).
  - vm_compute. reflexivity.
  - vm_compute. reflexivity.
Defined.

(** X7: when every judged piece of a document gets one and the same label,
    [_judge_segments] gives the document that label. *)
Theorem X7_unanimous_pieces (self : CantoneseDetector) (document : str)
        (l : Label) :
  segments document <> [] -> len (segments document) < 2 ^ 47 ->
  Forall (fun seg => _judge_single_segment self seg = Ok l) (segments document) ->
  _judge_segments self document = Ok l.
Proof. apply judge_segments_alike. Qed.

(** 我哋去邊度？佢哋喺邊度？ has two Cantonese pieces. *)
Lemma X7_unanimous_pieces_witness :
  _judge_segments (default_detector true false)
    [25105; 21707; 21435; 37002; 24230; 65311;
     20322; 21707; 21946; 37002; 24230; 65311]
  = Ok Cantonese.
Proof.
  assert (E : segments [25105; 21707; 21435; 37002; 24230; 65311;
                        20322; 21707; 21946; 37002; 24230; 65311]
              = [[25105; 21707; 21435; 37002; 24230];
                 [20322; 21707; 21946; 37002; 24230]])
    by (vm_compute; reflexivity).
  apply (@X7_unanimous_pieces (default_detector true false)); rewrite E.
  - discriminate.
  - reflexivity.
  - constructor; [vm_compute; reflexivity|].
    constructor; [vm_compute; reflexivity|]. constructor.
Defined.

(** X8: on a document that holds no delimiter and is not blank,
    [_judge_segments] is [_judge_single_segment], exceptions included: the
    flag [split_seg] changes nothing there. *)
Theorem X8_one_piece (self : CantoneseDetector) (document : str) :
  Forall (fun c => in_class DELIMITER c = false) document ->
  truthy (strip document) = true ->
  _judge_segments self document = _judge_single_segment self document.
Proof.
  intros Hd Hb. apply judge_segments_one. apply segments_one; assumption.
Qed.

(** 我哋去邊度, under a NaN tolerance as well. *)
Lemma X8_one_piece_witness :
  _judge_segments (Build_detector true false false S754_nan f0_01 f0_03 f0_03)
                  [25105; 21707; 21435; 37002; 24230]
  = _judge_single_segment
      (Build_detector true false false S754_nan f0_01 f0_03 f0_03)
      [25105; 21707; 21435; 37002; 24230].
Proof.
  apply X8_one_piece.
  - repeat constructor.
  - reflexivity.
Defined.

(** X9: the judgement of [_judge_segments] does not depend on the order of
    the pieces: exchanging what is before a delimiter with what is after it
    gives the same label. *)
Theorem X9_order_of_pieces (self : CantoneseDetector) (d : Z) (a b : str)
        (l : Label) :
  in_class DELIMITER d = true ->
  _judge_segments self (a ++ d :: b) = Ok l ->
  _judge_segments self (b ++ d :: a) = Ok l.
Proof. apply judge_segments_swap. Qed.

(** 我哋去邊度。他們在哪裡 and 他們在哪裡。我哋去邊度. *)
Lemma X9_order_of_pieces_witness :
  _judge_segments (default_detector true false)
    ([20182; 20497; 22312; 21738; 35041] ++ 12290
       :: [25105; 21707; 21435; 37002; 24230])
  = Ok Mixed.
Proof.
  apply (@X9_order_of_pieces (default_detector true false) 12290
           [25105; 21707; 21435; 37002; 24230]
           [20182; 20497; 22312; 21738; 35041]).
  - reflexivity.
  - vm_compute. reflexivity.
Defined.

(** X10: a blank text after the last delimiter or before the first changes
    nothing for [_judge_segments], exceptions included: blank pieces are not
    judged and not counted. *)
Theorem X10_blank_pieces (self : CantoneseDetector) (d : Z) (a w : str) :
  in_class DELIMITER d = true -> forallb isspace w = true ->
  _judge_segments self (a ++ d :: w) = _judge_segments self a
  /\ _judge_segments self (w ++ d :: a) = _judge_segments self a.
Proof. apply judge_segments_blank. Qed.

(** 我哋去邊度 followed by 。 and two spaces. *)
Lemma X10_blank_pieces_witness :
  _judge_segments (default_detector true false)
                  ([25105; 21707; 21435; 37002; 24230] ++ 12290 :: [32; 32])
  = _judge_segments (default_detector true false)
                    [25105; 21707; 21435; 37002; 24230].
Proof.
  refine (proj1 (@X10_blank_pieces (default_detector true false) 12290
                   [25105; 21707; 21435; 37002; 24230] [32; 32] _ _));
    reflexivity.
Defined.

(** X11: the matrix that [_separate_quotes] returns is the placeholder alone,
    the case [_judge_matrix_quotes] takes for a document that is all one
    quote, exactly when the document is the placeholder character itself or
    is one span of a quote style: its opening mark, a text without that
    opening mark, its closing mark. *)
Theorem X11_whole_quote_documents (document : str) :
  fst (_separate_quotes document) = ELLIPSIS
  <-> document = ELLIPSIS
      \/ exists o c inner,
           In (o, c) quote_styles /\ ~ In o inner
           /\ document = o :: inner ++ [c].
Proof. apply whole_quote_iff. Qed.

(** X12: [_separate_quotes] loses the quote marks and nothing else: when a
    quoted span is found, the matrix and the quotes together are one
    character shorter than the document; when none is found, the matrix is
    the document and the quotes are empty. *)
Theorem X12_separator_accounting (document : str) :
  (findall ALL_QUOTEMARKS_RE document <> [] ->
   len (fst (_separate_quotes document)) + len (snd (_separate_quotes document))
   + 1 = len document)
  /\ (findall ALL_QUOTEMARKS_RE document = [] ->
      _separate_quotes document = (document, [])).
Proof.
  split.
  - intros H. pose proof (@separate_lengths document H). unfold len. lia.
  - apply separate_none.
Qed.

(** 他說：「我哋去邊度」: matrix 他說：… and quotes 我哋去邊度. *)
Lemma X12_separator_accounting_witness :
  len (fst (_separate_quotes
              [20182; 35498; 65306; 12300; 25105; 21707; 21435; 37002; 24230;
               12301]))
  + len (snd (_separate_quotes
                [20182; 35498; 65306; 12300; 25105; 21707; 21435; 37002; 24230;
                 12301]))
  + 1 = 10.
Proof.
  refine (proj1 (X12_separator_accounting
                   [20182; 35498; 65306; 12300; 25105; 21707; 21435; 37002;
                    24230; 12301]) _).
  vm_compute. discriminate.
Defined.

(** X13: a document in which no quoted span is found, and which is not the
    placeholder character alone, is judged by [judge] as by
    [_judge_document], whatever the flag [get_quote], exceptions included. *)
Theorem X13_no_quote_no_difference (self : CantoneseDetector) (document : str) :
  findall ALL_QUOTEMARKS_RE document = [] -> document <> ELLIPSIS ->
  judge self document = _judge_document self document.
Proof.
  intros H Hne. unfold judge. destruct (get_quote self); [|reflexivity].
  apply matrix_quotes_none; assumption.
Qed.

(** 我哋去邊度？他們在哪裡。 with both flags on. *)
Lemma X13_no_quote_no_difference_witness :
  judge (default_detector true true)
    [25105; 21707; 21435; 37002; 24230; 65311;
     20182; 20497; 22312; 21738; 35041; 12290]
  = _judge_document (default_detector true true)
      [25105; 21707; 21435; 37002; 24230; 65311;
       20182; 20497; 22312; 21738; 35041; 12290].
Proof.
  apply X13_no_quote_no_difference.
  - vm_compute. reflexivity.
  - vm_compute. discriminate.
Defined.

(** X14: without [get_quote], [judge] gives one of the four labels Neutral,
    Cantonese, SWC and Mixed, never a hybrid one, whatever the thresholds. *)
Theorem X14_four_labels_without_quotes (self : CantoneseDetector)
        (document : str) (l : Label) :
  get_quote self = false -> judge self document = Ok l -> first_four l.
Proof. apply judge_four. Qed.

(** 我哋去邊度？他們在哪裡。 split, without quotes. *)
Lemma X14_four_labels_without_quotes_witness : first_four Mixed.
Proof.
  apply (@X14_four_labels_without_quotes (default_detector true false)
           [25105; 21707; 21435; 37002; 24230; 65311;
            20182; 20497; 22312; 21738; 35041; 12290]).
  - reflexivity.
  - vm_compute. reflexivity.
Defined.

(** X15: [judge] gives CantoneseQuotesInSWC exactly when [get_quote] is set,
    the matrix is not the placeholder alone, the quotes are not empty, the
    matrix is judged SWC and the quotes Cantonese; MixedQuotesInSWC exactly
    when, the rest being the same, the quotes are judged Mixed. *)
Theorem X15_hybrid_labels (self : CantoneseDetector) (document : str) :
  (judge self document = Ok CantoneseQuotesInSWC
   <-> get_quote self = true
       /\ fst (_separate_quotes document) <> ELLIPSIS
       /\ snd (_separate_quotes document) <> []
       /\ _judge_document self (fst (_separate_quotes document)) = Ok SWC
       /\ _judge_document self (snd (_separate_quotes document)) = Ok Cantonese)
  /\ (judge self document = Ok MixedQuotesInSWC
      <-> get_quote self = true
          /\ fst (_separate_quotes document) <> ELLIPSIS
          /\ snd (_separate_quotes document) <> []
          /\ _judge_document self (fst (_separate_quotes document)) = Ok SWC
          /\ _judge_document self (snd (_separate_quotes document)) = Ok Mixed).
Proof.
  split; apply hybrid_iff; [left|right]; split; reflexivity.
Qed.

(** X16: a segment that is one phrase of an exclusion table, and nothing
    else.  For the Cantonese table the net Cantonese count is zero: the
    phrase cancels the feature it holds.  For the SWC table the net SWC count
    is zero or one: some phrases hold two SWC features and cancel one. *)
Theorem X16_exclusion_phrases (w : str) :
  (lang CANTO_EXCLUDE_RE w ->
   canto_feature_count (_get_segment_features w) = 0)
  /\ (lang SWC_EXCLUDE_RE w ->
      0 <= swc_feature_count (_get_segment_features w) <= 1).
Proof.
  split; intros H.
  - pose proof (@words_check CANTO_EXCLUDE_RE _ w (proj1 exclude_words)
                             canto_exclude_check H) as Hw.
    cbv beta in Hw. apply Z.eqb_eq in Hw. exact Hw.
  - pose proof (@words_check SWC_EXCLUDE_RE _ w (proj2 exclude_words)
                             swc_exclude_check H) as Hw.
    cbv beta in Hw. apply andb_true_iff in Hw. destruct Hw as [H1 H2].
    apply Z.leb_le in H1. apply Z.leb_le in H2. lia.
Qed.

(** 關係 is a phrase of the Cantonese exclusion table. *)
Lemma X16_exclusion_phrases_witness :
  canto_feature_count (_get_segment_features [38364; 20418]) = 0.
Proof.
  apply (proj1 (X16_exclusion_phrases [38364; 20418])).
  destruct (@match_at_sound CANTO_EXCLUDE_RE [38364; 20418] [38364; 20418]
                            [(1%nat, [38364; 20418])] eq_refl)
    as (s' & _ & H).
  exact H.
Defined.

(** X17: the source of [SWC_EXCLUDE_RE] writes the phrases opening with 些,
    弄 and 把 right after the phrase before them, with no bar between, so
    they are excluded only behind that phrase: a text of two characters
    opening with one of the three has no exclusion match and a net SWC count
    of at least one. *)
Theorem X17_phrases_without_bar (h x : Z) :
  In h [20123; 24324; 25226] ->
  findall SWC_EXCLUDE_RE [h; x] = []
  /\ 1 <= swc_feature_count (_get_segment_features [h; x]).
Proof. apply swc_two_counted. Qed.

(** 把握. *)
Lemma X17_phrases_without_bar_witness :
  findall SWC_EXCLUDE_RE [25226; 25569] = []
  /\ 1 <= swc_feature_count (_get_segment_features [25226; 25569]).
Proof.
  apply X17_phrases_without_bar. right. right. left. reflexivity.
Defined.

(** X18: the loop of [main], with the default thresholds the command line
    builds its detector with, never raises on lines shorter than 2^63
    characters, whatever the flags and the mode: it writes one record per
    line, the label of the stripped line, then in mode full a tab and the
    stripped line, then a newline; any mode other than full writes the
    labels alone. *)
Theorem X18_command_line_total (split quotes : bool) (mode : str)
        (lines : list str) :
  Forall (fun line => len line < MAX_LEN) lines ->
  exists ls,
    Forall2 (fun line l =>
               judge (default_detector split quotes) (strip line) = Ok l)
            lines ls
    /\ main split quotes mode lines
       = (concat (map (fun x =>
                         label_str (snd x)
                         ++ (if str_eqb mode (Utf8.text "full")
                             then 9 :: strip (fst x) else [])
                         ++ [10])
                      (combine lines ls)),
          None).
Proof.
  intros H. unfold main.
  destruct (@main_loop_total split quotes mode lines H []) as (ls & HF & E).
  exists ls. split; [exact HF|exact E].
Qed.

(** The lines 我哋去邊度 and hello, in mode full. *)
Lemma X18_command_line_total_witness :
  exists ls,
    Forall2 (fun line l =>
               judge (default_detector false false) (strip line) = Ok l)
            [[25105; 21707; 21435; 37002; 24230; 10];
             [104; 101; 108; 108; 111; 10]] ls
    /\ main false false [102; 117; 108; 108]
            [[25105; 21707; 21435; 37002; 24230; 10];
             [104; 101; 108; 108; 111; 10]]
       = (concat (map (fun x =>
                         label_str (snd x)
                         ++ (if str_eqb [102; 117; 108; 108] (Utf8.text "full")
                             then 9 :: strip (fst x) else [])
                         ++ [10])
                      (combine [[25105; 21707; 21435; 37002; 24230; 10];
                                [104; 101; 108; 108; 111; 10]] ls)),
          None).
Proof.
  apply X18_command_line_total.
  repeat constructor.
Defined.




End Extras.
